(** * Bookmarks manager: folder hierarchy, bookmark queries and the
      Firefox exchange format

    A shallow embedding of [app/utils/database.py],
    [app/services/folder_service.py], [app/services/bookmark_service.py],
    [app/services/tag_service.py] and [app/services/firefox_service.py],
    with [extract_title] of [app/services/metadata_service.py] and
    [search_api] of [app/routes/main.py].

    Conventions of the embedding.
    - Text (SQLite TEXT, Python [str]) is a [string] of 8-bit characters;
      identifiers are the texts produced by [str(uuid.uuid4())].
    - A nullable column or an optional argument is an [option].
    - A table is the list of its rows in storage order, the order in which
      a plain [SELECT] delivers them.  A query that groups by the primary
      key reads the rows through the index of the key, by id
      ([folders_by_id], [tags_by_id], [bookmarks_by_id]), and the
      association rows of a bookmark come through the index of their key,
      by tag id ([bookmark_tag_ids]).  Rows that compare equal under an
      [ORDER BY] keep the order in which they arrive.  (SQL leaves these
      orders open; they are the ones SQLite produces for this schema.)
    - SQLite integers are signed 64-bit numbers; Python integers are
      unbounded ([Z]).
    - A function that can raise returns a [result].  Recursive Python
      functions take the interpreter's recursion budget as [fuel]; running
      out of it is [RecursionError]. *)

From Stdlib Require Import String Ascii List ZArith Lia Bool Arith PeanoNat.
From Stdlib Require Import Relations Permutation Sorted OrderedTypeEx.
Import ListNotations.

Open Scope string_scope.
Open Scope list_scope.

(** ** Exceptions and the result monad *)

Inductive error : Type :=
| ValueError (msg : string)
| IntegrityError
| RecursionError
| ZeroDivisionError.

Inductive result (A : Type) : Type :=
| Ok (a : A)
| Raise (e : error).

Arguments Ok {A} a.
Arguments Raise {A} e.

Definition bind {A B : Type} (m : result A) (k : A -> result B) : result B :=
  match m with
  | Ok a => k a
  | Raise e => Raise e
  end.

Notation "x <- m ;; k" := (bind m (fun x => k))
  (at level 61, m at next level, right associativity).

(** ** Python truthiness of the values the services test *)

Definition str_truthy (s : string) : bool := negb (String.eqb s "").

Definition opt_truthy (o : option string) : bool :=
  match o with
  | Some s => str_truthy s
  | None => false
  end.

Definition opt_eqb (o : option string) (s : string) : bool :=
  match o with
  | Some x => String.eqb x s
  | None => false
  end.

Definition mem (s : string) (l : list string) : bool :=
  existsb (String.eqb s) l.

(** ** Persistence store ([init_db]) *)

Record folder_row : Type := mk_folder
  { f_id : string;
    f_name : string;
    f_parent_id : option string;
    f_created_at : string }.

Record tag_row : Type := mk_tag
  { t_id : string;
    t_name : string;
    t_created_at : string }.

Record bookmark_row : Type := mk_bookmark
  { b_id : string;
    b_url : string;
    b_title : string;
    b_description : option string;
    b_favicon : option string;
    b_folder_id : option string;
    b_pinned : Z;
    b_created_at : string }.

(** The connection of [get_db] together with the stored tables.
    [current_timestamp] is the value [CURRENT_TIMESTAMP] evaluates to and
    [uuid_draws] counts the calls of [uuid.uuid4] made so far. *)
Record database : Type := mk_db
  { folders : list folder_row;
    tags : list tag_row;
    bookmarks : list bookmark_row;
    bookmark_tags : list (string * string);
    current_timestamp : string;
    uuid_draws : nat }.

(** The empty store [init_db] creates.  [sqlite3.connect] opens a
    connection with foreign-key enforcement switched off (SQLite's
    default) and neither [get_db] nor [init_db] executes
    [PRAGMA foreign_keys = ON]: the referential actions the schema declares
    ([ON DELETE CASCADE], [ON DELETE SET NULL]) stay inactive on the
    connections the services use, while [PRIMARY KEY] and [UNIQUE] are
    always enforced. *)
Definition init_db (now : string) : database :=
  {| folders := []; tags := []; bookmarks := []; bookmark_tags := [];
     current_timestamp := now; uuid_draws := 0 |}.

Definition set_folders (db : database) (fs : list folder_row) : database :=
  {| folders := fs; tags := tags db; bookmarks := bookmarks db;
     bookmark_tags := bookmark_tags db;
     current_timestamp := current_timestamp db; uuid_draws := uuid_draws db |}.

Definition set_bookmarks (db : database) (bs : list bookmark_row) : database :=
  {| folders := folders db; tags := tags db; bookmarks := bs;
     bookmark_tags := bookmark_tags db;
     current_timestamp := current_timestamp db; uuid_draws := uuid_draws db |}.

Definition set_tags (db : database) (ts : list tag_row) : database :=
  {| folders := folders db; tags := ts; bookmarks := bookmarks db;
     bookmark_tags := bookmark_tags db;
     current_timestamp := current_timestamp db; uuid_draws := uuid_draws db |}.

Definition set_bookmark_tags (db : database) (bt : list (string * string))
  : database :=
  {| folders := folders db; tags := tags db; bookmarks := bookmarks db;
     bookmark_tags := bt;
     current_timestamp := current_timestamp db; uuid_draws := uuid_draws db |}.

Definition tick_uuid (db : database) : database :=
  {| folders := folders db; tags := tags db; bookmarks := bookmarks db;
     bookmark_tags := bookmark_tags db;
     current_timestamp := current_timestamp db;
     uuid_draws := S (uuid_draws db) |}.

Definition folder_ids (db : database) : list string := map f_id (folders db).

(** A stable sort: [list.sort(key=...)], and [ORDER BY] and the order of
    an index on the rows as they arrive. *)
Fixpoint insert_sorted {A : Type} (le : A -> A -> bool) (x : A) (l : list A)
  : list A :=
  match l with
  | [] => [x]
  | y :: l' => if le x y then x :: y :: l' else y :: insert_sorted le x l'
  end.

Definition stable_sort {A : Type} (le : A -> A -> bool) (l : list A) : list A :=
  fold_right (insert_sorted le) [] l.

(** ** Folder hierarchy engine ([folder_service]) *)

(** [SELECT id FROM folders WHERE parent_id = ?] *)
Definition select_child_ids (db : database) (parent_id : string) : list string :=
  map f_id (filter (fun r => opt_eqb (f_parent_id r) parent_id) (folders db)).

(** [for child in children: ids.extend(f(child))] *)
Fixpoint extend_each (f : string -> result (list string))
  (children : list string) (ids : list string) : result (list string) :=
  match children with
  | [] => Ok ids
  | c :: cs => l <- f c ;; extend_each f cs (ids ++ l)
  end.

(** The inner [get_descendants] of [get_folder_with_descendants]. *)
Fixpoint get_descendants (fuel : nat) (db : database) (parent_id : string)
  : result (list string) :=
  match fuel with
  | O => Raise RecursionError
  | S fuel' =>
      extend_each (get_descendants fuel' db)
        (select_child_ids db parent_id) [parent_id]
  end.

Definition get_folder_with_descendants (fuel : nat) (db : database)
  (folder_id : string) : result (list string) :=
  get_descendants fuel db folder_id.

(** Stateful service calls: the outcome together with the store after the
    call.  A call that raises leaves the store as of its last commit. *)
Definition M (A : Type) : Type := database -> result A * database.

Section Services.

(** [uuid4 n] is the text of the [n]-th identifier drawn from [uuid.uuid4];
    [download_favicon] is the favicon collaborator. *)
Variable uuid4 : nat -> string.
Variable download_favicon : string -> option string.

(** [create_folder]: the [INSERT] fails on a primary-key collision. *)
Definition create_folder (name : string) (parent_id : option string)
  : M string := fun db =>
  let folder_id := uuid4 (uuid_draws db) in
  let db := tick_uuid db in
  if mem folder_id (folder_ids db) then (Raise IntegrityError, db)
  else
    (Ok folder_id,
     set_folders db
       (folders db ++
        [mk_folder folder_id name parent_id (current_timestamp db)])).

(** [UPDATE folders SET name = ?, parent_id = ? WHERE id = ?], followed by
    the trigger [update_folders_timestamp]. *)
Definition sql_update_folder (folder_id name : string)
  (parent_id : option string) (db : database) : database :=
  set_folders db
    (map (fun r =>
            if String.eqb (f_id r) folder_id
            then mk_folder (f_id r) name parent_id (current_timestamp db)
            else r)
       (folders db)).

Definition update_folder (fuel : nat) (folder_id name : string)
  (parent_id : option string) : M unit := fun db =>
  let check :=
    if opt_truthy parent_id then
      descendants <- get_folder_with_descendants fuel db folder_id ;;
      if existsb (opt_eqb parent_id) descendants
      then Raise (ValueError "Cannot move folder into its own subfolder")
      else Ok tt
    else Ok tt in
  match check with
  | Raise e => (Raise e, db)
  | Ok _ => (Ok tt, sql_update_folder folder_id name parent_id db)
  end.

(** [DELETE FROM folders WHERE id = ?] as the services' connection executes
    it (see [init_db]): the row goes, nothing else is touched. *)
Definition sql_delete_folder (folder_id : string) (db : database) : database :=
  set_folders db
    (filter (fun r => negb (String.eqb (f_id r) folder_id)) (folders db)).

Definition delete_folder (folder_id : string) : M unit := fun db =>
  (Ok tt, sql_delete_folder folder_id db).

(** *** [get_folder_hierarchy] *)

(** Python dictionaries keep insertion order; assigning to a present key
    replaces the value in place. *)
Fixpoint dict_get {V : Type} (k : string) (d : list (string * V)) : option V :=
  match d with
  | [] => None
  | (k', v) :: d' => if String.eqb k' k then Some v else dict_get k d'
  end.

Fixpoint dict_set {V : Type} (k : string) (v : V) (d : list (string * V))
  : list (string * V) :=
  match d with
  | [] => [(k, v)]
  | (k', v') :: d' =>
      if String.eqb k' k then (k, v) :: d' else (k', v') :: dict_set k v d'
  end.

(** A folder dictionary of [get_folder_hierarchy].  The dictionaries are
    shared objects: a [children] list holds references to other entries of
    [folder_dict], written here as their keys. *)
Record hier_node : Type := mk_hier
  { h_row : folder_row;
    h_bookmark_count : nat;
    h_subfolder_count : nat;
    h_children : list string }.

Definition with_children (n : hier_node) (cs : list string) : hier_node :=
  mk_hier (h_row n) (h_bookmark_count n) (h_subfolder_count n) cs.

Definition folder_dict_t : Type := list (string * hier_node).

(** The [SELECT f.*, COUNT(DISTINCT b.id), (SELECT COUNT( * ) ...)] rows. *)
Definition count_bookmarks_in (db : database) (fid : string) : nat :=
  length (nodup string_dec
            (map b_id
               (filter (fun b => opt_eqb (b_folder_id b) fid) (bookmarks db)))).

Definition count_subfolders (db : database) (fid : string) : nat :=
  length (filter (fun r => opt_eqb (f_parent_id r) fid) (folders db)).

(** [GROUP BY f.id]: the groups come in the order of the primary key. *)
Definition folders_by_id (db : database) : list folder_row :=
  stable_sort (fun a b => String.leb (f_id a) (f_id b)) (folders db).

Definition hierarchy_rows (db : database) : list hier_node :=
  map (fun f => mk_hier f (count_bookmarks_in db (f_id f))
                 (count_subfolders db (f_id f)) [])
    (folders_by_id db).

(** [folder_dict = {f['id']: dict(f) for f in folders}], each entry then
    given an empty [children] list. *)
Definition build_folder_dict (rows : list hier_node) : folder_dict_t :=
  fold_left (fun d n => dict_set (f_id (h_row n)) (with_children n []) d)
    rows [].

(** One round of the loop that files every entry under its parent or among
    the roots. *)
Definition attach_folder (st : folder_dict_t * list string)
  (entry : string * hier_node) : folder_dict_t * list string :=
  let '(folder_dict, root_folders) := st in
  let '(key, folder) := entry in
  match f_parent_id (h_row folder) with
  | None => (folder_dict, root_folders ++ [key])
  | Some p =>
      match dict_get p folder_dict with
      | Some parent =>
          (dict_set p (with_children parent (h_children parent ++ [key]))
             folder_dict,
           root_folders)
      | None => (folder_dict, root_folders)
      end
  end.

(** [_strip_emoji_for_sort]: [re.sub(r'[^a-zA-Z0-9]', '', text)]. *)
Definition between (lo hi c : ascii) : bool :=
  andb (Nat.leb (nat_of_ascii lo) (nat_of_ascii c))
       (Nat.leb (nat_of_ascii c) (nat_of_ascii hi)).

Definition is_alnum (c : ascii) : bool :=
  orb (between "a" "z" c) (orb (between "A" "Z" c) (between "0" "9" c)).

Fixpoint strip_emoji_for_sort (text : string) : string :=
  match text with
  | EmptyString => EmptyString
  | String c rest =>
      if is_alnum c then String c (strip_emoji_for_sort rest)
      else strip_emoji_for_sort rest
  end.

Definition ascii_lower (c : ascii) : ascii :=
  if between "A" "Z" c then ascii_of_nat (nat_of_ascii c + 32) else c.

Fixpoint lower (s : string) : string :=
  match s with
  | EmptyString => EmptyString
  | String c rest => String (ascii_lower c) (lower rest)
  end.

Definition folder_sort_key (name : string) : string :=
  lower (strip_emoji_for_sort name).

Definition name_of_ref (folder_dict : folder_dict_t) (key : string) : string :=
  match dict_get key folder_dict with
  | Some n => f_name (h_row n)
  | None => ""
  end.

Definition sort_refs (folder_dict : folder_dict_t) (folder_list : list string)
  : list string :=
  stable_sort
    (fun a b => String.leb (folder_sort_key (name_of_ref folder_dict a))
                           (folder_sort_key (name_of_ref folder_dict b)))
    folder_list.

(** [sort_folders_recursive]: sorts the list in place (the sorted list is
    returned for the owner of the list to keep) and then, through [rec],
    the [children] of each of its folders. *)
Fixpoint sort_children_each
  (rec : folder_dict_t -> list string -> result (folder_dict_t * list string))
  (folder_list : list string) (d : folder_dict_t) : result folder_dict_t :=
  match folder_list with
  | [] => Ok d
  | key :: rest =>
      match dict_get key d with
      | Some folder =>
          match h_children folder with
          | [] => sort_children_each rec rest d
          | _ :: _ =>
              r <- rec d (h_children folder) ;;
              let '(d', cs) := r in
              match dict_get key d' with
              | Some folder' =>
                  sort_children_each rec rest
                    (dict_set key (with_children folder' cs) d')
              | None => sort_children_each rec rest d'
              end
          end
      | None => sort_children_each rec rest d
      end
  end.

Fixpoint sort_folders_recursive (fuel : nat) (folder_dict : folder_dict_t)
  (folder_list : list string) : result (folder_dict_t * list string) :=
  match fuel with
  | O => Raise RecursionError
  | S fuel' =>
      let sorted := sort_refs folder_dict folder_list in
      d <- sort_children_each (sort_folders_recursive fuel') sorted
             folder_dict ;;
      Ok (d, sorted)
  end.

(** The result is the list [root_folders] of references together with the
    dictionaries they refer to. *)
Definition get_folder_hierarchy (fuel : nat) (db : database)
  : result (folder_dict_t * list string) :=
  let folder_dict := build_folder_dict (hierarchy_rows db) in
  let '(folder_dict, root_folders) :=
    fold_left attach_folder folder_dict (folder_dict, []) in
  sort_folders_recursive fuel folder_dict root_folders.

(** ** Tag registry ([tag_service]) *)

(** [create_tag]: the [INSERT] fails on a primary-key collision and on a
    name already present ([name TEXT NOT NULL UNIQUE]). *)
Definition create_tag (name : string) : M string := fun db =>
  let tag_id := uuid4 (uuid_draws db) in
  let db := tick_uuid db in
  if orb (mem tag_id (map t_id (tags db))) (mem name (map t_name (tags db)))
  then (Raise IntegrityError, db)
  else (Ok tag_id,
        set_tags db (tags db ++ [mk_tag tag_id name (current_timestamp db)])).

(** ** Bookmark query engine ([bookmark_service]) *)

(** SQLite's [LIKE]: [%] matches any run of characters, [_] any single
    character, every other character itself up to the case of ASCII
    letters; there is no escape character. *)
Definition like_char_eq (a b : ascii) : bool :=
  Ascii.eqb (ascii_lower a) (ascii_lower b).

Fixpoint like_match (pattern text : string) : bool :=
  match pattern with
  | EmptyString =>
      match text with EmptyString => true | String _ _ => false end
  | String p pattern' =>
      if Ascii.eqb p "%" then
        (fix any_suffix (t : string) : bool :=
           orb (like_match pattern' t)
               (match t with
                | EmptyString => false
                | String _ t' => any_suffix t'
                end)) text
      else
        match text with
        | EmptyString => false
        | String c text' =>
            if Ascii.eqb p "_" then like_match pattern' text'
            else andb (like_char_eq p c) (like_match pattern' text')
        end
  end.

(** [x LIKE ?] is true only for a non-NULL [x] that matches. *)
Definition sql_like (x : option string) (pattern : string) : bool :=
  match x with
  | Some text => like_match pattern text
  | None => false
  end.

(** The [AND ...] clauses [get_all_bookmarks] appends to [WHERE 1=1], with
    their bound parameters. *)
Inductive where_clause : Type :=
| FolderIsNull
| FolderIn (ids : list string)
| TagIn (tag_id : string)
| SearchLike (p_title p_url p_description : string).

Definition eval_clause (db : database) (b : bookmark_row) (c : where_clause)
  : bool :=
  match c with
  | FolderIsNull =>
      match b_folder_id b with None => true | Some _ => false end
  | FolderIn ids => existsb (opt_eqb (b_folder_id b)) ids
  | TagIn tag_id =>
      existsb (fun bt => andb (String.eqb (fst bt) (b_id b))
                              (String.eqb (snd bt) tag_id))
        (bookmark_tags db)
  | SearchLike p1 p2 p3 =>
      orb (sql_like (Some (b_title b)) p1)
          (orb (sql_like (Some (b_url b)) p2)
               (sql_like (b_description b) p3))
  end.

Definition eval_where (db : database) (clauses : list where_clause)
  (b : bookmark_row) : bool :=
  forallb (eval_clause db b) clauses.

(** The joined rows of one bookmark: its folder (if any) and the tags its
    association rows lead to (a row that leads to no tag contributes a
    NULL, which [GROUP_CONCAT] skips). *)
Definition joined_folder_name (db : database) (b : bookmark_row)
  : option string :=
  match b_folder_id b with
  | None => None
  | Some fid =>
      match filter (fun f => String.eqb (f_id f) fid) (folders db) with
      | f :: _ => Some (f_name f)
      | [] => None
      end
  end.

(** The tag ids of the association rows of one bookmark, as the joins
    on [bt.bookmark_id] read them: through the index of the primary key
    [(bookmark_id, tag_id)], that is, by tag id. *)
Definition bookmark_tag_ids (db : database) (bookmark_id : string)
  : list string :=
  stable_sort String.leb
    (map snd
       (filter (fun bt => String.eqb (fst bt) bookmark_id) (bookmark_tags db))).

(** [... LEFT JOIN bookmark_tags bt ON b.id = bt.bookmark_id
    LEFT JOIN tags t ON bt.tag_id = t.id] *)
Definition joined_tags (db : database) (b : bookmark_row) : list tag_row :=
  flat_map
    (fun tag_id => filter (fun t => String.eqb (t_id t) tag_id) (tags db))
    (bookmark_tag_ids db (b_id b)).

(** [GROUP_CONCAT(x, ',')]: NULL for an empty group. *)
Definition group_concat (xs : list string) : option string :=
  match xs with
  | [] => None
  | _ :: _ => Some (String.concat "," xs)
  end.

(** [str.split(sep)] for a one-character separator. *)
Fixpoint split_on (sep : ascii) (s : string) : list string :=
  match s with
  | EmptyString => [EmptyString]
  | String c s' =>
      if Ascii.eqb c sep then EmptyString :: split_on sep s'
      else
        match split_on sep s' with
        | w :: ws => String c w :: ws
        | [] => [String c EmptyString]
        end
  end.

Inductive sort_column : Type := ColTitle | ColUrl | ColCreatedAt.
Inductive sort_direction : Type := ASC | DESC.

(** [valid_sorts.get(sort_by, 'b.created_at')] *)
Definition valid_sorts (sort_by : string) : option sort_column :=
  if String.eqb sort_by "title" then Some ColTitle
  else if String.eqb sort_by "url" then Some ColUrl
  else if String.eqb sort_by "created_at" then Some ColCreatedAt
  else None.

Definition sort_column_of (sort_by : string) : sort_column :=
  match valid_sorts sort_by with
  | Some c => c
  | None => ColCreatedAt
  end.

Definition sort_direction_of (sort_order : string) : sort_direction :=
  if String.eqb sort_order "asc" then ASC else DESC.

Definition column_value (c : sort_column) (b : bookmark_row) : string :=
  match c with
  | ColTitle => b_title b
  | ColUrl => b_url b
  | ColCreatedAt => b_created_at b
  end.

(** [ORDER BY b.pinned DESC, <column> <direction>]: [a] may stand before
    [b]. *)
Definition order_le (c : sort_column) (d : sort_direction)
  (a b : bookmark_row) : bool :=
  if Z.ltb (b_pinned b) (b_pinned a) then true
  else if Z.ltb (b_pinned a) (b_pinned b) then false
  else
    match d with
    | ASC => String.leb (column_value c a) (column_value c b)
    | DESC => String.leb (column_value c b) (column_value c a)
    end.

(** [OFFSET o] and [LIMIT l] for numbers SQLite accepts: a negative
    offset is zero, a negative limit is no limit. *)
Fixpoint sql_offset {A : Type} (offset : Z) (rows : list A) : list A :=
  match rows with
  | [] => []
  | _ :: rest => if Z.leb offset 0 then rows else sql_offset (offset - 1) rest
  end.

Fixpoint sql_limit {A : Type} (limit : Z) (rows : list A) : list A :=
  match rows with
  | [] => []
  | r :: rest => if Z.leb limit 0 then [] else r :: sql_limit (limit - 1) rest
  end.

Definition limit_offset {A : Type} (limit offset : Z) (rows : list A)
  : list A :=
  let rest := sql_offset offset rows in
  if Z.ltb limit 0 then rest else sql_limit limit rest.

(** A row of the page with the [tags] list Python adds to it. *)
Record bookmark_view : Type := mk_view
  { v_row : bookmark_row;
    v_folder_name : option string;
    v_tag_names : option string;
    v_tag_ids : option string;
    v_tags : list (string * string) }.

Definition view_of (db : database) (b : bookmark_row) : bookmark_view :=
  let tag_names := group_concat (map t_name (joined_tags db b)) in
  let tag_ids := group_concat (map t_id (joined_tags db b)) in
  mk_view b (joined_folder_name db b) tag_names tag_ids
    (if opt_truthy tag_names then
       match tag_names, tag_ids with
       | Some names, Some ids =>
           combine (split_on "," ids) (split_on "," names)
       | _, _ => []
       end
     else []).

(** [SELECT COUNT(DISTINCT b.id) ... WHERE ...]: [id] is the primary key,
    so every selected bookmark counts once however many joined rows it
    has. *)
Definition sql_count (db : database) (clauses : list where_clause) : Z :=
  Z.of_nat (length (filter (eval_where db clauses) (bookmarks db))).

(** [GROUP BY b.id]: the groups come in the order of the primary key. *)
Definition bookmarks_by_id (db : database) : list bookmark_row :=
  stable_sort (fun a b => String.leb (b_id a) (b_id b)) (bookmarks db).

(** [SELECT ... WHERE ... GROUP BY b.id ORDER BY ...] without its [LIMIT]:
    one row for each selected bookmark. *)
Definition sql_select (db : database) (clauses : list where_clause)
  (c : sort_column) (d : sort_direction) : list bookmark_row :=
  stable_sort (order_le c d)
    (filter (eval_where db clauses) (bookmarks_by_id db)).

(** The numbers [get_all_bookmarks] splices into [LIMIT ... OFFSET ...]
    are read as integers when they fit 64 bits; a larger literal is a
    floating-point number, which SQLite refuses there ("datatype
    mismatch", an [sqlite3.IntegrityError]). *)
Definition fits_int64 (z : Z) : bool :=
  andb (Z.leb (- 2 ^ 63) z) (Z.leb z (2 ^ 63 - 1)).

Record page_result : Type := mk_page
  { r_bookmarks : list bookmark_view;
    r_total : Z;
    r_page : Z;
    r_per_page : Z;
    r_total_pages : Z }.

(** The clauses of one run of the [if is_unfiled / elif folder_ids],
    [if tag_id], [if search] sequence. *)
Definition folder_clauses (is_unfiled : bool) (folder_ids : list string)
  : list where_clause :=
  if is_unfiled then [FolderIsNull]
  else match folder_ids with
       | [] => []
       | _ :: _ => [FolderIn folder_ids]
       end.

Definition tag_clauses (tag_id : option string) : list where_clause :=
  match tag_id with
  | Some t => if str_truthy t then [TagIn t] else []
  | None => []
  end.

Definition search_clauses (search : option string) : list where_clause :=
  match search with
  | Some s =>
      if str_truthy s then
        let search_term := ("%" ++ s ++ "%")%string in
        [SearchLike search_term search_term search_term]
      else []
  | None => []
  end.

(** The folder ids the query is restricted to ([folder_ids]). *)
Definition scope_folder_ids (fuel : nat) (db : database)
  (folder_id : option string) (include_subfolders : bool)
  : result (list string) :=
  let is_unfiled := opt_eqb folder_id "unfiled" in
  match folder_id with
  | Some fid =>
      if andb (str_truthy fid) (negb is_unfiled) then
        if include_subfolders
        then get_folder_with_descendants fuel db fid
        else Ok [fid]
      else Ok []
  | None => Ok []
  end.

Definition get_all_bookmarks (fuel : nat) (db : database)
  (folder_id tag_id search : option string) (sort_by sort_order : string)
  (include_subfolders : bool) (page per_page : Z) : result page_result :=
  let is_unfiled := opt_eqb folder_id "unfiled" in
  folder_ids <- scope_folder_ids fuel db folder_id include_subfolders ;;
  (* count query *)
  let count_query :=
    folder_clauses is_unfiled folder_ids ++ tag_clauses tag_id
      ++ search_clauses search in
  let total := sql_count db count_query in
  (* page query *)
  let query :=
    folder_clauses is_unfiled folder_ids ++ tag_clauses tag_id
      ++ search_clauses search in
  let sort_column := sort_column_of sort_by in
  let sort_direction := sort_direction_of sort_order in
  let offset := ((page - 1) * per_page)%Z in
  if negb (andb (fits_int64 per_page) (fits_int64 offset))
  then Raise IntegrityError
  else
    let rows :=
      limit_offset per_page offset
        (sql_select db query sort_column sort_direction) in
    let bookmarks := map (view_of db) rows in
    if Z.eqb per_page 0 then Raise ZeroDivisionError
    else
      Ok (mk_page bookmarks total page per_page
            ((total + per_page - 1) / per_page)%Z).

(** [create_bookmark]: one [INSERT] into [bookmarks] and one into
    [bookmark_tags] for each tag, committed together. *)
Fixpoint insert_bookmark_tags (bookmark_id : string) (tag_ids : list string)
  (bt : list (string * string)) : result (list (string * string)) :=
  match tag_ids with
  | [] => Ok bt
  | tag_id :: rest =>
      if existsb (fun x => andb (String.eqb (fst x) bookmark_id)
                                (String.eqb (snd x) tag_id)) bt
      then Raise IntegrityError
      else insert_bookmark_tags bookmark_id rest (bt ++ [(bookmark_id, tag_id)])
  end.

Definition create_bookmark (url title description : string)
  (folder_id : option string) (tag_ids : list string)
  (favicon : option string) : M string := fun db =>
  let bookmark_id := uuid4 (uuid_draws db) in
  let db := tick_uuid db in
  if mem bookmark_id (map b_id (bookmarks db)) then (Raise IntegrityError, db)
  else
    let row :=
      mk_bookmark bookmark_id url title (Some description) favicon
        (if opt_truthy folder_id then folder_id else None) 0%Z
        (current_timestamp db) in
    match insert_bookmark_tags bookmark_id tag_ids (bookmark_tags db) with
    | Raise e => (Raise e, db)
    | Ok bt =>
        (Ok bookmark_id,
         set_bookmark_tags (set_bookmarks db (bookmarks db ++ [row])) bt)
    end.

(** [toggle_pin] *)
Definition toggle_pin (bookmark_id : string) : M (option Z) := fun db =>
  match filter (fun b => String.eqb (b_id b) bookmark_id) (bookmarks db) with
  | [] => (Ok None, db)
  | bookmark :: _ =>
      let new_pinned := if Z.eqb (b_pinned bookmark) 0 then 1%Z else 0%Z in
      (Ok (Some new_pinned),
       set_bookmarks db
         (map (fun b =>
                 if String.eqb (b_id b) bookmark_id
                 then mk_bookmark (b_id b) (b_url b) (b_title b)
                        (b_description b) (b_favicon b) (b_folder_id b)
                        new_pinned (current_timestamp db)
                 else b)
            (bookmarks db)))
  end.

(** ** Exchange format mapper ([firefox_service]) *)

(** A node of the Firefox bookmark document.  A field of a JSON object
    that the import reads with [.get] is an [option], [None] standing for
    an absent key; [children] and [annos] are read with the default [[]].
    A [title] is absent, [null] or a text: the import tells the three
    apart. *)
Record anno : Type := mk_anno
  { a_name : option string;
    a_value : option string }.

Inductive tags_value : Type :=
| TagsStr (s : string)
| TagsList (l : list string).

Inductive json_text : Type :=
| Absent
| Null
| Text (s : string).

(** [node.get(key, default)] on such a field. *)
Definition get_text (field : json_text) (default : option string)
  : option string :=
  match field with
  | Absent => default
  | Null => None
  | Text s => Some s
  end.

#[warnings="-register-all"]
Inductive node : Type :=
| mk_node (n_type n_guid : option string) (n_title : json_text)
    (n_uri : option string) (n_annos : list anno)
    (n_tags : option tags_value) (n_children : list node).

Definition place_container : string := "text/x-moz-place-container".
Definition place : string := "text/x-moz-place".
Definition description_anno : string := "bookmarkProperties/description".

(** *** Export *)

(** The folder nodes of the export are shared objects held in [folder_map]
    and referred to from [children] lists; a bookmark node is complete when
    it is appended. *)
Inductive export_ref : Type :=
| FolderRef (id : string)
| BookmarkLeaf (n : node).

Record folder_node : Type := mk_folder_node
  { fn_guid : string;
    fn_title : string;
    fn_children : list export_ref }.

Definition append_child (n : folder_node) (r : export_ref) : folder_node :=
  mk_folder_node (fn_guid n) (fn_title n) (fn_children n ++ [r]).

Definition folder_map_t : Type := list (string * folder_node).

(** [SELECT * FROM folders ORDER BY name] *)
Definition export_folders (db : database) : list folder_row :=
  stable_sort (fun a b => String.leb (f_name a) (f_name b)) (folders db).

(** [SELECT b.*, ..., GROUP_CONCAT(t.name, ',') ... GROUP BY b.id
    ORDER BY b.created_at DESC] *)
Definition export_bookmarks (db : database)
  : list (bookmark_row * option string) :=
  map (fun b => (b, group_concat (map t_name (joined_tags db b))))
    (stable_sort (fun a b => String.leb (b_created_at b) (b_created_at a))
       (bookmarks_by_id db)).

(** One round of the loop "Create folder nodes". *)
Definition export_folder_step (st : folder_map_t * list export_ref)
  (folder : folder_row) : folder_map_t * list export_ref :=
  let '(folder_map, root_children) := st in
  let folder_node := mk_folder_node (f_id folder) (f_name folder) [] in
  let folder_map := dict_set (f_id folder) folder_node folder_map in
  if opt_truthy (f_parent_id folder) then
    match f_parent_id folder with
    | Some p =>
        match dict_get p folder_map with
        | Some parent =>
            (dict_set p (append_child parent (FolderRef (f_id folder)))
               folder_map,
             root_children)
        | None => (folder_map, root_children)
        end
    | None => (folder_map, root_children)
    end
  else (folder_map, root_children ++ [FolderRef (f_id folder)]).

Definition bookmark_node (b : bookmark_row) (tag_names : option string)
  : node :=
  mk_node (Some place) (Some (b_id b)) (Text (b_title b)) (Some (b_url b))
    (if opt_truthy (b_description b)
     then [mk_anno (Some description_anno) (b_description b)]
     else [])
    (if opt_truthy tag_names
     then option_map TagsStr tag_names
     else None)
    [].

(** One round of the loop "Add bookmarks to their folders". *)
Definition export_bookmark_step (st : folder_map_t * list export_ref)
  (bookmark : bookmark_row * option string) : folder_map_t * list export_ref :=
  let '(folder_map, unorganized_bookmarks) := st in
  let '(b, tag_names) := bookmark in
  let leaf := BookmarkLeaf (bookmark_node b tag_names) in
  match (if opt_truthy (b_folder_id b) then b_folder_id b else None) with
  | Some fid =>
      match dict_get fid folder_map with
      | Some folder => (dict_set fid (append_child folder leaf) folder_map,
                        unorganized_bookmarks)
      | None => (folder_map, unorganized_bookmarks ++ [leaf])
      end
  | None => (folder_map, unorganized_bookmarks ++ [leaf])
  end.

(** The object graph [export_to_firefox_json] returns: the folder nodes and
    the [children] of the toolbar container. *)
Record export_graph : Type := mk_export
  { e_folder_map : folder_map_t;
    e_toolbar_children : list export_ref }.

Definition export_to_firefox_json (db : database) : export_graph :=
  let '(folder_map, root_children) :=
    fold_left export_folder_step (export_folders db) ([], []) in
  let '(folder_map, unorganized_bookmarks) :=
    fold_left export_bookmark_step (export_bookmarks db) (folder_map, []) in
  mk_export folder_map (root_children ++ unorganized_bookmarks).

(** The nested document a reader of the graph sees ([jsonify], or the
    import walking the returned value). *)
Fixpoint map_result {A B : Type} (f : A -> result B) (l : list A)
  : result (list B) :=
  match l with
  | [] => Ok []
  | x :: l' => y <- f x ;; ys <- map_result f l' ;; Ok (y :: ys)
  end.

Fixpoint read_ref (fuel : nat) (folder_map : folder_map_t) (r : export_ref)
  : result node :=
  match fuel with
  | O => Raise RecursionError
  | S fuel' =>
      match r with
      | BookmarkLeaf n => Ok n
      | FolderRef id =>
          match dict_get id folder_map with
          | Some fn =>
              children <- map_result (read_ref fuel' folder_map)
                            (fn_children fn) ;;
              Ok (mk_node (Some place_container) (Some (fn_guid fn))
                    (Text (fn_title fn)) None [] None children)
          | None => Raise (ValueError "dangling reference")
          end
      end
  end.

Definition read_export (fuel : nat) (g : export_graph) : result node :=
  children <- map_result (read_ref fuel (e_folder_map g))
                (e_toolbar_children g) ;;
  let toolbar :=
    mk_node (Some place_container) (Some "toolbar_____")
      (Text "Bookmarks Toolbar") None [] None children in
  Ok (mk_node (Some place_container) (Some "root________") (Text "")
        None [] None [toolbar]).

(** *** Import *)

Record import_stats : Type := mk_stats
  { s_bookmarks : nat;
    s_folders : nat;
    s_tags : nat }.

(** [folder_mapping] is only ever assigned to; it is kept as the list of
    its assignments, guid and new folder id, in order. *)
Record import_state : Type := mk_import
  { i_db : database;
    i_stats : import_stats;
    i_folder_mapping : list (option string * string) }.

Definition special_guids : list string :=
  ["root________"; "menu________"; "unfiled_____"; "mobile______";
   "toolbar_____"].

(** [str.strip()]: the characters [str.isspace] holds for. *)
Definition is_space (c : ascii) : bool :=
  let n := nat_of_ascii c in
  orb (andb (Nat.leb 9 n) (Nat.leb n 13))
    (orb (andb (Nat.leb 28 n) (Nat.leb n 32))
       (orb (Nat.eqb n 133) (Nat.eqb n 160))).

Fixpoint lstrip (s : string) : string :=
  match s with
  | EmptyString => EmptyString
  | String c s' => if is_space c then lstrip s' else s
  end.

Fixpoint rstrip (s : string) : string :=
  match s with
  | EmptyString => EmptyString
  | String c s' =>
      match rstrip s' with
      | EmptyString => if is_space c then EmptyString else String c EmptyString
      | r => String c r
      end
  end.

Definition strip (s : string) : string := rstrip (lstrip s).

(** The loop over [tag_names]: find or create each tag. *)
Fixpoint import_tags (tag_names : list string) (tag_ids : list string)
  (st : import_state) : result (list string) * import_state :=
  match tag_names with
  | [] => (Ok tag_ids, st)
  | tag_name :: rest =>
      let tag_name := strip tag_name in
      if str_truthy tag_name then
        match filter (fun t => String.eqb (t_name t) tag_name)
                (tags (i_db st)) with
        | tag :: _ => import_tags rest (tag_ids ++ [t_id tag]) st
        | [] =>
            match create_tag tag_name (i_db st) with
            | (Ok tag_id, db') =>
                import_tags rest (tag_ids ++ [tag_id])
                  (mk_import db'
                     (mk_stats (s_bookmarks (i_stats st))
                        (s_folders (i_stats st)) (S (s_tags (i_stats st))))
                     (i_folder_mapping st))
            | (Raise e, db') =>
                (Raise e, mk_import db' (i_stats st) (i_folder_mapping st))
            end
        end
      else import_tags rest tag_ids st
  end.

(** [description]: the value of the first annotation named
    [bookmarkProperties/description]. *)
Fixpoint find_description (annos : list anno) : string :=
  match annos with
  | [] => ""
  | a :: rest =>
      if opt_eqb (a_name a) description_anno
      then match a_value a with Some v => v | None => "" end
      else find_description rest
  end.

Definition tags_truthy (t : tags_value) : bool :=
  match t with
  | TagsStr s => str_truthy s
  | TagsList l => match l with [] => false | _ :: _ => true end
  end.

(** [create_bookmark] as the import calls it, with the title it found:
    [None] violates [title TEXT NOT NULL] once the identifier has been
    drawn. *)
Definition create_bookmark_titled (url : string) (title : option string)
  (description : string) (folder_id : option string) (tag_ids : list string)
  (favicon : option string) : M string :=
  match title with
  | Some title =>
      create_bookmark url title description folder_id tag_ids favicon
  | None => fun db => (Raise IntegrityError, tick_uuid db)
  end.

Definition import_bookmark (n_title : json_text) (n_uri : option string)
  (n_annos : list anno) (n_tags : option tags_value)
  (parent_id : option string) (st : import_state)
  : result unit * import_state :=
  match n_uri with
  | None => (Ok tt, st)
  | Some url =>
      let title := get_text n_title (Some url) in
      if negb (str_truthy url) then (Ok tt, st)
      else
        let description := find_description n_annos in
        let tagged :=
          match n_tags with
          | Some tags_str =>
              if tags_truthy tags_str then
                import_tags
                  (match tags_str with
                   | TagsStr s => split_on "," s
                   | TagsList l => l
                   end) [] st
              else (Ok [], st)
          | None => (Ok [], st)
          end in
        match tagged with
        | (Raise e, st') => (Raise e, st')
        | (Ok tag_ids, st') =>
            let favicon := download_favicon url in
            match create_bookmark_titled url title description parent_id
                    tag_ids favicon (i_db st') with
            | (Raise e, db') =>
                (Raise e, mk_import db' (i_stats st') (i_folder_mapping st'))
            | (Ok _, db') =>
                (Ok tt,
                 mk_import db'
                   (mk_stats (S (s_bookmarks (i_stats st')))
                      (s_folders (i_stats st')) (s_tags (i_stats st')))
                   (i_folder_mapping st'))
            end
        end
  end.

(** [for child in node.get('children', []): process_container(child,
    scope)], stopping at the first exception. *)
Fixpoint process_children
  (rec : node -> option string -> import_state -> result unit * import_state)
  (children : list node) (scope : option string) (st : import_state)
  : result unit * import_state :=
  match children with
  | [] => (Ok tt, st)
  | child :: rest =>
      match rec child scope st with
      | (Ok _, st') => process_children rec rest scope st'
      | (Raise e, st') => (Raise e, st')
      end
  end.

Fixpoint process_container (fuel : nat) (n : node) (parent_id : option string)
  (st : import_state) : result unit * import_state :=
  match fuel with
  | O => (Raise RecursionError, st)
  | S fuel' =>
      match n with
      | mk_node n_type n_guid n_title n_uri n_annos n_tags n_children =>
          if opt_eqb n_type place_container then
            let guid := match n_guid with Some g => g | None => "" end in
            if mem guid special_guids
            then process_children (process_container fuel') n_children
                   parent_id st
            else
              match get_text n_title (Some "Untitled Folder") with
              | Some folder_title =>
                  if str_truthy folder_title then
                    match create_folder folder_title parent_id (i_db st) with
                    | (Raise e, db') =>
                        (Raise e,
                         mk_import db' (i_stats st) (i_folder_mapping st))
                    | (Ok folder_id, db') =>
                        process_children (process_container fuel') n_children
                          (Some folder_id)
                          (mk_import db'
                             (mk_stats (s_bookmarks (i_stats st))
                                (S (s_folders (i_stats st)))
                                (s_tags (i_stats st)))
                             (i_folder_mapping st ++ [(n_guid, folder_id)]))
                    end
                  else (Ok tt, st)
              | None => (Ok tt, st)
              end
          else if opt_eqb n_type place then
            import_bookmark n_title n_uri n_annos n_tags parent_id st
          else (Ok tt, st)
      end
  end.

Definition import_from_firefox_json (fuel : nat) (json_data : node)
  (db : database) : result import_stats * database :=
  let '(r, st) :=
    process_container fuel json_data None
      (mk_import db (mk_stats 0 0 0) []) in
  (_ <- r ;; Ok (i_stats st), i_db st).

End Services.

(** * The other operations of the services *)

(** ** Folder service: the flat listing and the lookup *)

(** [ORDER BY f.parent_id, f.name]: NULL stands before every text. *)
Definition parent_id_compare (a b : option string) : comparison :=
  match a, b with
  | None, None => Eq
  | None, Some _ => Lt
  | Some _, None => Gt
  | Some x, Some y => String.compare x y
  end.

Definition folder_list_le (a b : hier_node) : bool :=
  match parent_id_compare (f_parent_id (h_row a)) (f_parent_id (h_row b)) with
  | Lt => true
  | Gt => false
  | Eq => String.leb (f_name (h_row a)) (f_name (h_row b))
  end.

(** [get_all_folders]: the rows of [hierarchy_rows], ordered.  These
    dictionaries have no [children]; the field stays empty. *)
Definition get_all_folders (db : database) : list hier_node :=
  stable_sort folder_list_le (hierarchy_rows db).

(** [SELECT * FROM folders WHERE id = ?] with [fetchone()]. *)
Definition select_folder (db : database) (folder_id : string)
  : option folder_row :=
  match filter (fun r => String.eqb (f_id r) folder_id) (folders db) with
  | r :: _ => Some r
  | [] => None
  end.

(** A [while] loop run for a number of rounds: it has ended with a value,
    or it is still going. *)
Inductive looping (A : Type) : Type :=
| Finished (a : A)
| StillRunning.

Arguments Finished {A} a.
Arguments StillRunning {A}.

(** The loop of [get_folder]: [parent_chain.insert(0, dict(parent))] puts
    every ancestor found before the ones found so far. *)
Fixpoint parent_chain_loop (rounds : nat) (db : database)
  (current_parent_id : option string) (parent_chain : list folder_row)
  {struct rounds} : looping (list folder_row) :=
  if opt_truthy current_parent_id then
    match rounds with
    | O => StillRunning
    | S rounds' =>
        match current_parent_id with
        | Some p =>
            match select_folder db p with
            | Some parent =>
                parent_chain_loop rounds' db (f_parent_id parent)
                  (parent :: parent_chain)
            | None => Finished parent_chain
            end
        | None => Finished parent_chain
        end
    end
  else Finished parent_chain.

(** [get_folder]: the row and its [parent_chain], or [None]. *)
Definition get_folder (rounds : nat) (db : database) (folder_id : string)
  : looping (option (folder_row * list folder_row)) :=
  match select_folder db folder_id with
  | None => Finished None
  | Some folder =>
      match parent_chain_loop rounds db (f_parent_id folder) [] with
      | Finished parent_chain => Finished (Some (folder, parent_chain))
      | StillRunning => StillRunning
      end
  end.

(** ** Bookmark service: lookup, update and removal *)

(** [SELECT t.id, t.name FROM tags t JOIN bookmark_tags bt
     ON t.id = bt.tag_id WHERE bt.bookmark_id = ?]: the association rows
    of the bookmark, read through the index of their primary key, each
    joined with its tag. *)
Definition select_bookmark_tags (db : database) (bookmark_id : string)
  : list (string * string) :=
  flat_map
    (fun tag_id =>
       map (fun t => (t_id t, t_name t))
         (filter (fun t => String.eqb (t_id t) tag_id) (tags db)))
    (bookmark_tag_ids db bookmark_id).

(** [get_bookmark]: the row with its [tags] list, or [None]. *)
Definition get_bookmark (db : database) (bookmark_id : string)
  : option (bookmark_row * list (string * string)) :=
  match filter (fun b => String.eqb (b_id b) bookmark_id) (bookmarks db) with
  | [] => None
  | bookmark :: _ => Some (bookmark, select_bookmark_tags db bookmark_id)
  end.

(** [update_bookmark]: one of the two [UPDATE]s (each followed by the
    trigger [update_bookmarks_timestamp]), the [DELETE] of the bookmark's
    associations and one [INSERT] for each tag, committed together. *)
Definition update_bookmark (bookmark_id url title description : string)
  (folder_id : option string) (tag_ids : list string)
  (favicon : option string) : M unit := fun db =>
  let rows :=
    map (fun b =>
           if String.eqb (b_id b) bookmark_id
           then mk_bookmark (b_id b) url title (Some description)
                  (if opt_truthy favicon then favicon else b_favicon b)
                  (if opt_truthy folder_id then folder_id else None)
                  (b_pinned b) (current_timestamp db)
           else b)
      (bookmarks db) in
  let bt :=
    filter (fun x => negb (String.eqb (fst x) bookmark_id))
      (bookmark_tags db) in
  match insert_bookmark_tags bookmark_id tag_ids bt with
  | Raise e => (Raise e, db)
  | Ok bt' => (Ok tt, set_bookmark_tags (set_bookmarks db rows) bt')
  end.

(** [delete_bookmark]: [DELETE FROM bookmarks WHERE id = ?] as the
    services' connection executes it (see [init_db]). *)
Definition delete_bookmark (bookmark_id : string) : M unit := fun db =>
  (Ok tt,
   set_bookmarks db
     (filter (fun b => negb (String.eqb (b_id b) bookmark_id))
        (bookmarks db))).

(** ** Tag service: listing, lookup, update and removal *)

(** [COUNT(bt.bookmark_id)] of the group of the tag. *)
Definition count_tag_uses (db : database) (tag_id : string) : nat :=
  length (filter (fun bt => String.eqb (snd bt) tag_id) (bookmark_tags db)).

(** [GROUP BY t.id]: the groups come in the order of the primary key. *)
Definition tags_by_id (db : database) : list tag_row :=
  stable_sort (fun a b => String.leb (t_id a) (t_id b)) (tags db).

(** [get_all_tags]: every tag with its [bookmark_count],
    [ORDER BY t.name]. *)
Definition get_all_tags (db : database) : list (tag_row * nat) :=
  stable_sort (fun a b => String.leb (t_name (fst a)) (t_name (fst b)))
    (map (fun t => (t, count_tag_uses db (t_id t))) (tags_by_id db)).

Definition get_tag (db : database) (tag_id : string) : option tag_row :=
  match filter (fun t => String.eqb (t_id t) tag_id) (tags db) with
  | t :: _ => Some t
  | [] => None
  end.

(** [update_tag]: the [UPDATE] fails when it would give the name of another
    tag to a stored tag ([name TEXT NOT NULL UNIQUE]); it is followed by
    the trigger [update_tags_timestamp]. *)
Definition update_tag (tag_id name : string) : M unit := fun db =>
  if andb (mem tag_id (map t_id (tags db)))
          (existsb (fun t => andb (negb (String.eqb (t_id t) tag_id))
                                  (String.eqb (t_name t) name))
             (tags db))
  then (Raise IntegrityError, db)
  else
    (Ok tt,
     set_tags db
       (map (fun t =>
               if String.eqb (t_id t) tag_id
               then mk_tag (t_id t) name (current_timestamp db)
               else t)
          (tags db))).

(** [delete_tag]: the two [DELETE]s. *)
Definition delete_tag (tag_id : string) : M unit := fun db =>
  (Ok tt,
   set_tags
     (set_bookmark_tags db
        (filter (fun bt => negb (String.eqb (snd bt) tag_id))
           (bookmark_tags db)))
     (filter (fun t => negb (String.eqb (t_id t) tag_id)) (tags db))).

(** ** Live search ([routes/main.py], [search_api]) *)



(** ** Page titles ([metadata_service], [extract_title]) *)

(** The parsed document as [find] sees it: its tags in document order,
    each with its attributes and the value of [.string]. *)
Record html_tag : Type := mk_html_tag
  { tag_name : string;
    tag_attrs : list (string * string);
    tag_string : option string }.

(** [soup.find(name, attrs={key: value})] and [soup.find(name)]. *)
Definition soup_find (name : string) (attr : option (string * string))
  (soup : list html_tag) : option html_tag :=
  find (fun t =>
          andb (String.eqb (tag_name t) name)
               (match attr with
                | Some (key, value) => opt_eqb (dict_get key (tag_attrs t)) value
                | None => true
                end))
    soup.

Definition extract_title (soup : list html_tag) : option string :=
  let title : option string := None in
  let title :=
    match soup_find "meta" (Some ("property", "og:title")) soup with
    | Some og_title =>
        if opt_truthy (dict_get "content" (tag_attrs og_title))
        then dict_get "content" (tag_attrs og_title)
        else title
    | None => title
    end in
  let title :=
    if negb (opt_truthy title) then
      match soup_find "meta" (Some ("name", "twitter:title")) soup with
      | Some twitter_title =>
          if opt_truthy (dict_get "content" (tag_attrs twitter_title))
          then dict_get "content" (tag_attrs twitter_title)
          else title
      | None => title
      end
    else title in
  let title :=
    if negb (opt_truthy title) then
      match soup_find "title" None soup with
      | Some title_tag => tag_string title_tag
      | None => title
      end
    else title in
  if opt_truthy title then option_map strip title else None.

(** * Specification predicates *)

(** [parent_edge db c p]: a stored folder [c] names [p] as its parent. *)
Definition parent_edge (db : database) (c p : string) : Prop :=
  exists r, In r (folders db) /\ f_id r = c /\ f_parent_id r = Some p.

(** No folder is its own ancestor. *)
Definition acyclic (db : database) : Prop :=
  forall x, ~ clos_trans string (parent_edge db) x x.

(** [get_descendants] returns for every stored folder: an executable test
    for the absence of cycles (see [descendants_ok_acyclic]). *)
Definition descendants_ok (fuel : nat) (db : database) : bool :=
  forallb
    (fun x => match get_descendants fuel db x with
              | Ok _ => true
              | Raise _ => false
              end)
    (folder_ids db).

(** A stored folder whose parent reference is not null and matches no
    stored folder. *)
Definition orphan (db : database) (r : folder_row) : Prop :=
  In r (folders db) /\
  exists p, f_parent_id r = Some p /\ ~ In p (folder_ids db).

(** What can be reached from the returned roots through [children]
    lists. *)
Inductive reachable_ref (fd : folder_dict_t) (roots : list string)
  : string -> Prop :=
| reach_root (k : string) : In k roots -> reachable_ref fd roots k
| reach_child (k c : string) (n : hier_node) :
    reachable_ref fd roots k -> dict_get k fd = Some n ->
    In c (h_children n) -> reachable_ref fd roots c.

(** [up_len db x n]: following parent references from the stored folder
    [x] reaches a root folder after [n] steps. *)
Inductive up_len (db : database) : string -> nat -> Prop :=
| up_root (r : folder_row) :
    In r (folders db) -> f_parent_id r = None -> up_len db (f_id r) 0
| up_step (r : folder_row) (p : string) (n : nat) :
    In r (folders db) -> f_parent_id r = Some p -> up_len db p n ->
    up_len db (f_id r) (S n).

(** The invariant of the dictionaries: an entry is filed under the id of
    its row, every stored folder has an entry, and a [children] list holds
    only folders whose row names the owner of the list as parent. *)
Definition dict_ok (db : database) (fd : folder_dict_t) : Prop :=
  (forall k n, dict_get k fd = Some n ->
               In (h_row n) (folders db) /\ f_id (h_row n) = k) /\
  (forall k, In k (folder_ids db) -> exists n, dict_get k fd = Some n) /\
  (forall k n c, dict_get k fd = Some n -> In c (h_children n) ->
                 parent_edge db c k).

(** A root reference names a folder without parent. *)
Definition roots_ok (db : database) (roots : list string) : Prop :=
  forall k, In k roots ->
            exists r, In r (folders db) /\ f_id r = k /\ f_parent_id r = None.

(** [B] is one of the ids [get_folder_with_descendants] returned. *)
Definition in_descendants (B : option string) (desc : list string) : Prop :=
  match B with
  | Some b => In b desc
  | None => False
  end.

(** The operations of the folder service that write to the store. *)
Inductive folder_op : Type :=
| OpCreate (name : string) (parent_id : option string)
| OpUpdate (fuel : nat) (folder_id name : string) (parent_id : option string)
| OpDelete (folder_id : string).

Definition run_folder_op (uuid4 : nat -> string) (op : folder_op)
  (db : database) : database :=
  match op with
  | OpCreate name parent_id => snd (create_folder uuid4 name parent_id db)
  | OpUpdate fuel folder_id name parent_id =>
      snd (update_folder fuel folder_id name parent_id db)
  | OpDelete folder_id => snd (delete_folder folder_id db)
  end.

(** What is assumed of [uuid.uuid4]: the text it returns is not empty and
    has not been used as a parent reference, neither in the store nor in
    the call that draws it. *)
Definition fresh_draw (uuid4 : nat -> string) (op : folder_op)
  (db : database) : Prop :=
  match op with
  | OpCreate _ parent_id =>
      let u := uuid4 (uuid_draws db) in
      u <> "" /\ parent_id <> Some u /\
      forall r, In r (folders db) -> f_parent_id r <> Some u
  | _ => True
  end.

(** The stores the folder service can produce from the empty one. *)
Inductive reachable (uuid4 : nat -> string) : database -> Prop :=
| reach_init (now : string) : reachable uuid4 (init_db now)
| reach_step (db : database) (op : folder_op) :
    reachable uuid4 db -> fresh_draw uuid4 op db ->
    reachable uuid4 (run_folder_op uuid4 op db).

(** The invariant of the [folders] table. *)
Definition folders_ok (db : database) : Prop :=
  NoDup (folder_ids db) /\ ~ In "" (folder_ids db) /\ acyclic db.

(** The clauses of a query and the value [get_all_bookmarks] returns. *)
Definition query_clauses (folder_id tag_id search : option string)
  (ids : list string) : list where_clause :=
  folder_clauses (opt_eqb folder_id "unfiled") ids ++ tag_clauses tag_id
    ++ search_clauses search.

(** Importing a list of nodes into one scope, first to last, stopping at
    the first exception, each node with the recursion budget [fuel]. *)
Definition process_each (uuid4 : nat -> string)
  (download_favicon : string -> option string) (fuel : nat)
  (nodes : list node) (scope : option string) (st : import_state)
  : result unit * import_state :=
  process_children (process_container uuid4 download_favicon fuel) nodes
    scope st.

(** The state of the import after the folder [folder_id] has been created
    for a container with the given guid. *)
Definition folder_created (n_guid : option string) (folder_id title : string)
  (parent_id : option string) (st : import_state) : import_state :=
  mk_import
    (set_folders (tick_uuid (i_db st))
       (folders (i_db st) ++
        [mk_folder folder_id title parent_id (current_timestamp (i_db st))]))
    (mk_stats (s_bookmarks (i_stats st)) (S (s_folders (i_stats st)))
       (s_tags (i_stats st)))
    (i_folder_mapping st ++ [(n_guid, folder_id)]).

(** A container with the given title, or without the field, and a
    bookmark leaf. *)
Definition text_field (o : option string) : json_text :=
  match o with
  | Some s => Text s
  | None => Absent
  end.

Definition container (guid title : option string) (children : list node)
  : node :=
  mk_node (Some place_container) guid (text_field title) None [] None children.

Definition leaf (guid : option string) (title url : string)
  (annos : list anno) (tags : option tags_value) : node :=
  mk_node (Some place) guid (Text title) (Some url) annos tags [].

(** The number of nested calls [process_container] makes on a document:
    its height. *)
Fixpoint doc_depth (n : node) : nat :=
  match n with
  | mk_node _ _ _ _ _ _ n_children => S (list_max (map doc_depth n_children))
  end.

(** *** The exchange round trip, in the words of the specification *)

(** What the round trip is to preserve of a folder (up to the renaming of
    identifiers) and of a bookmark. *)
Definition folder_triple (r : folder_row) : string * string * option string :=
  (f_id r, f_name r, f_parent_id r).

Definition rename_folder (rho : string -> string) (r : folder_row)
  : string * string * option string :=
  (rho (f_id r), f_name r, option_map rho (f_parent_id r)).

Definition text_of (o : option string) : string :=
  match o with Some s => s | None => "" end.

(** Tag names as a set: in alphabetical order, whatever the order in
    which the store or the document lists them. *)
Definition sort_names (names : list string) : list string :=
  stable_sort String.leb names.

Definition bookmark_shape (db : database) (b : bookmark_row)
  : string * string * string * list string :=
  (b_url b, b_title b, text_of (b_description b),
   sort_names (map t_name (joined_tags db b))).

(** The folders a document gives rise to, in the order of the walk: guid,
    title and the guid of the enclosing folder. *)
Fixpoint doc_folders (n : node) (encl : option string)
  : list (string * string * option string) :=
  match n with
  | mk_node n_type n_guid n_title _ _ _ n_children =>
      if opt_eqb n_type place_container then
        let guid := match n_guid with Some g => g | None => "" end in
        if mem guid special_guids
        then flat_map (fun c => doc_folders c encl) n_children
        else
          match get_text n_title (Some "Untitled Folder") with
          | Some title =>
              if str_truthy title
              then (guid, title, encl)
                     :: flat_map (fun c => doc_folders c (Some guid)) n_children
              else []
          | None => []
          end
      else []
  end.

(** The bookmark leaves a document gives rise to, in the order of the
    walk. *)
Fixpoint doc_leaves (n : node) : list node :=
  match n with
  | mk_node n_type n_guid n_title n_uri _ _ n_children =>
      if opt_eqb n_type place_container then
        let guid := match n_guid with Some g => g | None => "" end in
        if mem guid special_guids then flat_map doc_leaves n_children
        else
          if opt_truthy (get_text n_title (Some "Untitled Folder"))
          then flat_map doc_leaves n_children
          else []
      else if opt_eqb n_type place then
        if opt_truthy n_uri then [n] else []
      else []
  end.

(** The tag names of a leaf: the parts of its tag text, stripped, the
    empty ones dropped. *)
Definition leaf_tag_names (n_tags : option tags_value) : list string :=
  match n_tags with
  | Some t =>
      if tags_truthy t then
        filter str_truthy
          (map strip
             (match t with
              | TagsStr s => split_on "," s
              | TagsList l => l
              end))
      else []
  | None => []
  end.

(** What a leaf with a title that is not null is imported as: the URL,
    the title (the URL when the field is absent), the description and the
    tag names. *)
Definition leaf_shape (n : node) : string * string * string * list string :=
  match n with
  | mk_node _ _ n_title n_uri n_annos n_tags _ =>
      (text_of n_uri,
       text_of (get_text n_title n_uri),
       find_description n_annos,
       sort_names (leaf_tag_names n_tags))
  end.

(** Documents of the shape the export writes: containers carry a guid and,
    unless special, a title that is not empty; leaves carry a title that
    is not null and a URL that is not empty, and name no tag twice. *)
#[warnings="-register-all"]
Inductive wf_doc : node -> Prop :=
| wf_special (g : string) (n_title : json_text) (n_uri : option string)
    (n_annos : list anno) (n_tags : option tags_value)
    (children : list node) :
    In g special_guids -> Forall wf_doc children ->
    wf_doc (mk_node (Some place_container) (Some g) n_title n_uri n_annos
              n_tags children)
| wf_folder (g t : string) (n_uri : option string) (n_annos : list anno)
    (n_tags : option tags_value) (children : list node) :
    ~ In g special_guids -> t <> "" -> Forall wf_doc children ->
    wf_doc (mk_node (Some place_container) (Some g) (Text t) n_uri n_annos
              n_tags children)
| wf_leaf (n_guid : option string) (n_title : json_text) (url : string)
    (n_annos : list anno) (n_tags : option tags_value)
    (children : list node) :
    n_title <> Null -> url <> "" -> NoDup (leaf_tag_names n_tags) ->
    wf_doc (mk_node (Some place) n_guid n_title (Some url) n_annos n_tags
              children).

(** An identifier is one of the draws made so far. *)
Definition drawn (uuid4 : nat -> string) (db : database) (x : string) : Prop :=
  exists k, k < uuid_draws db /\ x = uuid4 k.

(** The invariant of a store that only the import has written to. *)
Definition import_ok (uuid4 : nat -> string) (db : database) : Prop :=
  (forall r, In r (folders db) -> drawn uuid4 db (f_id r)) /\
  (forall b, In b (bookmarks db) -> drawn uuid4 db (b_id b)) /\
  (forall t, In t (tags db) -> drawn uuid4 db (t_id t)) /\
  (forall bt, In bt (bookmark_tags db) ->
              drawn uuid4 db (fst bt) /\ drawn uuid4 db (snd bt)) /\
  NoDup (folder_ids db) /\
  NoDup (map t_id (tags db)) /\
  NoDup (map t_name (tags db)).

(** [l] pairs the folders of a document with the rows created for them:
    the names agree, and the parent of a row is the given scope when the
    folder lies directly in the enclosing folder [encl], or else the row
    that [ctx] pairs with the folder's own enclosing folder. *)
Definition row_follows
  (ctx : list ((string * string * option string) * folder_row))
  (encl scope : option string)
  (p : (string * string * option string) * folder_row) : Prop :=
  f_name (snd p) = snd (fst (fst p)) /\
  ((snd (fst p) = encl /\ f_parent_id (snd p) = scope) \/
   exists q, In q ctx /\ snd (fst p) = Some (fst (fst (fst q))) /\
             f_parent_id (snd p) = Some (f_id (snd q))).

(** The effect of importing part of a document into the scope [scope]
    (the folder created for the enclosing folder [encl]): the store gains
    one row for each folder and one for each leaf of the part, and the
    bookmarks it held keep their tags. *)
Definition import_effect (uuid4 : nat -> string)
  (part_folders : list (string * string * option string))
  (part_leaves : list node) (encl scope : option string)
  (st st' : import_state) : Prop :=
  import_ok uuid4 (i_db st') /\
  exists L BR,
    map fst L = part_folders /\
    folders (i_db st') = folders (i_db st) ++ map snd L /\
    (forall p, In p L -> row_follows L encl scope p) /\
    bookmarks (i_db st') = bookmarks (i_db st) ++ BR /\
    map (bookmark_shape (i_db st')) BR = map leaf_shape part_leaves /\
    (forall b, In b (bookmarks (i_db st)) ->
               bookmark_shape (i_db st') b = bookmark_shape (i_db st) b).

(** The renaming of folder identifiers an import log [L] defines. *)
Definition renaming
  (L : list ((string * string * option string) * folder_row)) (g : string)
  : string :=
  match find (fun p => String.eqb (fst (fst (fst p))) g) L with
  | Some p => f_id (snd p)
  | None => ""
  end.

(** A tag name that survives the comma-separated tag text. *)
Fixpoint no_comma (s : string) : bool :=
  match s with
  | EmptyString => true
  | String c s' => andb (negb (Ascii.eqb c ",")) (no_comma s')
  end.

Definition clean_tag_name (s : string) : Prop :=
  strip s = s /\ s <> "" /\ no_comma s = true.

(** Every folder of the list names as parent nothing or a folder that
    stands before it ([seen] holds the ids already passed). *)
Fixpoint parents_first (seen : list string) (l : list folder_row) : bool :=
  match l with
  | [] => true
  | r :: rest =>
      andb
        (match f_parent_id r with
         | None => true
         | Some p => andb (str_truthy p) (mem p seen)
         end)
        (parents_first (f_id r :: seen) rest)
  end.

(** The stores the round trip is stated for. *)
Definition exportable (db : database) : Prop :=
  NoDup (folder_ids db) /\
  parents_first [] (export_folders db) = true /\
  (forall r, In r (folders db) ->
             f_name r <> "" /\ ~ In (f_id r) special_guids) /\
  (forall b, In b (bookmarks db) -> b_url b <> "") /\
  NoDup (map t_id (tags db)) /\
  NoDup (map t_name (tags db)) /\
  NoDup (bookmark_tags db) /\
  (forall t, In t (tags db) -> clean_tag_name (t_name t)).

(** The document the export writes, as a function of the rows in reading
    order: the node of the folder [id] with the nodes of its subfolders
    (found among the rows that follow) and its own leaves. *)
Definition child_ids (l : list folder_row) (id : string) : list string :=
  map f_id (filter (fun c => opt_eqb (f_parent_id c) id) l).

Fixpoint export_tree (leaves : string -> list node) (l : list folder_row)
  (id : string) : list node :=
  match l with
  | [] => []
  | r :: rest =>
      if String.eqb (f_id r) id then
        [container (Some id) (Some (f_name r))
           (flat_map (export_tree leaves rest) (child_ids rest id)
            ++ leaves id)]
      else export_tree leaves rest id
  end.

(** The leaves the export files under the folder [id], the leaves it
    leaves directly under the toolbar, and the whole document. *)
Definition filed_in (id : string) (x : bookmark_row * option string) : bool :=
  andb (opt_truthy (b_folder_id (fst x))) (opt_eqb (b_folder_id (fst x)) id).

Definition leaf_of (x : bookmark_row * option string) : node :=
  bookmark_node (fst x) (snd x).

Definition export_leaves (bs : list (bookmark_row * option string))
  (id : string) : list node :=
  map leaf_of (filter (filed_in id) bs).

Definition export_unorganized (ids : list string)
  (bs : list (bookmark_row * option string)) : list node :=
  map leaf_of (filter (fun x => negb (existsb (fun id => filed_in id x) ids)) bs).

Definition is_root (r : folder_row) : bool := negb (opt_truthy (f_parent_id r)).

Definition export_document (db : database) : node :=
  let fs := export_folders db in
  let bs := export_bookmarks db in
  container (Some "root________") (Some "")
    [container (Some "toolbar_____") (Some "Bookmarks Toolbar")
       (flat_map (export_tree (export_leaves bs) fs)
          (map f_id (filter is_root fs))
        ++ export_unorganized (map f_id fs) bs)].

(** The state of the export after the folder rows [l] have been read. *)
Definition folders_read (l : list folder_row)
  (st : folder_map_t * list export_ref) : Prop :=
  (forall r, In r l ->
             dict_get (f_id r) (fst st)
             = Some (mk_folder_node (f_id r) (f_name r)
                       (map FolderRef (child_ids l (f_id r))))) /\
  (forall k, ~ In k (map f_id l) -> dict_get k (fst st) = None) /\
  (forall r p, In r l -> f_parent_id r = Some p ->
               p <> "" /\ In p (map f_id l)) /\
  snd st = map FolderRef (map f_id (filter is_root l)).

(** The state of the export after all folder rows [fs] and the bookmark
    rows [bs] have been read. *)
Definition bookmarks_read (fs : list folder_row)
  (bs : list (bookmark_row * option string))
  (st : folder_map_t * list export_ref) : Prop :=
  (forall r, In r fs ->
             dict_get (f_id r) (fst st)
             = Some (mk_folder_node (f_id r) (f_name r)
                       (map FolderRef (child_ids fs (f_id r))
                        ++ map BookmarkLeaf (export_leaves bs (f_id r))))) /\
  (forall k, ~ In k (map f_id fs) -> dict_get k (fst st) = None) /\
  snd st = map BookmarkLeaf (export_unorganized (map f_id fs) bs).

(** What the subtree of the folder [id] contributes to a walk that gathers
    [pre r] on entering the folder [r] and [post r] on leaving it. *)
Fixpoint collect {X : Type} (pre post : folder_row -> list X)
  (l : list folder_row) (id : string) : list X :=
  match l with
  | [] => []
  | r :: rest =>
      if String.eqb (f_id r) id then
        pre r ++ flat_map (collect pre post rest) (child_ids rest id) ++ post r
      else collect pre post rest id
  end.

(** The folders of [l] whose parent is not a folder of [l]. *)
Definition is_top (l : list folder_row) (r : folder_row) : bool :=
  match f_parent_id r with
  | Some p => negb (mem p (map f_id l))
  | None => true
  end.

(** No folder of the list names itself or a later folder as parent. *)
Fixpoint no_later_parent (l : list folder_row) : Prop :=
  match l with
  | [] => True
  | r :: rest => is_top (r :: rest) r = true /\ no_later_parent rest
  end.

(** *** The bookmark query, in the words of the specification *)

(** The folder scope: "unfiled" is a null folder reference, a folder id
    with [include_subfolders] the folder and its descendants, without it
    the folder alone; no folder id, no restriction. *)
Definition spec_in_scope (fuel : nat) (db : database)
  (folder_id : option string) (include_subfolders : bool) (b : bookmark_row)
  : bool :=
  match folder_id with
  | None => true
  | Some fid =>
      if String.eqb fid "" then true
      else if String.eqb fid "unfiled" then
        match b_folder_id b with None => true | Some _ => false end
      else if include_subfolders then
        match get_folder_with_descendants fuel db fid with
        | Ok ids => existsb (opt_eqb (b_folder_id b)) ids
        | Raise _ => false
        end
      else opt_eqb (b_folder_id b) fid
  end.










(** The requested sort field, creation time for an unknown one, and the
    requested direction. *)
Definition spec_sort_key (sort_by : string) (b : bookmark_row) : string :=
  if String.eqb sort_by "title" then b_title b
  else if String.eqb sort_by "url" then b_url b
  else b_created_at b.

Definition spec_in_order (sort_order : string) (x y : string) : Prop :=
  if String.eqb sort_order "asc" then String.leb x y = true
  else String.leb y x = true.

Definition is_pinned (b : bookmark_row) : Prop := b_pinned b <> 0%Z.

(** [pinned] holds 0 or 1: [create_bookmark] leaves the default 0 and
    [toggle_pin] writes 0 or 1. *)
Definition pinned_ok (db : database) : Prop :=
  forall b, In b (bookmarks db) -> b_pinned b = 0%Z \/ b_pinned b = 1%Z.

(** ** Predicates for the other operations *)

(** *** The parent chain of [get_folder] *)

(** [climbs db start up]: [up] lists, nearest first, the stored folders
    met when following parent references from the reference [start],
    until a reference that is null or empty or matches no stored
    folder. *)
Fixpoint climbs (db : database) (start : option string) (up : list folder_row)
  : Prop :=
  match up with
  | [] =>
      opt_truthy start = false \/
      exists p, start = Some p /\ ~ In p (folder_ids db)
  | a :: rest =>
      start = Some (f_id a) /\ f_id a <> "" /\ In a (folders db) /\
      climbs db (f_parent_id a) rest
  end.

(** *** The tree of [get_folder_hierarchy] *)

(** The order [sort_folders_recursive] sorts by: the names of the two
    folders, reduced to lower-case letters and digits, are in order. *)
Definition key_le (d : folder_dict_t) (a b : string) : Prop :=
  String.leb (folder_sort_key (name_of_ref d a))
             (folder_sort_key (name_of_ref d b)) = true.

(** The [children] of the folder [x] are sorted. *)
Definition sorted_at (d : folder_dict_t) (x : string) : Prop :=
  forall n, dict_get x d = Some n -> StronglySorted (key_le d) (h_children n).

(** Two dictionaries that differ only in the order of their [children]
    lists. *)
Definition dict_equiv (d d' : folder_dict_t) : Prop :=
  forall k,
    match dict_get k d, dict_get k d' with
    | Some n, Some n' =>
        h_row n = h_row n' /\ h_bookmark_count n = h_bookmark_count n' /\
        h_subfolder_count n = h_subfolder_count n' /\
        Permutation (h_children n) (h_children n')
    | None, None => True
    | _, _ => False
    end.

(** [folder['parent_id'] is None] *)
Definition is_null_parent (r : folder_row) : bool :=
  match f_parent_id r with None => true | Some _ => false end.

(** The state of the attach loop after the rows [pre]: every entry of the
    initial dictionary [fd0] has been given its children among [pre], in
    their order, and the root list holds the rows of [pre] without
    parent. *)
Definition attached (fd0 : folder_dict_t) (pre : list folder_row)
  (st : folder_dict_t * list string) : Prop :=
  (forall k, dict_get k (fst st)
             = option_map (fun n0 => with_children n0 (child_ids pre k))
                 (dict_get k fd0)) /\
  snd st = map f_id (filter is_null_parent pre).

(** What [sort_folders_recursive] has achieved when it returns [(d', l')]
    for [(d, l)]. *)
Definition sort_post (d : folder_dict_t) (l : list string)
  (d' : folder_dict_t) (l' : list string) : Prop :=
  dict_equiv d d' /\ l' = sort_refs d l /\
  (forall x, sorted_at d x -> sorted_at d' x) /\
  (forall x, reachable_ref d' l' x -> sorted_at d' x).

(** The entry of the initial dictionary for the row [f]. *)
Definition hier_entry (db : database) (f : folder_row) : string * hier_node :=
  (f_id f,
   mk_hier f (count_bookmarks_in db (f_id f)) (count_subfolders db (f_id f)) []).

(** *** Bookmarks and their tags *)

(** The tag [tid] is stored under the name [name]. *)
Definition stored_tag (db : database) (tid name : string) : Prop :=
  exists t, In t (tags db) /\ t_id t = tid /\ t_name t = name.

(** The row [update_bookmark] and [toggle_pin] leave of [b]. *)
Definition touched (now : string) (b : bookmark_row) (pinned : Z)
  : bookmark_row :=
  mk_bookmark (b_id b) (b_url b) (b_title b) (b_description b) (b_favicon b)
    (b_folder_id b) pinned now.

(** The value of [0 if pinned else 1]. *)
Definition flipped (pinned : Z) : Z := if Z.eqb pinned 0 then 1%Z else 0%Z.

(** The tags of a store have names the comma-separated columns of
    [get_all_bookmarks] can carry. *)
Definition listable_tags (db : database) : Prop :=
  forall t, In t (tags db) ->
            t_name t <> "" /\ no_comma (t_name t) = true /\
            no_comma (t_id t) = true.

(** *** The store as a whole *)

(** The operations of the three services that write to the store. *)
Inductive service_op : Type :=
| FolderOp (op : folder_op)
| CreateTag (name : string)
| UpdateTag (tag_id name : string)
| DeleteTag (tag_id : string)
| CreateBookmark (url title description : string)
    (folder_id : option string) (tag_ids : list string)
    (favicon : option string)
| UpdateBookmark (bookmark_id url title description : string)
    (folder_id : option string) (tag_ids : list string)
    (favicon : option string)
| DeleteBookmark (bookmark_id : string)
| TogglePin (bookmark_id : string).

Definition run_service_op (uuid4 : nat -> string) (op : service_op)
  (db : database) : database :=
  match op with
  | FolderOp op => run_folder_op uuid4 op db
  | CreateTag name => snd (create_tag uuid4 name db)
  | UpdateTag tag_id name => snd (update_tag tag_id name db)
  | DeleteTag tag_id => snd (delete_tag tag_id db)
  | CreateBookmark url title description folder_id tag_ids favicon =>
      snd (create_bookmark uuid4 url title description folder_id tag_ids
             favicon db)
  | UpdateBookmark bookmark_id url title description folder_id tag_ids
      favicon =>
      snd (update_bookmark bookmark_id url title description folder_id
             tag_ids favicon db)
  | DeleteBookmark bookmark_id => snd (delete_bookmark bookmark_id db)
  | TogglePin bookmark_id => snd (toggle_pin bookmark_id db)
  end.

(** What the schema promises of a store: the primary keys, the unique tag
    names and the values of [pinned]. *)
Definition store_ok (db : database) : Prop :=
  NoDup (folder_ids db) /\
  NoDup (map t_id (tags db)) /\
  NoDup (map t_name (tags db)) /\
  NoDup (map b_id (bookmarks db)) /\
  NoDup (bookmark_tags db) /\
  pinned_ok db.

(** *** Import and export, whatever the document and the store *)

(** The import state [st'] extends [st]: every table has its old rows
    followed by new ones, and the counters have grown by the numbers of new
    folders, tags and bookmarks. *)
Definition import_grows (st st' : import_state) : Prop :=
  exists F T B BT,
    folders (i_db st') = folders (i_db st) ++ F /\
    tags (i_db st') = tags (i_db st) ++ T /\
    bookmarks (i_db st') = bookmarks (i_db st) ++ B /\
    bookmark_tags (i_db st') = bookmark_tags (i_db st) ++ BT /\
    s_folders (i_stats st') = s_folders (i_stats st) + length F /\
    s_tags (i_stats st') = s_tags (i_stats st) + length T /\
    s_bookmarks (i_stats st') = s_bookmarks (i_stats st) + length B.

(** [SELECT id FROM tags WHERE name = ?] with [fetchone()]. *)
Definition tag_id_of_name (db : database) (name : string) : option string :=
  match filter (fun t => String.eqb (t_name t) name) (tags db) with
  | t :: _ => Some (t_id t)
  | [] => None
  end.

(** The state of the export after the folder rows [l] have been read,
    whatever their order: every row has a node, the nodes hold folders
    only, and the root list holds the rows without parent reference. *)
Definition folders_keyed (l : list folder_row)
  (st : folder_map_t * list export_ref) : Prop :=
  (forall k, In k (map f_id l) <-> dict_get k (fst st) <> None) /\
  (forall k fn c, dict_get k (fst st) = Some fn -> In c (fn_children fn) ->
                  exists id, c = FolderRef id) /\
  snd st = map FolderRef (map f_id (filter is_root l)).

(** The bookmark names a folder that has a node in [fm0]. *)
Definition filed_known (fm0 : folder_map_t) (x : bookmark_row * option string)
  : bool :=
  match b_folder_id (fst x) with
  | Some fid =>
      andb (str_truthy fid)
           (match dict_get fid fm0 with Some _ => true | None => false end)
  | None => false
  end.

(** The state of the export after the bookmark rows [bs] have been read,
    [fm0] being the nodes the folder loop left. *)
Definition bookmarks_filed (fm0 : folder_map_t)
  (bs : list (bookmark_row * option string))
  (st : folder_map_t * list export_ref) : Prop :=
  (forall k, dict_get k (fst st)
             = option_map
                 (fun fn => mk_folder_node (fn_guid fn) (fn_title fn)
                              (fn_children fn
                               ++ map BookmarkLeaf (export_leaves bs k)))
                 (dict_get k fm0)) /\
  snd st
  = map BookmarkLeaf
      (map leaf_of (filter (fun x => negb (filed_known fm0 x)) bs)).

(** *** Live search and page titles *)



(** The text begins with no whitespace. *)
Definition no_leading_space (s : string) : Prop :=
  match s with
  | EmptyString => True
  | String c _ => is_space c = false
  end.

(** *** The subtree of a folder *)

(** The folder [x] is the folder [F] or lies below it. *)
Definition at_or_below (db : database) (x F : string) : Prop :=
  clos_refl_trans string (parent_edge db) x F.

(** ** Sample data *)

Definition sample_uuid4 (n : nat) : string :=
  String (ascii_of_nat (97 + n)) "-uuid".

Definition no_favicon (url : string) : option string := None.

(** Identifiers that never repeat: "u", "ux", "uxx", ... *)
Fixpoint tally (n : nat) : string :=
  match n with
  | O => EmptyString
  | S k => String "x" (tally k)
  end.

Definition tally_uuid4 (n : nat) : string := String "u" (tally n).

(** Work > Projects > Rocq, and Home, with one pinned and two plain
    bookmarks. *)
Definition sample_db : database :=
  {| folders :=
       [mk_folder "f-work" "Work" None "2024-01-01 10:00:00";
        mk_folder "f-proj" "Projects" (Some "f-work") "2024-01-01 10:00:01";
        mk_folder "f-rocq" "Rocq" (Some "f-proj") "2024-01-01 10:00:02";
        mk_folder "f-home" "Home" None "2024-01-01 10:00:03"];
     tags :=
       [mk_tag "t-dev" "dev" "2024-01-01 10:00:04";
        mk_tag "t-fun" "fun" "2024-01-01 10:00:05"];
     bookmarks :=
       [mk_bookmark "b-py" "https://python.org" "Python" (Some "language")
          None (Some "f-proj") 0 "2024-01-02 09:00:00";
        mk_bookmark "b-copy" "https://copy.example" "Copy" None
          None (Some "f-home") 1 "2024-01-02 09:00:01";
        mk_bookmark "b-happy" "https://example.org" "Happy" (Some "")
          None None 0 "2024-01-02 09:00:02"];
     bookmark_tags := [("b-py", "t-dev"); ("b-py", "t-fun"); ("b-copy", "t-fun")];
     current_timestamp := "2024-01-03 00:00:00";
     uuid_draws := 0 |}.

(** A store in which "Lost" refers to a parent that is not stored (any
    longer) and "Deep" lies below "Lost". *)
Definition orphan_db : database :=
  {| folders :=
       [mk_folder "f-work" "Work" None "2024-01-01 10:00:00";
        mk_folder "f-lost" "Lost" (Some "f-gone") "2024-01-01 10:00:01";
        mk_folder "f-deep" "Deep" (Some "f-lost") "2024-01-01 10:00:02"];
     tags := [];
     bookmarks :=
       [mk_bookmark "b-deep" "https://deep.example" "Deep link" None
          None (Some "f-deep") 0 "2024-01-02 09:00:00"];
     bookmark_tags := [];
     current_timestamp := "2024-01-03 00:00:00";
     uuid_draws := 0 |}.

(** "Alpha" is a subfolder of "Beta" and holds one bookmark. *)
Definition nested_db : database :=
  {| folders :=
       [mk_folder "f-beta" "Beta" None "2024-01-01 10:00:00";
        mk_folder "f-alpha" "Alpha" (Some "f-beta") "2024-01-01 10:00:01"];
     tags := [];
     bookmarks :=
       [mk_bookmark "b-a" "https://a.example" "A" None None (Some "f-alpha") 0
          "2024-01-02 09:00:00"];
     bookmark_tags := [];
     current_timestamp := "2024-01-03 00:00:00";
     uuid_draws := 0 |}.

(** The same tree with the names the other way round. *)
Definition nested_db_renamed : database :=
  {| folders :=
       [mk_folder "f-beta" "Alpha" None "2024-01-01 10:00:00";
        mk_folder "f-alpha" "Beta" (Some "f-beta") "2024-01-01 10:00:01"];
     tags := [];
     bookmarks :=
       [mk_bookmark "b-a" "https://a.example" "A" None None (Some "f-alpha") 0
          "2024-01-02 09:00:00"];
     bookmark_tags := [];
     current_timestamp := "2024-01-03 00:00:00";
     uuid_draws := 0 |}.

(** A store whose folders read parents first: Archive > Books > Comics,
    and Work, with tagged bookmarks. *)
Definition tidy_db : database :=
  {| folders :=
       [mk_folder "f-arch" "Archive" None "2024-01-01 10:00:00";
        mk_folder "f-work" "Work" None "2024-01-01 10:00:01";
        mk_folder "f-books" "Books" (Some "f-arch") "2024-01-01 10:00:02";
        mk_folder "f-comics" "Comics" (Some "f-books") "2024-01-01 10:00:03"];
     tags :=
       [mk_tag "t-dev" "dev" "2024-01-01 10:00:04";
        mk_tag "t-fun" "fun stuff" "2024-01-01 10:00:05"];
     bookmarks :=
       [mk_bookmark "b-py" "https://python.org" "Python" (Some "language")
          None (Some "f-work") 0 "2024-01-02 09:00:00";
        mk_bookmark "b-xkcd" "https://xkcd.com" "xkcd" None
          None (Some "f-comics") 1 "2024-01-02 09:00:01";
        mk_bookmark "b-ex" "https://example.org" "Example" (Some "")
          None None 0 "2024-01-02 09:00:02"];
     bookmark_tags :=
       [("b-py", "t-dev"); ("b-xkcd", "t-fun"); ("b-xkcd", "t-dev")];
     current_timestamp := "2024-01-03 00:00:00";
     uuid_draws := 0 |}.

(** One bookmark whose tag name contains a comma. *)
Definition comma_db : database :=
  {| folders := [];
     tags := [mk_tag "t-rw" "read,write" "2024-01-01 10:00:04"];
     bookmarks :=
       [mk_bookmark "b-io" "https://io.example" "IO" None None None 0
          "2024-01-02 09:00:00"];
     bookmark_tags := [("b-io", "t-rw")];
     current_timestamp := "2024-01-03 00:00:00";
     uuid_draws := 0 |}.

(** Two bookmarks with the same title and creation time, the one with the
    greater id stored first and tagged "zeta" and then "alpha". *)
Definition tie_db : database :=
  {| folders := [];
     tags :=
       [mk_tag "t-2" "zeta" "2024-01-01 10:00:04";
        mk_tag "t-1" "alpha" "2024-01-01 10:00:05"];
     bookmarks :=
       [mk_bookmark "b-2" "https://two.example" "Same" None None None 0
          "2024-01-02 09:00:00";
        mk_bookmark "b-1" "https://one.example" "Same" None None None 0
          "2024-01-02 09:00:00"];
     bookmark_tags := [("b-2", "t-2"); ("b-2", "t-1")];
     current_timestamp := "2024-01-03 00:00:00";
     uuid_draws := 0 |}.

(** "Work" and "Projects" created as roots, then "Work" moved under
    "Projects". *)
Definition scenario_db : database :=
  run_folder_op sample_uuid4 (OpUpdate 8 "a-uuid" "Work" (Some "b-uuid"))
    (run_folder_op sample_uuid4 (OpCreate "Projects" None)
       (run_folder_op sample_uuid4 (OpCreate "Work" None)
          (init_db "2024-01-01 10:00:00"))).

(** A page with an [og:title] and a [<title>]. *)
Definition sample_soup : list html_tag :=
  [mk_html_tag "meta" [("property", "og:title"); ("content", "  Rocq  ")] None;
   mk_html_tag "title" [] (Some "Home")].

(** The stored rows the examples refer to. *)
Definition sample_bookmark : bookmark_row :=
  mk_bookmark "b-py" "https://python.org" "Python" (Some "language")
    None (Some "f-proj") 0 "2024-01-02 09:00:00".

Definition sample_tag : tag_row := mk_tag "t-dev" "dev" "2024-01-01 10:00:04".

(** The bookmark of [tidy_db] that was tagged "fun stuff" and then
    "dev". *)
Definition xkcd_bookmark : bookmark_row :=
  mk_bookmark "b-xkcd" "https://xkcd.com" "xkcd" None
    None (Some "f-comics") 1 "2024-01-02 09:00:01".

(** A bookmark leaf that names the tag "news" twice. *)
Definition repeated_tag_leaf : node :=
  mk_node (Some place) (Some "g-1") (Text "News") (Some "https://news.example")
    [] (Some (TagsStr "news, news")) [].

(** * Properties *)

(** ** Descendant resolution *)

Lemma mem_In (s : string) (l : list string) : mem s l = true <-> In s l.
Proof.
  unfold mem. rewrite existsb_exists. split.
  - intros (x & Hx & E). apply String.eqb_eq in E. now subst.
  - intros H. exists s. split; [assumption | apply String.eqb_refl].
Qed.

Lemma opt_eqb_Some (o : option string) (s : string) :
  opt_eqb o s = true <-> o = Some s.
Proof.
  destruct o as [x|]; simpl.
  - rewrite String.eqb_eq. split; congruence.
  - split; discriminate.
Qed.

Lemma select_child_ids_spec (db : database) (p c : string) :
  In c (select_child_ids db p) <-> parent_edge db c p.
Proof.
  unfold select_child_ids, parent_edge. rewrite in_map_iff. split.
  - intros (r & E & Hr). apply filter_In in Hr as [Hr Hp].
    exists r. rewrite opt_eqb_Some in Hp. auto.
  - intros (r & Hr & E & Hp). exists r. split; [assumption|].
    apply filter_In. rewrite opt_eqb_Some. auto.
Qed.

(** The loop [extend_each] succeeds exactly when every call does, and then
    appends the results in order. *)
Lemma extend_each_Ok (f : string -> result (list string)) cs ids l :
  extend_each f cs ids = Ok l <->
  exists ls, Forall2 (fun c lc => f c = Ok lc) cs ls /\ l = ids ++ concat ls.
Proof.
  revert ids l. induction cs as [|c cs IH]; intros ids l; simpl.
  - split.
    + intros [= <-]. exists []. split; [constructor | now rewrite app_nil_r].
    + intros (ls & H & ->). inversion H; subst. simpl. now rewrite app_nil_r.
  - destruct (f c) as [lc|e] eqn:E; simpl.
    + rewrite IH. split.
      * intros (ls & H & ->). exists (lc :: ls). split.
        -- now constructor.
        -- simpl. now rewrite app_assoc.
      * intros (ls & H & ->). inversion H; subst.
        assert (lc = y) by congruence. subst y.
        exists l'. split; [assumption | simpl; now rewrite app_assoc].
    + split; [discriminate|]. intros (ls & H & _). inversion H; subst.
      congruence.
Qed.

Lemma get_descendants_unfold fuel db p l :
  get_descendants (S fuel) db p = Ok l <->
  exists ls,
    Forall2 (fun c lc => get_descendants fuel db c = Ok lc)
      (select_child_ids db p) ls
    /\ l = p :: concat ls.
Proof. simpl. rewrite extend_each_Ok. reflexivity. Qed.

(** More fuel does not change a result. *)
Lemma get_descendants_mono db :
  forall fuel p l, get_descendants fuel db p = Ok l ->
  forall fuel', fuel <= fuel' -> get_descendants fuel' db p = Ok l.
Proof.
  induction fuel as [|fuel IH]; intros p l H fuel' Hle; [discriminate|].
  destruct fuel' as [|fuel']; [lia|].
  apply get_descendants_unfold in H as (ls & H & ->).
  apply get_descendants_unfold. exists ls. split; [|reflexivity].
  eapply Forall2_impl; [|exact H]. intros c lc Hc. apply IH with (fuel' := fuel') in Hc; [assumption | lia].
Qed.

Lemma get_descendants_self fuel db p l :
  get_descendants fuel db p = Ok l -> In p l.
Proof.
  destruct fuel; [discriminate|]. intros H.
  apply get_descendants_unfold in H as (ls & _ & ->). now left.
Qed.

Lemma Forall2_In_l {A B} (R : A -> B -> Prop) l1 l2 a :
  Forall2 R l1 l2 -> In a l1 -> exists b, In b l2 /\ R a b.
Proof.
  induction 1 as [|x y l1 l2 Hxy H IH]; intros Hin; [contradiction|].
  destruct Hin as [->|Hin].
  - exists y. split; [now left | assumption].
  - destruct (IH Hin) as (b & Hb & Hr). exists b. split; [now right | assumption].
Qed.

Lemma Forall2_In_r {A B} (R : A -> B -> Prop) l1 l2 b :
  Forall2 R l1 l2 -> In b l2 -> exists a, In a l1 /\ R a b.
Proof.
  induction 1 as [|x y l1 l2 Hxy H IH]; intros Hin; [contradiction|].
  destruct Hin as [->|Hin].
  - exists x. split; [now left | assumption].
  - destruct (IH Hin) as (a & Ha & Hr). exists a. split; [now right | assumption].
Qed.

(** The result of a direct child is part of the result of its parent. *)
Lemma get_descendants_child fuel db p l c :
  get_descendants (S fuel) db p = Ok l -> parent_edge db c p ->
  exists lc, get_descendants fuel db c = Ok lc /\ incl lc l.
Proof.
  intros H Hc. apply get_descendants_unfold in H as (ls & H & ->).
  apply select_child_ids_spec in Hc.
  destruct (Forall2_In_l _ _ _ _ H Hc) as (lc & Hlc & E).
  exists lc. split; [assumption|].
  intros x Hx. right. apply in_concat. eauto.
Qed.

(** The result is closed under taking children. *)
Lemma get_descendants_closed db :
  forall fuel p l, get_descendants fuel db p = Ok l ->
  forall x c, In x l -> parent_edge db c x -> In c l.
Proof.
  induction fuel as [|fuel IH]; intros p l H x c Hx Hc; [discriminate|].
  pose proof H as H0.
  apply get_descendants_unfold in H as (ls & H & ->).
  destruct Hx as [<-|Hx].
  - destruct (get_descendants_child _ _ _ _ _ H0 Hc) as (lc & Hlc & Hincl).
    apply Hincl. eapply get_descendants_self; eassumption.
  - apply in_concat in Hx as (lx & Hlx & Hx).
    destruct (Forall2_In_r _ _ _ _ H Hlx) as (d & Hd & E).
    right. apply in_concat. exists lx. split; [assumption|].
    eapply IH; eassumption.
Qed.

(** Every folder below [p] (and [p] itself) is in the result. *)
Lemma get_descendants_complete fuel db p l x :
  get_descendants fuel db p = Ok l ->
  clos_refl_trans string (parent_edge db) x p -> In x l.
Proof.
  intros H Hx. apply clos_rt_rt1n in Hx.
  induction Hx as [p|x y p Hxy Hyp IH].
  - eapply get_descendants_self; eassumption.
  - eapply get_descendants_closed; eauto.
Qed.

(** Every element of the result is [p] or below [p]. *)
Lemma get_descendants_sound db :
  forall fuel p l, get_descendants fuel db p = Ok l ->
  forall x, In x l -> clos_refl_trans string (parent_edge db) x p.
Proof.
  induction fuel as [|fuel IH]; intros p l H x Hx; [discriminate|].
  apply get_descendants_unfold in H as (ls & H & ->).
  destruct Hx as [<-|Hx]; [apply rt_refl|].
  apply in_concat in Hx as (lx & Hlx & Hx).
  destruct (Forall2_In_r _ _ _ _ H Hlx) as (d & Hd & E).
  apply rt_trans with d.
  - eapply IH; eassumption.
  - apply rt_step. now apply select_child_ids_spec.
Qed.

Lemma Forall2_exists {A B} (R : A -> B -> Prop) (l : list A) :
  (forall a, In a l -> exists b, R a b) -> exists l', Forall2 R l l'.
Proof.
  induction l as [|a l IH]; intros H.
  - exists []. constructor.
  - destruct (H a (or_introl eq_refl)) as (b & Hb).
    destruct IH as (l' & Hl'); [intros; apply H; now right|].
    exists (b :: l'). now constructor.
Qed.

Lemma parent_edge_stored db c p : parent_edge db c p -> In c (folder_ids db).
Proof.
  intros (r & Hr & <- & _). unfold folder_ids. now apply in_map.
Qed.

Lemma step_rt_t {A} (R : relation A) x y z :
  R x y -> clos_refl_trans A R y z -> clos_trans A R x z.
Proof.
  intros Hxy Hyz. apply clos_rt_rtn1 in Hyz.
  induction Hyz as [|w z Hwz Hyw IH]; [now apply t_step|].
  apply t_trans with w; [assumption | now apply t_step].
Qed.

(** In a store without cycles the recursion is never deeper than the number
    of folders: [anc] is the chain of folders between the first call and
    the current one. *)
Lemma get_descendants_terminates_aux db (Hac : acyclic db) :
  forall fuel p anc,
    NoDup anc -> incl anc (folder_ids db) ->
    (forall a, In a anc -> clos_refl_trans string (parent_edge db) p a) ->
    length (folders db) - length anc < fuel ->
    exists l, get_descendants fuel db p = Ok l.
Proof.
  induction fuel as [|fuel IH]; intros p anc Hnd Hincl Hup Hfuel; [lia|].
  assert (Hch : forall c, In c (select_child_ids db p) ->
                          exists lc, get_descendants fuel db c = Ok lc).
  { intros c Hc. apply select_child_ids_spec in Hc.
    assert (Hnew : ~ In c anc).
    { intros Hin. apply (Hac c). eapply step_rt_t; eauto. }
    apply (IH c (c :: anc)).
    - now constructor.
    - intros a [<-|Ha]; [eapply parent_edge_stored; eassumption | now apply Hincl].
    - intros a [<-|Ha]; [apply rt_refl|].
      apply rt_trans with p; [now apply rt_step | now apply Hup].
    - assert (Hlen : length (c :: anc) <= length (folder_ids db)).
      { apply NoDup_incl_length; [now constructor|].
        intros a [<-|Ha]; [eapply parent_edge_stored; eassumption | now apply Hincl]. }
      unfold folder_ids in Hlen. rewrite length_map in Hlen. simpl in *. lia. }
  destruct (Forall2_exists _ _ Hch) as (ls & Hls).
  exists (p :: concat ls). apply get_descendants_unfold. eauto.
Qed.

(** A cycle makes [get_descendants] run out of any budget. *)
Lemma get_descendants_cycle db x :
  clos_trans string (parent_edge db) x x ->
  forall fuel l, get_descendants fuel db x <> Ok l.
Proof.
  intros Hx fuel. revert x Hx.
  induction fuel as [|fuel IH]; intros x Hx l H; [discriminate|].
  apply clos_trans_tn1 in Hx.
  assert (exists w, parent_edge db w x /\ clos_refl_trans string (parent_edge db) x w)
    as (w & Hw & Hxw).
  { inversion Hx as [Hxx | w z Hw Hxw]; subst.
    - exists x. split; [assumption | apply rt_refl].
    - exists w. split; [assumption|]. apply clos_tn1_trans in Hxw.
      clear - Hxw. induction Hxw; [now apply rt_step | eapply rt_trans; eassumption]. }
  destruct (get_descendants_child _ _ _ _ _ H Hw) as (lw & Hlw & _).
  apply (IH w) in Hlw; [assumption|].
  eapply step_rt_t; eassumption.
Qed.

Lemma descendants_ok_acyclic fuel db :
  descendants_ok fuel db = true -> acyclic db.
Proof.
  unfold descendants_ok. rewrite forallb_forall. intros H x Hx.
  assert (Hin : In x (folder_ids db)).
  { apply clos_trans_t1n in Hx. inversion Hx; subst;
      eapply parent_edge_stored; eassumption. }
  specialize (H x Hin).
  destruct (get_descendants fuel db x) as [l|e] eqn:E; [|discriminate].
  eapply get_descendants_cycle; eassumption.
Qed.

Lemma get_descendants_terminates db fuel p :
  acyclic db -> length (folders db) < fuel ->
  exists l, get_descendants fuel db p = Ok l.
Proof.
  intros Hac Hfuel. apply (get_descendants_terminates_aux db Hac fuel p []).
  - constructor.
  - intros a [].
  - intros a [].
  - simpl. lia.
Qed.

(** C9. In a store whose parent relation is acyclic,
    [get_folder_with_descendants F] returns a list that contains [F] itself
    and, for every direct child [C] of [F], every id of the list returned
    for [C]. *)
Theorem descendants_contain_self_and_children
  (db : database) (fuel : nat) (F : string) :
  acyclic db -> length (folders db) < fuel ->
  exists l,
    get_folder_with_descendants fuel db F = Ok l /\ In F l /\
    forall C, parent_edge db C F ->
      exists lc, get_folder_with_descendants fuel db C = Ok lc /\ incl lc l.
Proof.
  intros Hac Hfuel. unfold get_folder_with_descendants.
  destruct (get_descendants_terminates db fuel F Hac Hfuel) as (l & Hl).
  exists l. split; [assumption|]. split.
  - eapply get_descendants_self; eassumption.
  - intros C HC. destruct fuel as [|fuel]; [lia|].
    destruct (get_descendants_child _ _ _ _ _ Hl HC) as (lc & Hlc & Hincl).
    exists lc. split; [|assumption].
    eapply get_descendants_mono; [eassumption | lia].
Qed.

Lemma sample_db_acyclic : acyclic sample_db.
Proof. apply (descendants_ok_acyclic 5). reflexivity. Qed.

Lemma descendants_contain_self_and_children_witness :
  exists l,
    get_folder_with_descendants 5 sample_db "f-work" = Ok l /\ In "f-work" l /\
    forall C, parent_edge sample_db C "f-work" ->
      exists lc, get_folder_with_descendants 5 sample_db C = Ok lc /\ incl lc l.
Proof.
  apply (descendants_contain_self_and_children sample_db 5 "f-work").
  - exact sample_db_acyclic.
  - simpl. lia.
Defined.

(** ** Cyclic moves *)

Lemma existsb_opt_eqb (B : option string) (l : list string) :
  existsb (opt_eqb B) l = true <-> in_descendants B l.
Proof.
  rewrite existsb_exists. destruct B as [b|]; simpl.
  - split.
    + intros (x & Hx & E). apply String.eqb_eq in E. now subst.
    + intros H. exists b. split; [assumption | apply String.eqb_refl].
  - split; [intros (x & _ & E); discriminate | contradiction].
Qed.

Lemma clos_trans_incl {A} (R S : relation A) :
  (forall x y, R x y -> S x y) ->
  forall x y, clos_trans A R x y -> clos_trans A S x y.
Proof.
  intros H x y Hxy. induction Hxy as [x y Hxy|x y z _ IH1 _ IH2].
  - apply t_step. now apply H.
  - eapply t_trans; eassumption.
Qed.

(** Removing rows cannot create a cycle. *)
Lemma acyclic_sub db db' :
  (forall r, In r (folders db') -> In r (folders db)) ->
  acyclic db -> acyclic db'.
Proof.
  intros Hsub Hac x Hx. apply (Hac x).
  eapply clos_trans_incl; [|exact Hx].
  intros c p (r & Hr & Hc & Hp). exists r. auto.
Qed.

Lemma delete_folder_ok folder_id db :
  folders_ok db -> folders_ok (sql_delete_folder folder_id db).
Proof.
  intros (Hnd & Hne & Hac). unfold folders_ok, folder_ids. simpl.
  split; [|split].
  - clear - Hnd. unfold folder_ids in Hnd.
    induction (folders db) as [|r fs IH]; simpl; [constructor|].
    inversion Hnd as [|? ? Hr Hfs]; subst.
    destruct (negb (f_id r =? folder_id)); simpl; [|now apply IH].
    constructor; [|now apply IH].
    intros Hin. apply Hr. apply in_map_iff in Hin as (r' & E & Hr').
    apply filter_In in Hr' as [Hr' _]. apply in_map_iff. eauto.
  - intros Hin. apply Hne. apply in_map_iff in Hin as (r & E & Hr).
    apply filter_In in Hr as [Hr _]. apply in_map_iff. eauto.
  - eapply acyclic_sub; [|exact Hac]. simpl. intros r Hr.
    now apply filter_In in Hr as [Hr _].
Qed.

(** A new row that nothing refers to cannot close a cycle. *)
Lemma create_folder_ok uuid4 name parent_id db :
  folders_ok db -> fresh_draw uuid4 (OpCreate name parent_id) db ->
  folders_ok (snd (create_folder uuid4 name parent_id db)).
Proof.
  intros (Hnd & Hne & Hac) (Hu & Hpar & Hfresh). unfold create_folder.
  set (u := uuid4 (uuid_draws db)) in *.
  destruct (mem u (folder_ids (tick_uuid db))) eqn:Hmem; simpl.
  - repeat split; assumption.
  - assert (Hnin : ~ In u (folder_ids db)).
    { intros Hin. apply mem_In in Hin. unfold folder_ids in *. simpl in Hmem.
      congruence. }
    unfold folders_ok, folder_ids. simpl. rewrite map_app. simpl.
    split; [|split].
    + apply NoDup_app; [exact Hnd | repeat constructor; intros [] |].
      intros a Ha [<-|[]]. now apply Hnin.
    + intros Hin. apply in_app_or in Hin as [Hin|[E|[]]]; [now apply Hne|].
      now apply Hu.
    + intros x Hx.
      assert (Hedge : forall c p,
                 parent_edge
                   (set_folders (tick_uuid db)
                      (folders db ++
                       [mk_folder u name parent_id (current_timestamp db)])) c p ->
                 p <> u /\ (c <> u -> parent_edge db c p)).
      { intros c p (r & Hr & Hc & Hp). simpl in Hr.
        apply in_app_or in Hr as [Hr|[<-|[]]]; simpl in *.
        - split; [intros ->; now apply (Hfresh r Hr)|].
          intros _. exists r. auto.
        - split; [intros ->; now apply Hpar|]. intros Hcu. congruence. }
      apply (Hac x).
      assert (Hgen : forall a b,
                 clos_trans string
                   (parent_edge
                      (set_folders (tick_uuid db)
                         (folders db ++
                          [mk_folder u name parent_id (current_timestamp db)])))
                   a b ->
                 b <> u /\ (a <> u -> clos_trans string (parent_edge db) a b)).
      { intros a b Hab. apply clos_trans_t1n in Hab.
        induction Hab as [a b Hab | a m b Ham Hmb IH].
        - apply Hedge in Hab as [Hb Hab]. split; [assumption|].
          intros Ha. apply t_step. now apply Hab.
        - apply Hedge in Ham as [Hm Ham]. destruct IH as [Hb IH].
          split; [assumption|]. intros Ha.
          apply t_trans with m; [apply t_step; now apply Ham | now apply IH]. }
      destruct (Hgen x x Hx) as [Hxu Hxx]. now apply Hxx.
Qed.

Lemma sql_update_folder_ids A name B db :
  folder_ids (sql_update_folder A name B db) = folder_ids db.
Proof.
  unfold folder_ids, sql_update_folder. simpl. rewrite map_map.
  apply map_ext. intros r. now destruct (f_id r =? A).
Qed.

Lemma sql_update_folder_edge A name B db c p :
  parent_edge (sql_update_folder A name B db) c p ->
  parent_edge db c p \/ (c = A /\ B = Some p /\ In A (folder_ids db)).
Proof.
  intros (r' & Hr' & Hc & Hp). simpl in Hr'.
  apply in_map_iff in Hr' as (r & E & Hr).
  destruct (f_id r =? A) eqn:EA.
  - apply String.eqb_eq in EA. subst r'. simpl in *. right.
    repeat split; try congruence. rewrite <- EA.
    unfold folder_ids. now apply in_map.
  - subst r'. left. exists r. auto.
Qed.

(** A path in the updated store either is a path of the old store or
    passes through the edge from [A] to its new parent. *)
Lemma sql_update_folder_path A name B db x y :
  clos_trans string (parent_edge (sql_update_folder A name B db)) x y ->
  clos_trans string (parent_edge db) x y \/
  (In A (folder_ids db) /\
   clos_refl_trans string (parent_edge db) x A /\
   exists b, B = Some b /\ clos_refl_trans string (parent_edge db) b y).
Proof.
  induction 1 as [x y Hxy | x z y _ IH1 _ IH2].
  - apply sql_update_folder_edge in Hxy as [Hxy | (-> & HB & HA)].
    + left. now apply t_step.
    + right. split; [assumption|]. split; [apply rt_refl|].
      exists y. split; [assumption | apply rt_refl].
  - destruct IH1 as [H1 | (HA & H1 & b & HB & H1')];
      destruct IH2 as [H2 | (HA' & H2 & b' & HB' & H2')].
    + left. eapply t_trans; eassumption.
    + right. split; [assumption|]. split.
      * apply rt_trans with z; [now apply clos_t_clos_rt | assumption].
      * eauto.
    + right. split; [assumption|]. split; [assumption|].
      exists b. split; [assumption|].
      apply rt_trans with z; [assumption | now apply clos_t_clos_rt].
    + right. split; [assumption|]. split; [assumption|]. eauto.
Qed.

Lemma sql_update_folder_ok A name B db :
  folders_ok db ->
  (forall b, B = Some b -> In A (folder_ids db) ->
             ~ clos_refl_trans string (parent_edge db) b A) ->
  folders_ok (sql_update_folder A name B db).
Proof.
  intros (Hnd & Hne & Hac) HB. unfold folders_ok.
  rewrite sql_update_folder_ids. split; [assumption|]. split; [assumption|].
  intros x Hx. apply sql_update_folder_path in Hx
    as [Hx | (HA & HxA & b & Eb & Hbx)].
  - now apply (Hac x).
  - apply (HB b Eb HA). eapply rt_trans; eassumption.
Qed.

(** Below a stored folder there are only stored folders. *)
Lemma below_stored db x A :
  clos_refl_trans string (parent_edge db) x A ->
  In A (folder_ids db) -> In x (folder_ids db).
Proof.
  intros H HA. apply clos_rt_rt1n in H. destruct H as [|y z Hxy _].
  - assumption.
  - eapply parent_edge_stored; eassumption.
Qed.

Lemma update_folder_ok fuel A name B db :
  folders_ok db -> folders_ok (snd (update_folder fuel A name B db)).
Proof.
  intros Hok. unfold update_folder.
  destruct (opt_truthy B) eqn:HB.
  - unfold get_folder_with_descendants.
    destruct (get_descendants fuel db A) as [desc|e] eqn:Hd; simpl;
      [|assumption].
    destruct (existsb (opt_eqb B) desc) eqn:Hex; simpl; [assumption|].
    apply sql_update_folder_ok; [assumption|].
    intros b -> _ Hb.
    assert (Hin : in_descendants (Some b) desc).
    { simpl. eapply get_descendants_complete; eassumption. }
    apply existsb_opt_eqb in Hin. congruence.
  - simpl. apply sql_update_folder_ok; [assumption|].
    intros b -> HA Hb. destruct Hok as (_ & Hne & _).
    apply Hne. unfold opt_truthy, str_truthy in HB.
    apply negb_false_iff, String.eqb_eq in HB. subst b.
    eapply below_stored; eassumption.
Qed.

Lemma run_folder_op_ok uuid4 op db :
  folders_ok db -> fresh_draw uuid4 op db ->
  folders_ok (run_folder_op uuid4 op db).
Proof.
  intros Hok Hfresh. destruct op as [name parent|fuel A name B|A]; simpl.
  - now apply create_folder_ok.
  - now apply update_folder_ok.
  - now apply delete_folder_ok.
Qed.

Lemma reachable_ok uuid4 db : reachable uuid4 db -> folders_ok db.
Proof.
  induction 1 as [now | db op _ IH Hfresh].
  - repeat split; simpl.
    + constructor.
    + intros [].
    + intros x Hx. apply clos_trans_t1n in Hx.
      inversion Hx as [? (r & [] & _) | ? ? (r & [] & _)].
  - now apply run_folder_op_ok.
Qed.

(** The check of [update_folder] on a well-formed store. *)
Lemma update_folder_check fuel A name B db :
  folders_ok db -> In A (folder_ids db) -> length (folders db) < fuel ->
  exists desc,
    get_folder_with_descendants fuel db A = Ok desc /\
    (fst (update_folder fuel A name B db)
       = Raise (ValueError "Cannot move folder into its own subfolder")
     <-> in_descendants B desc) /\
    (~ in_descendants B desc ->
     update_folder fuel A name B db
       = (Ok tt, sql_update_folder A name B db)).
Proof.
  intros (Hnd & Hne & Hac) HA Hfuel.
  destruct (get_descendants_terminates db fuel A Hac Hfuel) as (desc & Hd).
  exists desc. split; [exact Hd|].
  assert (Hfalsy : opt_truthy B = false -> ~ in_descendants B desc).
  { destruct B as [b|]; simpl; [|tauto]. unfold str_truthy.
    intros Hb Hin. apply negb_false_iff, String.eqb_eq in Hb. subst b.
    apply Hne. eapply below_stored; [|exact HA].
    eapply get_descendants_sound; eassumption. }
  unfold update_folder, get_folder_with_descendants. rewrite Hd. simpl.
  destruct (opt_truthy B) eqn:HB.
  - destruct (existsb (opt_eqb B) desc) eqn:Hex; simpl.
    + apply existsb_opt_eqb in Hex. split; [tauto|]. intros Hn. contradiction.
    + assert (Hn : ~ in_descendants B desc).
      { intros Hin. apply existsb_opt_eqb in Hin. congruence. }
      split; [|reflexivity]. split; [discriminate | contradiction].
  - simpl. specialize (Hfalsy eq_refl).
    split; [|reflexivity]. split; [discriminate | contradiction].
Qed.

(** C1. In every store the folder operations can produce, the parent
    relation has no cycle, and for every stored folder [A], name and
    candidate parent [B]: [update_folder A name B] raises the cyclic-move
    error exactly when [B] is among the ids of
    [get_folder_with_descendants A] ([A] itself included), and otherwise
    succeeds and commits the update. *)
Theorem update_folder_rejects_cyclic_moves
  (uuid4 : nat -> string) (db : database) :
  reachable uuid4 db ->
  acyclic db /\
  forall (A name : string) (B : option string) (fuel : nat),
    In A (folder_ids db) -> length (folders db) < fuel ->
    exists desc,
      get_folder_with_descendants fuel db A = Ok desc /\
      In A desc /\
      (fst (update_folder fuel A name B db)
         = Raise (ValueError "Cannot move folder into its own subfolder")
       <-> in_descendants B desc) /\
      (~ in_descendants B desc ->
       update_folder fuel A name B db
         = (Ok tt, sql_update_folder A name B db)).
Proof.
  intros Hreach. pose proof (reachable_ok _ _ Hreach) as Hok.
  split; [apply Hok|].
  intros A name B fuel HA Hfuel.
  destruct (update_folder_check fuel A name B db Hok HA Hfuel)
    as (desc & Hd & Hiff & Hsucc).
  exists desc. repeat split; try assumption; try apply Hiff.
  eapply get_descendants_self; exact Hd.
Qed.

Lemma scenario_db_reachable : reachable sample_uuid4 scenario_db.
Proof.
  unfold scenario_db.
  repeat (apply reach_step; [|cbv; intuition (subst; discriminate)]).
  apply reach_init.
Qed.

Lemma update_folder_rejects_cyclic_moves_witness :
  acyclic scenario_db /\
  forall (A name : string) (B : option string) (fuel : nat),
    In A (folder_ids scenario_db) -> length (folders scenario_db) < fuel ->
    exists desc,
      get_folder_with_descendants fuel scenario_db A = Ok desc /\
      In A desc /\
      (fst (update_folder fuel A name B scenario_db)
         = Raise (ValueError "Cannot move folder into its own subfolder")
       <-> in_descendants B desc) /\
      (~ in_descendants B desc ->
       update_folder fuel A name B scenario_db
         = (Ok tt, sql_update_folder A name B scenario_db)).
Proof.
  apply (update_folder_rejects_cyclic_moves sample_uuid4 scenario_db).
  exact scenario_db_reachable.
Defined.

(** The scenario of the specification: after "Work" has been moved under
    "Projects", moving "Projects" under "Work" is rejected. *)
Example scenario_second_move_rejected :
  update_folder 8 "b-uuid" "Projects" (Some "a-uuid") scenario_db
  = (Raise (ValueError "Cannot move folder into its own subfolder"),
     scenario_db).
Proof. reflexivity. Qed.

(** ** Dictionaries and the stable sort *)

Lemma dict_get_set_same {V} (k : string) (v : V) d :
  dict_get k (dict_set k v d) = Some v.
Proof.
  induction d as [|[k' v'] d IH]; simpl.
  - now rewrite String.eqb_refl.
  - destruct (k' =? k) eqn:E; simpl.
    + now rewrite String.eqb_refl.
    + now rewrite E.
Qed.

Lemma dict_get_set_other {V} (k k' : string) (v : V) d :
  k <> k' -> dict_get k' (dict_set k v d) = dict_get k' d.
Proof.
  intros Hne. induction d as [|[k0 v0] d IH]; simpl.
  - apply String.eqb_neq in Hne. now rewrite Hne.
  - destruct (k0 =? k) eqn:E; simpl.
    + apply String.eqb_eq in E. subst k0.
      apply String.eqb_neq in Hne. now rewrite Hne.
    + destruct (k0 =? k'); [reflexivity | assumption].
Qed.

Lemma dict_get_In {V} (k : string) (v : V) d :
  dict_get k d = Some v -> In (k, v) d.
Proof.
  induction d as [|[k' v'] d IH]; simpl; [discriminate|].
  destruct (k' =? k) eqn:E.
  - apply String.eqb_eq in E. intros [= ->]. left. now subst.
  - intros H. right. now apply IH.
Qed.

Lemma insert_sorted_perm {A} (le : A -> A -> bool) x l :
  Permutation (insert_sorted le x l) (x :: l).
Proof.
  induction l as [|y l IH]; simpl; [reflexivity|].
  destruct (le x y); [reflexivity|].
  rewrite IH. apply perm_swap.
Qed.

Lemma stable_sort_perm {A} (le : A -> A -> bool) l :
  Permutation (stable_sort le l) l.
Proof.
  induction l as [|x l IH]; simpl; [reflexivity|].
  rewrite insert_sorted_perm. now constructor.
Qed.

Lemma folders_by_id_perm db : Permutation (folders_by_id db) (folders db).
Proof. apply stable_sort_perm. Qed.

Lemma folders_by_id_In db f : In f (folders_by_id db) <-> In f (folders db).
Proof.
  split; intros H; eapply Permutation_in; try exact H;
    [|apply Permutation_sym]; apply folders_by_id_perm.
Qed.

(** ** The folder tree *)

Lemma row_unique db r r' :
  NoDup (folder_ids db) -> In r (folders db) -> In r' (folders db) ->
  f_id r = f_id r' -> r = r'.
Proof.
  unfold folder_ids. induction (folders db) as [|x l IH]; simpl; [contradiction|].
  intros Hnd Hr Hr' E. inversion Hnd as [|? ? Hx Hl]; subst.
  destruct Hr as [->|Hr]; destruct Hr' as [->|Hr'].
  - reflexivity.
  - exfalso. apply Hx. rewrite E. now apply in_map.
  - exfalso. apply Hx. rewrite <- E. now apply in_map.
  - now apply IH.
Qed.

Lemma up_len_stored db x n : up_len db x n -> In x (folder_ids db).
Proof. intros H. destruct H; unfold folder_ids; now apply in_map. Qed.

Lemma up_len_det db (Hnd : NoDup (folder_ids db)) x n :
  up_len db x n -> forall m, up_len db x m -> n = m.
Proof.
  induction 1 as [r Hr Hp | r p n Hr Hp _ IH]; intros m Hm.
  - inversion Hm as [r' Hr' Hp' E | r' p' m' Hr' Hp' _ E]; subst; [reflexivity|].
    assert (r' = r) by (eapply row_unique; eassumption). subst. congruence.
  - inversion Hm as [r' Hr' Hp' E | r' p' m' Hr' Hp' Hm' E]; subst.
    + assert (r' = r) by (eapply row_unique; eassumption). subst. congruence.
    + assert (r' = r) by (eapply row_unique; eassumption). subst.
      assert (p' = p) by congruence. subst. f_equal. now apply IH.
Qed.

(** The chain from a folder up to its root visits no folder twice, so it is
    shorter than the table. *)
Lemma up_len_bound db (Hnd : NoDup (folder_ids db)) x n :
  up_len db x n -> n < length (folders db).
Proof.
  intros H.
  assert (exists chain,
             length chain = S n /\ NoDup chain /\
             incl chain (folder_ids db) /\
             forall a, In a chain -> exists m, m <= n /\ up_len db a m)
    as (chain & Hlen & Hnd' & Hincl & _).
  { induction H as [r Hr Hp | r p n Hr Hp Hup IH].
    - exists [f_id r]. split; [reflexivity|]. split; [|split].
      + repeat constructor. intros [].
      + intros a [<-|[]]. unfold folder_ids. now apply in_map.
      + intros a [<-|[]]. exists 0. split; [lia | now apply up_root].
    - destruct IH as (chain & Hlen & Hnd' & Hincl & Hall).
      exists (f_id r :: chain). split; [|split; [|split]].
      + simpl. now rewrite Hlen.
      + constructor; [|assumption]. intros Hin.
        destruct (Hall _ Hin) as (m & Hm & Hup').
        assert (S n = m).
        { apply (up_len_det db Hnd (f_id r) (S n));
            [eapply up_step; eassumption | exact Hup']. }
        lia.
      + intros a [<-|Ha]; [unfold folder_ids; now apply in_map | now apply Hincl].
      + intros a [<-|Ha].
        * exists (S n). split; [lia | eapply up_step; eassumption].
        * destruct (Hall _ Ha) as (m & Hm & Hup'). exists m. split; [lia | assumption]. }
  apply NoDup_incl_length in Hincl; [|assumption].
  unfold folder_ids in Hincl. rewrite length_map in Hincl. lia.
Qed.

Lemma dict_ok_set db fd k n :
  dict_ok db fd -> In (h_row n) (folders db) -> f_id (h_row n) = k ->
  (forall c, In c (h_children n) -> parent_edge db c k) ->
  dict_ok db (dict_set k n fd).
Proof.
  intros (H1 & H2 & H3) Hrow Hid Hch. split; [|split].
  - intros k' n' Hget. destruct (string_dec k k') as [<-|Hne].
    + rewrite dict_get_set_same in Hget. injection Hget as <-. auto.
    + rewrite dict_get_set_other in Hget by assumption. now apply H1.
  - intros k' Hk'. destruct (string_dec k k') as [<-|Hne].
    + rewrite dict_get_set_same. eauto.
    + rewrite dict_get_set_other by assumption. now apply H2.
  - intros k' n' c Hget Hc. destruct (string_dec k k') as [<-|Hne].
    + rewrite dict_get_set_same in Hget. injection Hget as <-. now apply Hch.
    + rewrite dict_get_set_other in Hget by assumption. eapply H3; eassumption.
Qed.

Lemma dict_set_In {V} (k k' : string) (v v' : V) d :
  In (k', v') (dict_set k v d) -> (k', v') = (k, v) \/ In (k', v') d.
Proof.
  induction d as [|[k0 v0] d IH]; simpl.
  - intros [H|[]]; left; now symmetry.
  - destruct (k0 =? k); simpl.
    + intros [H|H]; [left; now symmetry | right; now right].
    + intros [H|H]; [right; now left|].
      destruct (IH H) as [E|Hin]; [now left | right; now right].
Qed.

Lemma build_folder_dict_aux db :
  forall rows acc,
    (forall n, In n rows -> In (h_row n) (folders db)) ->
    (forall k n, In (k, n) acc ->
                 In (h_row n) (folders db) /\ f_id (h_row n) = k /\
                 h_children n = []) ->
    (forall k n, In (k, n)
                   (fold_left
                      (fun d n => dict_set (f_id (h_row n)) (with_children n []) d)
                      rows acc) ->
                 In (h_row n) (folders db) /\ f_id (h_row n) = k /\
                 h_children n = []) /\
    (forall k, dict_get k acc <> None \/
               In k (map (fun n => f_id (h_row n)) rows) ->
               dict_get k
                 (fold_left
                    (fun d n => dict_set (f_id (h_row n)) (with_children n []) d)
                    rows acc) <> None).
Proof.
  induction rows as [|x rows IH]; intros acc Hrows Hacc; simpl.
  - split; [assumption|]. intros k [H|[]]. assumption.
  - destruct (IH (dict_set (f_id (h_row x)) (with_children x []) acc))
      as (IH1 & IH2).
    + intros n Hn. apply Hrows. now right.
    + intros k n Hin. apply dict_set_In in Hin as [E|Hin]; [|now apply Hacc].
      injection E as -> ->. simpl. split; [|split; reflexivity].
      apply Hrows. now left.
    + split; [assumption|]. intros k Hk. apply IH2.
      destruct (string_dec (f_id (h_row x)) k) as [E|Hne].
      * left. rewrite E, dict_get_set_same. discriminate.
      * destruct Hk as [Hk|[Hk|Hk]]; [| contradiction | now right].
        left. now rewrite dict_get_set_other.
Qed.

Lemma build_folder_dict_ok db :
  let fd := build_folder_dict (hierarchy_rows db) in
  dict_ok db fd /\
  forall k n, In (k, n) fd -> In (h_row n) (folders db) /\ f_id (h_row n) = k.
Proof.
  simpl. unfold build_folder_dict.
  destruct (build_folder_dict_aux db (hierarchy_rows db) []) as (H1 & H2).
  - intros n Hn. unfold hierarchy_rows in Hn.
    apply in_map_iff in Hn as (f & <- & Hf). now apply folders_by_id_In.
  - intros k n [].
  - split; [split; [|split]|].
    + intros k n Hget. apply dict_get_In in Hget.
      destruct (H1 _ _ Hget) as (Ha & Hb & _). auto.
    + intros k Hk.
      match goal with |- exists n, ?g = Some n =>
        destruct g as [n|] eqn:E; [eauto|] end.
      exfalso. eapply H2; [|exact E]. right.
      unfold hierarchy_rows. rewrite map_map. simpl.
      apply in_map_iff in Hk as (f & <- & Hf). apply in_map.
      now apply folders_by_id_In.
    + intros k n c Hget Hc. apply dict_get_In in Hget.
      destruct (H1 _ _ Hget) as (_ & _ & Hnil). rewrite Hnil in Hc. destruct Hc.
    + intros k n Hin. destruct (H1 _ _ Hin) as (Ha & Hb & _). auto.
Qed.

Lemma attach_folder_ok db fd roots key folder :
  dict_ok db fd -> roots_ok db roots ->
  In (h_row folder) (folders db) -> f_id (h_row folder) = key ->
  dict_ok db (fst (attach_folder (fd, roots) (key, folder))) /\
  roots_ok db (snd (attach_folder (fd, roots) (key, folder))).
Proof.
  intros Hd Hr Hrow Hid. unfold attach_folder.
  destruct (f_parent_id (h_row folder)) as [p|] eqn:Hp.
  - destruct (dict_get p fd) as [parent|] eqn:Hget; simpl; [|auto].
    split; [|assumption].
    pose proof Hd as (H1 & H2 & H3).
    destruct (H1 _ _ Hget) as (Hprow & Hpid).
    apply dict_ok_set; [exact Hd | assumption | assumption |].
    simpl. intros c Hc. apply in_app_or in Hc as [Hc|[<-|[]]].
    + eapply H3; eassumption.
    + exists (h_row folder). auto.
  - simpl. split; [assumption|].
    intros k Hk. apply in_app_or in Hk as [Hk|[<-|[]]]; [now apply Hr|].
    exists (h_row folder). auto.
Qed.

Lemma attach_all_ok db entries :
  (forall k n, In (k, n) entries ->
               In (h_row n) (folders db) /\ f_id (h_row n) = k) ->
  forall fd roots,
    dict_ok db fd -> roots_ok db roots ->
    dict_ok db (fst (fold_left attach_folder entries (fd, roots))) /\
    roots_ok db (snd (fold_left attach_folder entries (fd, roots))).
Proof.
  induction entries as [|[key folder] entries IH]; intros Hent fd roots Hd Hr;
    cbn [fold_left]; [auto|].
  destruct (Hent key folder (or_introl eq_refl)) as (Hrow & Hid).
  destruct (attach_folder_ok db fd roots key folder Hd Hr Hrow Hid) as (Hd' & Hr').
  destruct (attach_folder (fd, roots) (key, folder)) as [fd' roots'].
  apply IH; [|assumption|assumption].
  intros k n Hin. apply Hent. now right.
Qed.

Lemma sort_children_each_ok db (Hnd : NoDup (folder_ids db)) rec fuel :
  (forall d l,
      dict_ok db d -> 1 <= fuel ->
      (forall x, In x l ->
                 exists m, up_len db x m /\ length (folders db) < fuel + m) ->
      exists d' l', rec d l = Ok (d', l') /\ dict_ok db d' /\ Permutation l l') ->
  forall l d,
    dict_ok db d ->
    (forall x, In x l ->
               exists m, up_len db x m /\ length (folders db) < S fuel + m) ->
    exists d', sort_children_each rec l d = Ok d' /\ dict_ok db d'.
Proof.
  intros Hrec. induction l as [|key rest IH]; intros d Hd Hdeep; simpl.
  - eauto.
  - assert (Hrest : forall x, In x rest ->
              exists m, up_len db x m /\ length (folders db) < S fuel + m)
      by (intros x Hx; apply Hdeep; now right).
    destruct (dict_get key d) as [folder|] eqn:Hget; [|now apply IH].
    destruct (h_children folder) as [|c0 cs0] eqn:Hch; [now apply IH|].
    pose proof Hd as (J1 & J2 & J3).
    destruct (Hdeep key (or_introl eq_refl)) as (m & Hm & Hfuel).
    assert (Hkids : forall c, In c (h_children folder) -> up_len db c (S m)).
    { intros c Hc. destruct (J3 _ _ _ Hget Hc) as (r & Hr & <- & Hp).
      eapply up_step; eassumption. }
    assert (H1 : 1 <= fuel).
    { assert (Hc0 : up_len db c0 (S m)) by (apply Hkids; rewrite Hch; now left).
      apply up_len_bound in Hc0; [lia | assumption]. }
    destruct (Hrec d (h_children folder) Hd H1) as (d' & cs & Hr & Hd' & Hperm).
    { intros c Hc. exists (S m). split; [now apply Hkids | lia]. }
    rewrite <- Hch. rewrite Hr. simpl.
    destruct (J1 _ _ Hget) as (Hrow & Hid).
    pose proof Hd' as (J1' & J2' & J3').
    destruct (J2' key) as (folder' & Hget').
    { rewrite <- Hid. unfold folder_ids. now apply in_map. }
    rewrite Hget'. apply IH; [|assumption].
    destruct (J1' _ _ Hget') as (Hrow' & Hid').
    apply dict_ok_set; [assumption | assumption | assumption |].
    simpl. intros c Hc. eapply J3; [exact Hget|].
    eapply Permutation_in; [apply Permutation_sym; exact Hperm | exact Hc].
Qed.

Lemma sort_folders_recursive_ok db (Hnd : NoDup (folder_ids db)) :
  forall fuel d l,
    dict_ok db d -> 1 <= fuel ->
    (forall x, In x l ->
               exists m, up_len db x m /\ length (folders db) < fuel + m) ->
    exists d' l',
      sort_folders_recursive fuel d l = Ok (d', l') /\ dict_ok db d' /\
      Permutation l l'.
Proof.
  induction fuel as [|fuel IH]; intros d l Hd Hfuel Hdeep; [lia|].
  simpl.
  assert (Hperm : Permutation (sort_refs d l) l) by apply stable_sort_perm.
  destruct (sort_children_each_ok db Hnd (sort_folders_recursive fuel) fuel IH
              (sort_refs d l) d Hd) as (d' & Hr & Hd').
  { intros x Hx. apply Hdeep. eapply Permutation_in; eassumption. }
  rewrite Hr. simpl. exists d', (sort_refs d l).
  split; [reflexivity|]. split; [assumption | now apply Permutation_sym].
Qed.

(** What is reachable from the roots is closed under taking the parent. *)
Lemma reachable_ref_up db (Hnd : NoDup (folder_ids db)) fd roots :
  dict_ok db fd -> roots_ok db roots ->
  forall x y, reachable_ref fd roots x -> parent_edge db x y ->
              reachable_ref fd roots y.
Proof.
  intros (J1 & J2 & J3) Hroots x y Hx (r & Hr & Hid & Hp).
  destruct Hx as [x Hx | k x n Hk Hget Hc].
  - destruct (Hroots _ Hx) as (r' & Hr' & Hid' & Hp').
    assert (r' = r) by (eapply row_unique; try eassumption; congruence).
    subst. congruence.
  - destruct (J3 _ _ _ Hget Hc) as (r' & Hr' & Hid' & Hp').
    assert (r' = r) by (eapply row_unique; try eassumption; congruence).
    subst. assert (y = k) by congruence. now subst.
Qed.

(** C10. In the tree [get_folder_hierarchy] returns, a folder whose parent
    reference is not null and matches no stored folder is neither among
    the roots nor in the [children] list of any folder, and neither it nor
    any folder below it can be reached from the returned roots. *)
Theorem hierarchy_omits_orphans (db : database) (fuel : nat) :
  NoDup (folder_ids db) -> length (folders db) < fuel ->
  exists fd roots,
    get_folder_hierarchy fuel db = Ok (fd, roots) /\
    forall r, orphan db r ->
      ~ In (f_id r) roots /\
      (forall k n, dict_get k fd = Some n -> ~ In (f_id r) (h_children n)) /\
      (forall d, clos_refl_trans string (parent_edge db) d (f_id r) ->
                 ~ reachable_ref fd roots d).
Proof.
  intros Hnd Hfuel. unfold get_folder_hierarchy.
  destruct (build_folder_dict_ok db) as (Hd0 & Hent).
  set (fd0 := build_folder_dict (hierarchy_rows db)) in *.
  destruct (attach_all_ok db fd0 Hent fd0 [] Hd0) as (Hd1 & Hr1).
  { intros k []. }
  destruct (fold_left attach_folder fd0 (fd0, [])) as [fd1 roots1].
  simpl in Hd1, Hr1.
  destruct (sort_folders_recursive_ok db Hnd fuel fd1 roots1 Hd1)
    as (fd & roots & Hres & Hd & Hperm); [lia | |].
  { intros x Hx. destruct (Hr1 _ Hx) as (r & Hr & <- & Hp).
    exists 0. split; [now apply up_root | lia]. }
  exists fd, roots. split; [assumption|].
  assert (Hroots : roots_ok db roots).
  { intros k Hk. apply Hr1. eapply Permutation_in;
      [apply Permutation_sym; exact Hperm | exact Hk]. }
  intros r (Hr & p & Hp & Hdangling).
  assert (Hnr : ~ In (f_id r) roots).
  { intros Hin. destruct (Hroots _ Hin) as (r' & Hr' & Hid' & Hp').
    assert (r' = r) by (eapply row_unique; eassumption). subst. congruence. }
  assert (Hnc : forall k n, dict_get k fd = Some n ->
                            ~ In (f_id r) (h_children n)).
  { intros k n Hget Hin. pose proof Hd as (J1 & J2 & J3).
    destruct (J3 _ _ _ Hget Hin) as (r' & Hr' & Hid' & Hp').
    assert (r' = r) by (eapply row_unique; eassumption). subst.
    assert (p = k) by congruence. subst k.
    apply Hdangling. destruct (J1 _ _ Hget) as (Hrow & <-).
    unfold folder_ids. now apply in_map. }
  split; [assumption|]. split; [assumption|].
  intros d Hdr Hreach.
  assert (Hf : reachable_ref fd roots (f_id r)).
  { apply clos_rt_rt1n in Hdr.
    induction Hdr as [|d e f Hde _ IH]; [assumption|].
    apply IH; try assumption.
    eapply reachable_ref_up; eassumption. }
  destruct Hf as [k Hk | k c n _ Hget Hc].
  - now apply Hnr.
  - eapply Hnc; eassumption.
Qed.

Lemma hierarchy_omits_orphans_witness :
  exists fd roots,
    get_folder_hierarchy 4 orphan_db = Ok (fd, roots) /\
    forall r, orphan orphan_db r ->
      ~ In (f_id r) roots /\
      (forall k n, dict_get k fd = Some n -> ~ In (f_id r) (h_children n)) /\
      (forall d, clos_refl_trans string (parent_edge orphan_db) d (f_id r) ->
                 ~ reachable_ref fd roots d).
Proof.
  apply (hierarchy_omits_orphans orphan_db 4).
  - repeat constructor; simpl; intuition discriminate.
  - simpl. lia.
Defined.

(** On [orphan_db] only "Work" is returned; "Lost" is nowhere, and "Deep"
    hangs under the unreachable "Lost". *)
Example hierarchy_of_orphan_db :
  exists fd,
    get_folder_hierarchy 4 orphan_db = Ok (fd, ["f-work"]) /\
    option_map h_children (dict_get "f-work" fd) = Some [] /\
    option_map h_children (dict_get "f-lost" fd) = Some ["f-deep"].
Proof. eexists. split; [reflexivity|]. split; reflexivity. Qed.

(** ** Deleting a folder *)

(** What [delete_folder] does to any store: the row goes, every other
    folder row stays as it is (children keep their reference to the
    deleted id), and no bookmark is touched. *)
Lemma delete_folder_effect (F : string) (db : database) :
  let db' := snd (delete_folder F db) in
  ~ In F (folder_ids db') /\
  (forall r, In r (folders db) -> f_id r <> F -> In r (folders db')) /\
  bookmarks db' = bookmarks db.
Proof.
  simpl. split; [|split].
  - unfold folder_ids. simpl. intros Hin.
    apply in_map_iff in Hin as (r & E & Hr).
    apply filter_In in Hr as [_ Hr]. apply negb_true_iff in Hr.
    apply String.eqb_neq in Hr. contradiction.
  - intros r Hr Hne. apply filter_In. split; [assumption|].
    apply negb_true_iff. now apply String.eqb_neq.
  - reflexivity.
Qed.

(** C7, evaluated: deleting "Projects" from [sample_db] removes its row
    and leaves the child "Rocq" pointing at the deleted id, but the
    bookmark filed in "Projects" keeps its folder reference instead of
    having it set to null. *)
Theorem delete_folder_keeps_bookmark_reference :
  let db' := snd (delete_folder "f-proj" sample_db) in
  ~ In "f-proj" (folder_ids db') /\
  In (mk_folder "f-rocq" "Rocq" (Some "f-proj") "2024-01-01 10:00:02")
    (folders db') /\
  In (mk_bookmark "b-py" "https://python.org" "Python" (Some "language")
        None (Some "f-proj") 0 "2024-01-02 09:00:00")
    (bookmarks db') /\
  ~ (forall b, In b (bookmarks sample_db) ->
               b_folder_id b = Some "f-proj" ->
               exists b', In b' (bookmarks db') /\ b_id b' = b_id b /\
                          b_folder_id b' = None).
Proof.
  simpl. split; [|split; [|split]].
  - intuition discriminate.
  - auto.
  - auto.
  - intros H.
    destruct (H (mk_bookmark "b-py" "https://python.org" "Python"
                   (Some "language") None (Some "f-proj") 0
                   "2024-01-02 09:00:00")) as (b' & Hb' & Hid & Hnull);
      [simpl; auto | reflexivity |].
    simpl in Hb'.
    destruct Hb' as [<-|[<-|[<-|[]]]]; simpl in *; discriminate.
Qed.

(** ** The bookmark query *)



Lemma folder_clauses_spec fuel db folder_id include_subfolders ids b :
  scope_folder_ids fuel db folder_id include_subfolders = Ok ids ->
  eval_where db (folder_clauses (opt_eqb folder_id "unfiled") ids) b
  = spec_in_scope fuel db folder_id include_subfolders b.
Proof.
  unfold scope_folder_ids, spec_in_scope, folder_clauses.
  destruct folder_id as [fid|]; simpl; [|intros [= <-]; reflexivity].
  unfold str_truthy.
  destruct (fid =? "") eqn:E1; simpl.
  - apply String.eqb_eq in E1. subst. simpl. intros [= <-]. reflexivity.
  - destruct (fid =? "unfiled") eqn:E2; simpl.
    + intros [= <-]. simpl. now rewrite andb_true_r.
    + destruct include_subfolders.
      * intros H. rewrite H. unfold get_folder_with_descendants in H.
        apply get_descendants_self in H. destruct ids as [|i ids]; [destruct H|].
        simpl. now rewrite andb_true_r.
      * intros [= <-]. simpl. now rewrite orb_false_r, andb_true_r.
Qed.


Lemma sql_offset_skipn {A} (l : list A) :
  forall offset, sql_offset offset l = skipn (Z.to_nat offset) l.
Proof.
  induction l as [|x l IH]; intros offset; cbn [sql_offset].
  - now rewrite skipn_nil.
  - destruct (offset <=? 0)%Z eqn:E.
    + apply Z.leb_le in E. now replace (Z.to_nat offset) with 0 by lia.
    + apply Z.leb_gt in E.
      replace (Z.to_nat offset) with (S (Z.to_nat (offset - 1))) by lia.
      cbn [skipn]. apply IH.
Qed.

Lemma sql_limit_firstn {A} (l : list A) :
  forall limit, sql_limit limit l = firstn (Z.to_nat limit) l.
Proof.
  induction l as [|x l IH]; intros limit; cbn [sql_limit].
  - now rewrite firstn_nil.
  - destruct (limit <=? 0)%Z eqn:E.
    + apply Z.leb_le in E. now replace (Z.to_nat limit) with 0 by lia.
    + apply Z.leb_gt in E.
      replace (Z.to_nat limit) with (S (Z.to_nat (limit - 1))) by lia.
      cbn [firstn]. f_equal. apply IH.
Qed.

(** The page as a slice of the rows. *)
Lemma limit_offset_eq {A} (limit offset : Z) (rows : list A) :
  limit_offset limit offset rows
  = if (limit <? 0)%Z then skipn (Z.to_nat offset) rows
    else firstn (Z.to_nat limit) (skipn (Z.to_nat offset) rows).
Proof.
  unfold limit_offset. rewrite sql_offset_skipn.
  destruct (limit <? 0)%Z; [reflexivity | apply sql_limit_firstn].
Qed.


Lemma get_all_bookmarks_eq fuel db folder_id tag_id search sort_by sort_order
  include_subfolders page per_page ids :
  scope_folder_ids fuel db folder_id include_subfolders = Ok ids ->
  fits_int64 per_page = true -> fits_int64 ((page - 1) * per_page) = true ->
  per_page <> 0%Z ->
  get_all_bookmarks fuel db folder_id tag_id search sort_by sort_order
    include_subfolders page per_page
  = Ok (mk_page
          (map (view_of db)
             (limit_offset per_page ((page - 1) * per_page)
                (sql_select db (query_clauses folder_id tag_id search ids)
                   (sort_column_of sort_by) (sort_direction_of sort_order))))
          (sql_count db (query_clauses folder_id tag_id search ids))
          page per_page
          ((sql_count db (query_clauses folder_id tag_id search ids)
            + per_page - 1) / per_page)).
Proof.
  intros Hscope Hl Ho Hpp. unfold get_all_bookmarks. rewrite Hscope.
  cbn [bind]. rewrite Hl, Ho. cbn [andb negb].
  apply Z.eqb_neq in Hpp. rewrite Hpp. reflexivity.
Qed.

(** What a call that returns has computed. *)
Lemma get_all_bookmarks_Ok fuel db folder_id tag_id search sort_by sort_order
  include_subfolders page per_page r :
  get_all_bookmarks fuel db folder_id tag_id search sort_by sort_order
    include_subfolders page per_page = Ok r ->
  exists ids,
    scope_folder_ids fuel db folder_id include_subfolders = Ok ids /\
    r = mk_page
          (map (view_of db)
             (limit_offset per_page ((page - 1) * per_page)
                (sql_select db (query_clauses folder_id tag_id search ids)
                   (sort_column_of sort_by) (sort_direction_of sort_order))))
          (sql_count db (query_clauses folder_id tag_id search ids))
          page per_page
          ((sql_count db (query_clauses folder_id tag_id search ids)
            + per_page - 1) / per_page).
Proof.
  unfold get_all_bookmarks. intros H.
  destruct (scope_folder_ids fuel db folder_id include_subfolders)
    as [ids|e]; [|discriminate].
  cbn [bind] in H.
  destruct (negb (fits_int64 per_page && fits_int64 ((page - 1) * per_page)));
    [discriminate|].
  destruct (per_page =? 0)%Z; [discriminate|].
  injection H as <-. exists ids. split; reflexivity.
Qed.

(** The unlimited page: [LIMIT -1 OFFSET 0]. *)
Lemma get_all_bookmarks_unlimited fuel db folder_id tag_id search sort_by
  sort_order include_subfolders ids :
  scope_folder_ids fuel db folder_id include_subfolders = Ok ids ->
  get_all_bookmarks fuel db folder_id tag_id search sort_by sort_order
    include_subfolders 1 (-1)
  = Ok (mk_page
          (map (view_of db)
             (sql_select db (query_clauses folder_id tag_id search ids)
                (sort_column_of sort_by) (sort_direction_of sort_order)))
          (sql_count db (query_clauses folder_id tag_id search ids))
          1 (-1)
          ((sql_count db (query_clauses folder_id tag_id search ids)
            + -1 - 1) / -1)).
Proof.
  intros Hscope.
  rewrite (get_all_bookmarks_eq fuel db folder_id tag_id search sort_by
             sort_order include_subfolders 1 (-1) ids Hscope)
    by (reflexivity || discriminate).
  now rewrite limit_offset_eq.
Qed.

Lemma map_v_row_view db rows : map v_row (map (view_of db) rows) = rows.
Proof.
  rewrite map_map. simpl. induction rows; simpl; congruence.
Qed.

Lemma filter_perm {A} (f : A -> bool) (l l' : list A) :
  Permutation l l' -> Permutation (filter f l) (filter f l').
Proof.
  induction 1 as [|x l l' _ IH|x y l|l l' l'' _ IH1 _ IH2]; simpl.
  - constructor.
  - destruct (f x); [now constructor | assumption].
  - destruct (f x), (f y); try reflexivity. apply perm_swap.
  - now transitivity (filter f l').
Qed.

Lemma bookmarks_by_id_perm db : Permutation (bookmarks_by_id db) (bookmarks db).
Proof. apply stable_sort_perm. Qed.

(** The rows of the query without its [LIMIT] are the selected
    bookmarks. *)
Lemma sql_select_perm db clauses c d :
  Permutation (sql_select db clauses c d)
    (filter (eval_where db clauses) (bookmarks db)).
Proof.
  unfold sql_select. rewrite stable_sort_perm.
  apply filter_perm, bookmarks_by_id_perm.
Qed.




(** Beyond 64 bits the call raises: page [10^18] of 25 rows. *)
Example get_all_bookmarks_offset_too_large :
  get_all_bookmarks 5 sample_db None None None "created_at" "desc" true
    (10 ^ 18) 25
  = Raise IntegrityError.
Proof. reflexivity. Qed.

(** *** Ordering *)

Lemma string_leb_trans (a b c : string) :
  String.leb a b = true -> String.leb b c = true -> String.leb a c = true.
Proof.
  unfold String.leb. intros Hab Hbc.
  destruct (String.compare a b) eqn:Eab; try discriminate;
    destruct (String.compare b c) eqn:Ebc; try discriminate.
  - apply String.compare_eq_iff in Eab, Ebc. subst.
    pose proof (proj2 (String_as_OT.cmp_eq c c) eq_refl) as H.
    unfold String_as_OT.cmp in H. now rewrite H.
  - apply String.compare_eq_iff in Eab. subst. now rewrite Ebc.
  - apply String.compare_eq_iff in Ebc. subst. now rewrite Eab.
  - apply String_as_OT.cmp_lt in Eab, Ebc.
    assert (H : String_as_OT.cmp a c = Lt)
      by (apply String_as_OT.cmp_lt; eapply String_as_OT.lt_trans; eassumption).
    unfold String_as_OT.cmp in H. now rewrite H.
Qed.

Lemma string_leb_total (a b : string) :
  String.leb a b = false -> String.leb b a = true.
Proof.
  intros H. destruct (String.leb_total a b) as [E|E]; congruence.
Qed.

Lemma order_le_total c d a b :
  order_le c d a b = false -> order_le c d b a = true.
Proof.
  unfold order_le.
  destruct (b_pinned b <? b_pinned a)%Z eqn:E1; [discriminate|].
  destruct (b_pinned a <? b_pinned b)%Z eqn:E2; [reflexivity|].
  destruct d; apply string_leb_total.
Qed.

Lemma order_le_trans c d x y z :
  order_le c d x y = true -> order_le c d y z = true ->
  order_le c d x z = true.
Proof.
  unfold order_le.
  destruct (b_pinned y <? b_pinned x)%Z eqn:E1;
    destruct (b_pinned x <? b_pinned y)%Z eqn:E2;
    destruct (b_pinned z <? b_pinned y)%Z eqn:E3;
    destruct (b_pinned y <? b_pinned z)%Z eqn:E4;
    destruct (b_pinned z <? b_pinned x)%Z eqn:E5;
    destruct (b_pinned x <? b_pinned z)%Z eqn:E6;
    try discriminate; try reflexivity;
    rewrite ?Z.ltb_lt, ?Z.ltb_ge in *; try lia.
  destruct d; intros H1 H2; eapply string_leb_trans; eassumption.
Qed.

(** Insertion into a sorted list keeps it sorted when the order is total
    and transitive. *)
Lemma insert_sorted_sorted {A} (le : A -> A -> bool)
  (Htotal : forall a b, le a b = false -> le b a = true)
  (Htrans : forall a b c, le a b = true -> le b c = true -> le a c = true)
  x l :
  StronglySorted (fun a b => le a b = true) l ->
  StronglySorted (fun a b => le a b = true) (insert_sorted le x l).
Proof.
  induction 1 as [|y l Hl IH Hy]; simpl.
  - constructor; constructor.
  - destruct (le x y) eqn:E.
    + constructor; [now constructor|]. constructor; [assumption|].
      eapply Forall_impl; [|exact Hy]. intros z Hz. eapply Htrans; eassumption.
    + constructor; [assumption|].
      assert (Hperm : Permutation (insert_sorted le x l) (x :: l))
        by apply insert_sorted_perm.
      apply Forall_forall. intros z Hz.
      eapply Permutation_in in Hz; [|exact Hperm].
      destruct Hz as [<-|Hz]; [now apply Htotal|].
      rewrite Forall_forall in Hy. now apply Hy.
Qed.

Lemma stable_sort_sorted {A} (le : A -> A -> bool)
  (Htotal : forall a b, le a b = false -> le b a = true)
  (Htrans : forall a b c, le a b = true -> le b c = true -> le a c = true)
  l :
  StronglySorted (fun a b => le a b = true) (stable_sort le l).
Proof.
  induction l as [|x l IH]; simpl; [constructor|].
  now apply insert_sorted_sorted.
Qed.

Lemma StronglySorted_skipn {A} (R : A -> A -> Prop) n l :
  StronglySorted R l -> StronglySorted R (skipn n l).
Proof.
  revert l. induction n as [|n IH]; intros l H; [assumption|].
  destruct l as [|x l]; [assumption|]. simpl.
  apply IH. now inversion H.
Qed.

Lemma StronglySorted_firstn {A} (R : A -> A -> Prop) n l :
  StronglySorted R l -> StronglySorted R (firstn n l).
Proof.
  revert l. induction n as [|n IH]; intros l H; [constructor|].
  destruct l as [|x l]; [constructor|]. simpl.
  inversion H as [|? ? Hl Hx]; subst. constructor; [now apply IH|].
  apply Forall_forall. intros y Hy. rewrite Forall_forall in Hx.
  apply Hx. rewrite <- (firstn_skipn n l). apply in_or_app. now left.
Qed.

Lemma StronglySorted_pair {A} (R : A -> A -> Prop) l1 a l2 b l3 :
  StronglySorted R (l1 ++ a :: l2 ++ b :: l3) -> R a b.
Proof.
  induction l1 as [|x l1 IH]; simpl; intros H.
  - apply StronglySorted_inv in H as [_ H]. rewrite Forall_forall in H.
    apply H. apply in_or_app. right. now left.
  - apply StronglySorted_inv in H as [H _]. now apply IH.
Qed.

Lemma limit_offset_sorted {A} (R : A -> A -> Prop) limit offset l :
  StronglySorted R l -> StronglySorted R (limit_offset limit offset l).
Proof.
  intros H. rewrite limit_offset_eq. destruct (limit <? 0)%Z.
  - now apply StronglySorted_skipn.
  - now apply StronglySorted_firstn, StronglySorted_skipn.
Qed.

Lemma limit_offset_incl {A} limit offset (l : list A) :
  incl (limit_offset limit offset l) l.
Proof.
  intros x Hx. rewrite limit_offset_eq in Hx.
  assert (Hskip : forall y, In y (skipn (Z.to_nat offset) l) -> In y l).
  { intros y Hy. rewrite <- (firstn_skipn (Z.to_nat offset) l).
    apply in_or_app. now right. }
  destruct (limit <? 0)%Z; [now apply Hskip|].
  apply Hskip.
  rewrite <- (firstn_skipn (Z.to_nat limit) (skipn (Z.to_nat offset) l)).
  apply in_or_app. now left.
Qed.

Lemma sql_select_In db clauses c d b :
  In b (sql_select db clauses c d) <->
  In b (bookmarks db) /\ eval_where db clauses b = true.
Proof.
  rewrite <- filter_In. split; intros H.
  - eapply Permutation_in; [apply sql_select_perm | exact H].
  - eapply Permutation_in; [apply Permutation_sym, sql_select_perm | exact H].
Qed.

Lemma column_value_spec sort_by b :
  column_value (sort_column_of sort_by) b = spec_sort_key sort_by b.
Proof.
  unfold sort_column_of, valid_sorts, spec_sort_key.
  destruct (sort_by =? "title"); [reflexivity|].
  destruct (sort_by =? "url"); [reflexivity|].
  destruct (sort_by =? "created_at"); reflexivity.
Qed.

(** C6. In every list [get_all_bookmarks] returns, whatever the sort
    field and direction: no unpinned bookmark stands before a pinned one,
    and two bookmarks of the same group (both pinned or both unpinned)
    stand in the order of the requested field and direction, where an
    unrecognized field means the creation time. *)
Theorem get_all_bookmarks_pinned_first
  (fuel : nat) (db : database) (folder_id tag_id search : option string)
  (sort_by sort_order : string) (include_subfolders : bool)
  (page per_page : Z) (r : page_result) :
  pinned_ok db ->
  get_all_bookmarks fuel db folder_id tag_id search sort_by sort_order
    include_subfolders page per_page = Ok r ->
  forall l1 a l2 b l3,
    map v_row (r_bookmarks r) = l1 ++ a :: l2 ++ b :: l3 ->
    (is_pinned b -> is_pinned a) /\
    ((is_pinned a <-> is_pinned b) ->
     spec_in_order sort_order (spec_sort_key sort_by a)
       (spec_sort_key sort_by b)).
Proof.
  intros Hpin Hrun.
  apply get_all_bookmarks_Ok in Hrun as (ids & _ & ->).
  cbn [r_bookmarks]. rewrite map_v_row_view.
  set (clauses := query_clauses folder_id tag_id search ids).
  set (c := sort_column_of sort_by). set (d := sort_direction_of sort_order).
  intros l1 a l2 b l3 Hrows.
  assert (Hsorted : StronglySorted (fun x y => order_le c d x y = true)
                      (l1 ++ a :: l2 ++ b :: l3)).
  { rewrite <- Hrows. apply limit_offset_sorted. unfold sql_select.
    apply stable_sort_sorted;
      [apply order_le_total | apply order_le_trans]. }
  apply StronglySorted_pair in Hsorted.
  assert (Hin : forall x, In x (l1 ++ a :: l2 ++ b :: l3) ->
                          b_pinned x = 0%Z \/ b_pinned x = 1%Z).
  { intros x Hx. apply Hpin. rewrite <- Hrows in Hx.
    apply limit_offset_incl in Hx. now apply sql_select_In in Hx. }
  assert (Ha : b_pinned a = 0%Z \/ b_pinned a = 1%Z).
  { apply Hin. apply in_or_app. right. now left. }
  assert (Hb : b_pinned b = 0%Z \/ b_pinned b = 1%Z).
  { apply Hin. apply in_or_app. right. right. apply in_or_app. right. now left. }
  unfold order_le in Hsorted. unfold is_pinned.
  destruct (b_pinned b <? b_pinned a)%Z eqn:E1.
  - apply Z.ltb_lt in E1. split; [lia|]. intros Hiff. exfalso. lia.
  - destruct (b_pinned a <? b_pinned b)%Z eqn:E2; [discriminate|].
    apply Z.ltb_ge in E1, E2. split; [lia|]. intros _.
    unfold spec_in_order. subst c d. rewrite !column_value_spec in Hsorted.
    unfold sort_direction_of in Hsorted.
    destruct (sort_order =? "asc"); assumption.
Qed.

Lemma pinned_ok_sample_db : pinned_ok sample_db.
Proof.
  intros b Hb. simpl in Hb.
  destruct Hb as [<-|[<-|[<-|[]]]]; simpl; auto.
Qed.

(** The writers of [pinned] keep it at 0 or 1. *)
Lemma create_bookmark_pinned_ok uuid4 url title description folder_id tag_ids
  favicon db :
  pinned_ok db ->
  pinned_ok (snd (create_bookmark uuid4 url title description folder_id
                    tag_ids favicon db)).
Proof.
  intros Hok. unfold create_bookmark.
  destruct (mem _ _); [exact Hok|].
  destruct (insert_bookmark_tags _ _ _); [|exact Hok].
  intros b Hb. simpl in Hb. apply in_app_or in Hb as [Hb|[<-|[]]].
  - now apply Hok.
  - now left.
Qed.

Lemma toggle_pin_pinned_ok bookmark_id db :
  pinned_ok db -> pinned_ok (snd (toggle_pin bookmark_id db)).
Proof.
  intros Hok. unfold toggle_pin.
  destruct (filter _ (bookmarks db)) as [|bookmark found]; [exact Hok|].
  intros b Hb. simpl in Hb. apply in_map_iff in Hb as (b0 & <- & Hb0).
  destruct (b_id b0 =? bookmark_id); [|now apply Hok].
  simpl. destruct (b_pinned bookmark =? 0)%Z; auto.
Qed.

Lemma get_all_bookmarks_pinned_first_witness :
  exists r,
    get_all_bookmarks 5 sample_db None None None "title" "desc" true 1 25
      = Ok r /\
    forall l1 a l2 b l3,
      map v_row (r_bookmarks r) = l1 ++ a :: l2 ++ b :: l3 ->
      (is_pinned b -> is_pinned a) /\
      ((is_pinned a <-> is_pinned b) ->
       spec_in_order "desc" (spec_sort_key "title" a) (spec_sort_key "title" b)).
Proof.
  eexists. split; [reflexivity|].
  apply (get_all_bookmarks_pinned_first 5 sample_db None None None
           "title" "desc" true 1 25).
  - exact pinned_ok_sample_db.
  - reflexivity.
Defined.

(** The scenario of the specification: the pinned bookmark comes first
    under the default sort. *)
Example pinned_bookmark_comes_first :
  exists r,
    get_all_bookmarks 5 sample_db None None None "created_at" "desc" true 1 25
      = Ok r /\
    map (fun v => b_id (v_row v)) (r_bookmarks r) = ["b-copy"; "b-happy"; "b-py"].
Proof. eexists. split; reflexivity. Qed.

(** Bookmarks that compare equal come in the order of their ids, and the
    tags of a bookmark in the order of the tag ids. *)
Example equal_rows_come_by_id :
  exists r,
    get_all_bookmarks 5 tie_db None None None "title" "asc" true 1 25 = Ok r /\
    map (fun v => (b_id (v_row v), v_tag_names v, v_tag_ids v)) (r_bookmarks r)
    = [("b-1", None, None); ("b-2", Some "alpha,zeta", Some "t-1,t-2")] /\
    map (fun x => (b_id (fst x), snd x)) (export_bookmarks tie_db)
    = [("b-1", None); ("b-2", Some "alpha,zeta")] /\
    select_bookmark_tags tie_db "b-2" = [("t-1", "alpha"); ("t-2", "zeta")].
Proof. eexists. repeat split. Qed.

(** *** Search *)








(** The scenario of the specification: "py" finds "Python", "Copy" and
    "Happy". *)
Example search_py_matches_all_three :
  exists r,
    get_all_bookmarks 5 sample_db None None (Some "py") "title" "asc" true 1 25
      = Ok r /\
    map (fun v => b_title (v_row v)) (r_bookmarks r)
      = ["Copy"; "Happy"; "Python"].
Proof. eexists. split; reflexivity. Qed.


(** ** Import *)

Lemma process_container_special uuid4 fav fuel n_guid n_title n_uri annos tags
  children parent st :
  In (match n_guid with Some g => g | None => "" end) special_guids ->
  process_container uuid4 fav (S fuel)
    (mk_node (Some place_container) n_guid n_title n_uri annos tags children)
    parent st
  = process_each uuid4 fav fuel children parent st.
Proof.
  intros Hg. apply mem_In in Hg. cbn [process_container].
  change (opt_eqb (Some place_container) place_container) with true.
  cbv iota. now rewrite Hg.
Qed.

Lemma process_container_skipped uuid4 fav fuel n_guid n_title n_uri annos tags
  children parent st :
  ~ In (match n_guid with Some g => g | None => "" end) special_guids ->
  n_title = Text "" \/ n_title = Null ->
  process_container uuid4 fav (S fuel)
    (mk_node (Some place_container) n_guid n_title n_uri annos tags children)
    parent st
  = (Ok tt, st).
Proof.
  intros Hg Ht. cbn [process_container].
  change (opt_eqb (Some place_container) place_container) with true.
  cbv iota.
  destruct (mem (match n_guid with Some g => g | None => "" end) special_guids)
    eqn:E; [apply mem_In in E; contradiction|].
  destruct Ht as [-> | ->]; reflexivity.
Qed.

Lemma process_container_folder uuid4 fav fuel n_guid n_title n_uri annos tags
  children parent st title :
  let folder_id := uuid4 (uuid_draws (i_db st)) in
  ~ In (match n_guid with Some g => g | None => "" end) special_guids ->
  get_text n_title (Some "Untitled Folder") = Some title ->
  title <> "" ->
  ~ In folder_id (folder_ids (i_db st)) ->
  process_container uuid4 fav (S fuel)
    (mk_node (Some place_container) n_guid n_title n_uri annos tags children)
    parent st
  = process_each uuid4 fav fuel children (Some folder_id)
      (folder_created n_guid folder_id title parent st).
Proof.
  intros folder_id Hg Hget Ht Hfresh. cbn [process_container].
  change (opt_eqb (Some place_container) place_container) with true.
  cbv iota.
  destruct (mem (match n_guid with Some g => g | None => "" end) special_guids)
    eqn:E; [apply mem_In in E; contradiction|].
  rewrite Hget. unfold str_truthy. apply String.eqb_neq in Ht. rewrite Ht.
  cbn [negb]. unfold create_folder. fold folder_id.
  destruct (mem folder_id (folder_ids (tick_uuid (i_db st)))) eqn:Em.
  { apply mem_In in Em. contradiction. }
  reflexivity.
Qed.

(** C4, as amended. A container whose guid is one of the five special
    identifiers creates no folder and has its children imported into the
    current scope.  Any other container whose title is the empty text or
    null is skipped, children included; one whose title is a text that is
    not empty, or that has no title field, becomes a new folder of the
    current scope, named by its title or "Untitled Folder" respectively,
    and its children are imported into that folder.  Importing a toolbar
    container that holds one bookmark leaf with a URL gives one bookmark
    and no folder.  (The recursion budget is [S fuel] for the container
    and [fuel] for each of its children.) *)
Theorem import_container_cases
  (uuid4 : nat -> string) (fav : string -> option string) (fuel : nat)
  (n_guid : option string) (n_title : json_text) (n_uri : option string)
  (annos : list anno) (tags : option tags_value) (children : list node)
  (parent : option string) (st : import_state) :
  let this :=
    mk_node (Some place_container) n_guid n_title n_uri annos tags children in
  let guid := match n_guid with Some g => g | None => "" end in
  let folder_id := uuid4 (uuid_draws (i_db st)) in
  ~ In folder_id (folder_ids (i_db st)) ->
  (In guid special_guids ->
   process_container uuid4 fav (S fuel) this parent st
   = process_each uuid4 fav fuel children parent st) /\
  (~ In guid special_guids -> n_title = Text "" \/ n_title = Null ->
   process_container uuid4 fav (S fuel) this parent st = (Ok tt, st)) /\
  (~ In guid special_guids ->
   forall title,
     (n_title = Text title /\ title <> "") \/
     (n_title = Absent /\ title = "Untitled Folder") ->
     process_container uuid4 fav (S fuel) this parent st
     = process_each uuid4 fav fuel children (Some folder_id)
         (folder_created n_guid folder_id title parent st)) /\
  (forall url t now, url <> "" ->
     fst (import_from_firefox_json uuid4 fav (S (S fuel))
            (container (Some "toolbar_____") None
               [leaf None t url [] None])
            (init_db now))
     = Ok (mk_stats 1 0 0)).
Proof.
  intros this guid folder_id Hfresh. split; [|split; [|split]].
  - intros Hg. now apply process_container_special.
  - intros Hg Ht. now apply process_container_skipped.
  - intros Hg title Ht. apply process_container_folder; try assumption.
    + destruct Ht as [[-> _] | [-> ->]]; reflexivity.
    + destruct Ht as [[_ Ht] | [_ ->]]; [assumption | discriminate].
  - intros url t now Hurl. apply String.eqb_neq in Hurl.
    unfold import_from_firefox_json, container, leaf.
    cbn [process_container]. cbn. unfold str_truthy. rewrite Hurl. cbn.
    reflexivity.
Qed.

Lemma import_container_cases_witness :
  let st := mk_import sample_db (mk_stats 0 0 0) [] in
  let children := [leaf None "X" "https://x.com" [] None] in
  process_container sample_uuid4 no_favicon 2
    (container (Some "some-guid") None children) (Some "f-work") st
  = process_each sample_uuid4 no_favicon 1 children (Some "a-uuid")
      (folder_created (Some "some-guid") "a-uuid" "Untitled Folder"
         (Some "f-work") st).
Proof.
  intros st children.
  apply (import_container_cases sample_uuid4 no_favicon 1 (Some "some-guid")
           Absent None [] None children (Some "f-work") st).
  - simpl. intuition discriminate.
  - simpl. intuition discriminate.
  - right. split; reflexivity.
Defined.

(** C4, as stated, fails: a container that has no title is not skipped but
    imported as "Untitled Folder", children included. *)
Lemma import_container_without_title :
  import_from_firefox_json sample_uuid4 no_favicon 1000
    (container (Some "some-guid") None
       [leaf None "X" "https://x.com" [] None])
    (init_db "2024-01-01 10:00:00")
  = (Ok (mk_stats 1 1 0),
     {| folders :=
          [mk_folder "a-uuid" "Untitled Folder" None "2024-01-01 10:00:00"];
        tags := [];
        bookmarks :=
          [mk_bookmark "b-uuid" "https://x.com" "X" (Some "") None
             (Some "a-uuid") 0 "2024-01-01 10:00:00"];
        bookmark_tags := [];
        current_timestamp := "2024-01-01 10:00:00";
        uuid_draws := 2 |}).
Proof. reflexivity. Qed.

(** The scenario of the specification on the sample identifiers. *)
Example import_toolbar_scenario :
  fst (import_from_firefox_json sample_uuid4 no_favicon 1000
         (container (Some "toolbar_____") None
            [leaf None "X" "https://x.com" [] None])
         (init_db "2024-01-01 10:00:00"))
  = Ok (mk_stats 1 0 0).
Proof. reflexivity. Qed.

(** A title that is null: the container is skipped with its children,
    and a bookmark leaf is refused by [title TEXT NOT NULL]. *)
Example import_null_titles :
  import_from_firefox_json sample_uuid4 no_favicon 1000
    (mk_node (Some place_container) (Some "some-guid") Null None [] None
       [leaf None "X" "https://x.com" [] None])
    (init_db "2024-01-01 10:00:00")
  = (Ok (mk_stats 0 0 0), init_db "2024-01-01 10:00:00") /\
  fst (import_from_firefox_json sample_uuid4 no_favicon 1000
         (mk_node (Some place) None Null (Some "https://x.com") [] None [])
         (init_db "2024-01-01 10:00:00"))
  = Raise IntegrityError.
Proof. split; reflexivity. Qed.

(** ** Export *)

(** C3, evaluated.  The export attaches a folder only to a parent whose
    row was read before its own: "Alpha", a subfolder of "Beta", is read
    first (rows come ordered by name) and is left out together with its
    bookmark, while the same tree with the two names exchanged is exported
    in full.  A folder whose parent matches no stored folder ("Lost" in
    [orphan_db]) is left out as well, not placed under the toolbar. *)
Theorem export_drops_folders_read_before_their_parent :
  read_export 5 (export_to_firefox_json nested_db)
  = Ok (container (Some "root________") (Some "")
          [container (Some "toolbar_____") (Some "Bookmarks Toolbar")
             [container (Some "f-beta") (Some "Beta") []]]) /\
  read_export 5 (export_to_firefox_json nested_db_renamed)
  = Ok (container (Some "root________") (Some "")
          [container (Some "toolbar_____") (Some "Bookmarks Toolbar")
             [container (Some "f-beta") (Some "Alpha")
                [container (Some "f-alpha") (Some "Beta")
                   [leaf (Some "b-a") "A" "https://a.example" [] None]]]]) /\
  read_export 5 (export_to_firefox_json orphan_db)
  = Ok (container (Some "root________") (Some "")
          [container (Some "toolbar_____") (Some "Bookmarks Toolbar")
             [container (Some "f-work") (Some "Work") []]]).
Proof. repeat split. Qed.

(** ** The round trip through the exchange format *)

(** *** Tag names as a set *)

Lemma string_leb_antisym (a b : string) :
  String.leb a b = true -> String.leb b a = true -> a = b.
Proof.
  unfold String.leb. intros H1 H2.
  destruct (String.compare a b) eqn:E; try discriminate.
  - now apply String.compare_eq_iff.
  - rewrite String.compare_antisym, E in H2. discriminate.
Qed.

Lemma sorted_perm_eq (l1 l2 : list string) :
  StronglySorted (fun a b => String.leb a b = true) l1 ->
  StronglySorted (fun a b => String.leb a b = true) l2 ->
  Permutation l1 l2 -> l1 = l2.
Proof.
  revert l2. induction l1 as [|x l1 IH]; intros l2 H1 H2 Hp.
  - apply Permutation_nil in Hp. now subst.
  - destruct l2 as [|y l2];
      [apply Permutation_sym, Permutation_nil in Hp; discriminate|].
    apply StronglySorted_inv in H1 as [H1 Hx].
    apply StronglySorted_inv in H2 as [H2 Hy].
    rewrite Forall_forall in Hx, Hy.
    assert (E : x = y).
    { assert (Hxin : In x (y :: l2))
        by (eapply Permutation_in; [exact Hp | now left]).
      assert (Hyin : In y (x :: l1))
        by (eapply Permutation_in; [apply Permutation_sym; exact Hp | now left]).
      destruct Hxin as [->|Hxin]; [reflexivity|].
      destruct Hyin as [->|Hyin]; [reflexivity|].
      apply string_leb_antisym; [now apply Hx | now apply Hy]. }
    subst y. f_equal. apply IH; try assumption.
    eapply Permutation_cons_inv; exact Hp.
Qed.

Lemma sort_names_sorted l :
  StronglySorted (fun a b => String.leb a b = true) (sort_names l).
Proof.
  apply stable_sort_sorted; [apply string_leb_total | apply string_leb_trans].
Qed.

(** The sorted list of names depends on the names only, not on their
    order. *)
Lemma sort_names_perm l l' : Permutation l l' -> sort_names l = sort_names l'.
Proof.
  intros H. apply sorted_perm_eq; try apply sort_names_sorted.
  unfold sort_names. now rewrite !stable_sort_perm.
Qed.

Lemma sort_names_names l : Permutation (sort_names l) l.
Proof. apply stable_sort_perm. Qed.

(** Two lists have the same sorted list exactly when one is a
    rearrangement of the other. *)
Lemma sort_names_eq_iff l l' :
  sort_names l = sort_names l' <-> Permutation l l'.
Proof.
  split; [|apply sort_names_perm]. intros E.
  rewrite <- (sort_names_names l), E. apply sort_names_names.
Qed.

(** *** The tags of a bookmark *)

Lemma bookmark_tag_ids_perm db bid :
  Permutation (bookmark_tag_ids db bid)
    (map snd (filter (fun bt => fst bt =? bid) (bookmark_tags db))).
Proof. apply stable_sort_perm. Qed.

Lemma bookmark_tag_ids_In db bid tid :
  In tid (bookmark_tag_ids db bid) <-> In (bid, tid) (bookmark_tags db).
Proof.
  split; intros H.
  - eapply Permutation_in in H; [|apply bookmark_tag_ids_perm].
    apply in_map_iff in H as ([a c] & E & H). simpl in E. subst c.
    apply filter_In in H as [H E]. apply String.eqb_eq in E. simpl in E.
    now subst a.
  - eapply Permutation_in; [apply Permutation_sym, bookmark_tag_ids_perm|].
    apply in_map_iff. exists (bid, tid). split; [reflexivity|].
    apply filter_In. split; [assumption | apply String.eqb_refl].
Qed.

(** The joined tags of a bookmark are the stored tags its association
    rows name. *)
Lemma joined_tags_spec db b t :
  In t (joined_tags db b) <->
  In t (tags db) /\ In (b_id b, t_id t) (bookmark_tags db).
Proof.
  unfold joined_tags. rewrite in_flat_map. split.
  - intros (tid & Htid & Ht). apply filter_In in Ht as [Ht E].
    apply String.eqb_eq in E. subst tid.
    split; [assumption | now apply bookmark_tag_ids_In].
  - intros [Ht Hbt]. exists (t_id t). split; [now apply bookmark_tag_ids_In|].
    apply filter_In. split; [assumption | apply String.eqb_refl].
Qed.

Lemma joined_tags_in db b t : In t (joined_tags db b) -> In t (tags db).
Proof. intros H. now apply joined_tags_spec in H. Qed.

(** *** Importing a well-formed document *)

Section ImportCorrect.

Variable uuid4 : nat -> string.
Variable fav : string -> option string.
Hypothesis uuid4_inj : forall i j, uuid4 i = uuid4 j -> i = j.

Lemma fresh_not_drawn db : ~ drawn uuid4 db (uuid4 (uuid_draws db)).
Proof.
  intros (k & Hk & E). apply uuid4_inj in E. lia.
Qed.

Lemma drawn_mono db db' x :
  uuid_draws db <= uuid_draws db' -> drawn uuid4 db x -> drawn uuid4 db' x.
Proof.
  intros Hle (k & Hk & E). exists k. split; [lia | assumption].
Qed.

Lemma drawn_tick db : drawn uuid4 (tick_uuid db) (uuid4 (uuid_draws db)).
Proof. exists (uuid_draws db). simpl. split; [lia | reflexivity]. Qed.

Lemma filter_by_id_unique (ts : list tag_row) (t : tag_row) :
  NoDup (map t_id ts) -> In t ts ->
  filter (fun x => t_id x =? t_id t) ts = [t].
Proof.
  induction ts as [|x ts IH]; intros Hnd Hin; [destruct Hin|].
  simpl in Hnd. inversion Hnd as [|? ? Hx Hts]; subst. simpl.
  destruct Hin as [->|Hin].
  - rewrite String.eqb_refl. f_equal.
    clear - Hx. induction ts as [|y ts IH]; [reflexivity|]. simpl.
    destruct (t_id y =? t_id t) eqn:E.
    + apply String.eqb_eq in E. exfalso. apply Hx. left. assumption.
    + apply IH. intros H. apply Hx. now right.
  - destruct (t_id x =? t_id t) eqn:E.
    + apply String.eqb_eq in E. exfalso. apply Hx. rewrite E. now apply in_map.
    + now apply IH.
Qed.

Lemma filter_none {A} (f : A -> bool) (l : list A) :
  (forall x, In x l -> f x = false) -> filter f l = [].
Proof.
  induction l as [|x l IH]; intros H; [reflexivity|]. simpl.
  rewrite (H x (or_introl eq_refl)). apply IH. intros y Hy. apply H. now right.
Qed.

Lemma flat_map_ext_in {A B} (f g : A -> list B) (l : list A) :
  (forall x, In x l -> f x = g x) -> flat_map f l = flat_map g l.
Proof.
  induction l as [|x l IH]; intros H; [reflexivity|]. simpl.
  rewrite (H x (or_introl eq_refl)). f_equal. apply IH.
  intros y Hy. apply H. now right.
Qed.

Lemma flat_map_none {A B} (f : A -> list B) (l : list A) :
  (forall x, In x l -> f x = []) -> flat_map f l = [].
Proof.
  induction l as [|x l IH]; intros H; [reflexivity|]. simpl.
  rewrite (H x (or_introl eq_refl)). apply IH. intros y Hy. apply H. now right.
Qed.

(** The loop over the tag names finds or creates a tag for every name
    that is not blank. *)
Lemma import_tags_ok :
  forall raw acc st,
    import_ok uuid4 (i_db st) ->
    exists st' ids new_tags,
      import_tags uuid4 raw acc st = (Ok (acc ++ ids), st') /\
      import_ok uuid4 (i_db st') /\
      folders (i_db st') = folders (i_db st) /\
      bookmarks (i_db st') = bookmarks (i_db st) /\
      bookmark_tags (i_db st') = bookmark_tags (i_db st) /\
      tags (i_db st') = tags (i_db st) ++ new_tags /\
      uuid_draws (i_db st) <= uuid_draws (i_db st') /\
      (forall t, In t new_tags -> ~ drawn uuid4 (i_db st) (t_id t)) /\
      Forall2 (fun id name =>
                 exists t, In t (tags (i_db st')) /\ t_id t = id /\
                           t_name t = name)
        ids (filter str_truthy (map strip raw)).
Proof.
  induction raw as [|name raw IH]; intros acc st Hok.
  - exists st, [], []. simpl. rewrite !app_nil_r.
    split; [reflexivity|]. split; [assumption|].
    do 4 (split; [reflexivity|]). split; [lia|].
    split; [intros t []|constructor].
  - cbn [import_tags map filter].
    destruct (str_truthy (strip name)) eqn:Htr.
    + destruct (filter (fun t => t_name t =? strip name) (tags (i_db st)))
        as [|tag found] eqn:Hfind.
      * (* a new tag *)
        unfold create_tag.
        set (tag_id := uuid4 (uuid_draws (i_db st))).
        assert (Hnew_id : mem tag_id (map t_id (tags (tick_uuid (i_db st)))) = false).
        { destruct (mem tag_id (map t_id (tags (tick_uuid (i_db st))))) eqn:E;
            [|reflexivity].
          apply mem_In in E. simpl in E. apply in_map_iff in E as (t & Et & Ht).
          destruct Hok as (_ & _ & Htags & _).
          exfalso. apply (fresh_not_drawn (i_db st)). fold tag_id.
          rewrite <- Et. now apply Htags. }
        assert (Hnew_name : mem (strip name) (map t_name (tags (tick_uuid (i_db st)))) = false).
        { destruct (mem (strip name) (map t_name (tags (tick_uuid (i_db st))))) eqn:E;
            [|reflexivity].
          apply mem_In in E. simpl in E. apply in_map_iff in E as (t & Et & Ht).
          assert (Hin : In t (filter (fun t => t_name t =? strip name)
                                (tags (i_db st)))).
          { apply filter_In. split; [assumption|]. now apply String.eqb_eq. }
          rewrite Hfind in Hin. destruct Hin. }
        rewrite Hnew_id, Hnew_name. cbn [orb].
        set (st1 := mk_import
                      (set_tags (tick_uuid (i_db st))
                         (tags (tick_uuid (i_db st)) ++
                          [mk_tag tag_id (strip name)
                             (current_timestamp (tick_uuid (i_db st)))]))
                      (mk_stats (s_bookmarks (i_stats st))
                         (s_folders (i_stats st)) (S (s_tags (i_stats st))))
                      (i_folder_mapping st)).
        assert (Hok1 : import_ok uuid4 (i_db st1)).
        { destruct Hok as (H1 & H2 & H3 & H4 & H5 & H6 & H7).
          assert (Hm : forall x, drawn uuid4 (i_db st) x ->
                                 drawn uuid4 (i_db st1) x).
          { intros x. apply drawn_mono. simpl. lia. }
          unfold import_ok. simpl. repeat split.
          - intros r Hr. apply Hm. now apply H1.
          - intros b Hb. apply Hm. now apply H2.
          - intros t Ht. apply in_app_or in Ht as [Ht|[<-|[]]].
            + apply Hm. now apply H3.
            + apply (drawn_tick (i_db st)).
          - apply Hm. now apply H4.
          - apply Hm. now apply H4.
          - exact H5.
          - rewrite map_app. simpl. apply NoDup_app; [assumption | repeat constructor; intros [] |].
            intros a Ha [<-|[]]. apply mem_In in Ha. simpl in Hnew_id. congruence.
          - rewrite map_app. simpl. apply NoDup_app; [assumption | repeat constructor; intros [] |].
            intros a Ha [<-|[]]. apply mem_In in Ha. simpl in Hnew_name. congruence. }
        destruct (IH (acc ++ [tag_id]) st1 Hok1)
          as (st' & ids & new_tags & Hr & Hok' & Hf & Hb & Hbt & Ht & Hd & Hfresh & Hall).
        exists st', (tag_id :: ids),
          (mk_tag tag_id (strip name) (current_timestamp (i_db st)) :: new_tags).
        split. { rewrite Hr. now rewrite <- app_assoc. }
        split; [assumption|].
        split; [now rewrite Hf|]. split; [now rewrite Hb|].
        split; [now rewrite Hbt|].
        split. { rewrite Ht. simpl. now rewrite <- app_assoc. }
        split. { simpl in Hd. lia. }
        split.
        { intros t [<-|Hin]; simpl.
          - apply fresh_not_drawn.
          - intros Hdr. apply (Hfresh t Hin). eapply drawn_mono; [|exact Hdr].
            simpl. lia. }
        constructor; [|assumption].
        exists (mk_tag tag_id (strip name) (current_timestamp (i_db st))).
        split; [|split; reflexivity].
        rewrite Ht. simpl. apply in_or_app. left. apply in_or_app. right. now left.
      * (* the tag exists *)
        destruct (IH (acc ++ [t_id tag]) st Hok)
          as (st' & ids & new_tags & Hr & Hok' & Hf & Hb & Hbt & Ht & Hd & Hfresh & Hall).
        exists st', (t_id tag :: ids), new_tags.
        split. { rewrite Hr. now rewrite <- app_assoc. }
        do 7 (split; [assumption|]).
        constructor; [|assumption].
        assert (Hin : In tag (filter (fun t => t_name t =? strip name)
                                (tags (i_db st)))) by (rewrite Hfind; now left).
        apply filter_In in Hin as [Hin Hname]. apply String.eqb_eq in Hname.
        exists tag. split; [|split; [reflexivity | assumption]].
        rewrite Ht. apply in_or_app. now left.
    + apply IH. assumption.
Qed.

Lemma insert_bookmark_tags_ok (bid : string) :
  forall ids done bt0,
    (forall x, In x bt0 -> fst x <> bid) ->
    NoDup (done ++ ids) ->
    insert_bookmark_tags bid ids (bt0 ++ map (pair bid) done)
    = Ok (bt0 ++ map (pair bid) (done ++ ids)).
Proof.
  induction ids as [|id ids IH]; intros done bt0 Hbt Hnd.
  - now rewrite app_nil_r.
  - cbn [insert_bookmark_tags].
    destruct (existsb (fun x => (fst x =? bid) && (snd x =? id))
                (bt0 ++ map (pair bid) done)) eqn:E.
    + exfalso. apply existsb_exists in E as (x & Hx & Hxe).
      apply andb_true_iff in Hxe as [E1 E2].
      apply String.eqb_eq in E1, E2.
      apply in_app_or in Hx as [Hx|Hx]; [now apply (Hbt x Hx)|].
      apply in_map_iff in Hx as (d & <- & Hd). simpl in E2. subst d.
      apply NoDup_remove_2 in Hnd. apply Hnd. apply in_or_app. now left.
    + replace ((bt0 ++ map (pair bid) done) ++ [(bid, id)])
        with (bt0 ++ map (pair bid) (done ++ [id]))
        by (rewrite map_app, app_assoc; reflexivity).
      rewrite IH; [now rewrite <- app_assoc | assumption |].
      now rewrite <- app_assoc.
Qed.

Lemma ids_of_distinct_names (ts : list tag_row) ids names :
  NoDup (map t_id ts) -> NoDup names ->
  Forall2 (fun id name =>
             exists t, In t ts /\ t_id t = id /\ t_name t = name) ids names ->
  NoDup ids.
Proof.
  intros Hts Hnames H. induction H as [|id name ids names Hhd Htl IH];
    [constructor|].
  inversion Hnames as [|? ? Hn Hnd]; subst.
  constructor; [|now apply IH].
  intros Hin. destruct (Forall2_In_l _ _ _ _ Htl Hin) as (name' & Hname' & t' & Ht' & Eid' & En').
  destruct Hhd as (t & Ht & Eid & En).
  assert (E : filter (fun x => t_id x =? t_id t) ts = [t])
    by (now apply filter_by_id_unique).
  assert (Hin' : In t' (filter (fun x => t_id x =? t_id t) ts)).
  { apply filter_In. split; [assumption|]. apply String.eqb_eq. congruence. }
  rewrite E in Hin'. destruct Hin' as [<-|[]]. apply Hn. congruence.
Qed.

(** The tags of a bookmark are unaffected by rows added for other
    bookmarks and by tags added under identifiers not yet drawn. *)
Lemma joined_tags_stable db db' b new_bt new_tags :
  bookmark_tags db' = bookmark_tags db ++ new_bt ->
  tags db' = tags db ++ new_tags ->
  (forall x, In x new_bt -> fst x <> b_id b) ->
  (forall x, In x (bookmark_tags db) -> drawn uuid4 db (snd x)) ->
  (forall t, In t new_tags -> ~ drawn uuid4 db (t_id t)) ->
  joined_tags db' b = joined_tags db b.
Proof.
  intros Hbt Ht Hnew Hold Hfresh.
  assert (Hids : bookmark_tag_ids db' (b_id b) = bookmark_tag_ids db (b_id b)).
  { unfold bookmark_tag_ids. rewrite Hbt, filter_app.
    rewrite (filter_none _ new_bt); [now rewrite app_nil_r|].
    intros x Hx. apply Hnew in Hx. now apply String.eqb_neq. }
  unfold joined_tags. rewrite Hids, Ht.
  apply flat_map_ext_in. intros tid Htid.
  rewrite filter_app. rewrite (filter_none _ new_tags); [apply app_nil_r|].
  intros t Hin. apply String.eqb_neq. intros E.
  apply (Hfresh t Hin). rewrite E.
  apply bookmark_tag_ids_In in Htid. now apply (Hold (b_id b, tid)).
Qed.

Lemma names_of_ids (ts : list tag_row) ids names :
  NoDup (map t_id ts) ->
  Forall2 (fun id name =>
             exists t, In t ts /\ t_id t = id /\ t_name t = name) ids names ->
  map t_name (flat_map (fun id => filter (fun x => t_id x =? id) ts) ids)
  = names.
Proof.
  intros Hts H. induction H as [|id name ids names (t & Ht & Eid & En) _ IH];
    [reflexivity|].
  simpl. rewrite map_app, IH. subst id.
  rewrite (filter_by_id_unique ts t Hts Ht). simpl. now subst name.
Qed.

(** Importing a bookmark leaf adds one bookmark of the shape of the
    leaf. *)
Lemma import_bookmark_ok n_title url annos n_tags scope st :
  n_title <> Null -> url <> "" -> NoDup (leaf_tag_names n_tags) ->
  import_ok uuid4 (i_db st) ->
  exists st' row,
    import_bookmark uuid4 fav n_title (Some url) annos n_tags scope st
    = (Ok tt, st') /\
    import_ok uuid4 (i_db st') /\
    folders (i_db st') = folders (i_db st) /\
    bookmarks (i_db st') = bookmarks (i_db st) ++ [row] /\
    bookmark_shape (i_db st') row
    = (url, text_of (get_text n_title (Some url)),
       find_description annos, sort_names (leaf_tag_names n_tags)) /\
    (forall b, In b (bookmarks (i_db st)) ->
               bookmark_shape (i_db st') b = bookmark_shape (i_db st) b).
Proof.
  intros Htitle Hurl Hnd Hok. unfold import_bookmark.
  apply String.eqb_neq in Hurl. unfold str_truthy at 1. rewrite Hurl.
  cbn [negb].
  assert (Hget : exists title, get_text n_title (Some url) = Some title).
  { destruct n_title as [| |t]; [now exists url | contradiction | now exists t]. }
  destruct Hget as (title & Hget). rewrite Hget.
  cbn [create_bookmark_titled text_of].
  (* the tags *)
  assert (Htag : exists st1 ids new_tags,
             match n_tags with
             | Some tags_str =>
                 if tags_truthy tags_str
                 then import_tags uuid4
                        match tags_str with
                        | TagsStr s => split_on "," s
                        | TagsList l => l
                        end [] st
                 else (Ok [], st)
             | None => (Ok [], st)
             end = (Ok ids, st1) /\
             import_ok uuid4 (i_db st1) /\
             folders (i_db st1) = folders (i_db st) /\
             bookmarks (i_db st1) = bookmarks (i_db st) /\
             bookmark_tags (i_db st1) = bookmark_tags (i_db st) /\
             tags (i_db st1) = tags (i_db st) ++ new_tags /\
             uuid_draws (i_db st) <= uuid_draws (i_db st1) /\
             (forall t, In t new_tags -> ~ drawn uuid4 (i_db st) (t_id t)) /\
             Forall2 (fun id name =>
                        exists t, In t (tags (i_db st1)) /\ t_id t = id /\
                                  t_name t = name)
               ids (leaf_tag_names n_tags)).
  { assert (Hnone : exists st1 ids new_tags,
               (@Ok (list string) [], st) = (Ok ids, st1) /\
               import_ok uuid4 (i_db st1) /\
               folders (i_db st1) = folders (i_db st) /\
               bookmarks (i_db st1) = bookmarks (i_db st) /\
               bookmark_tags (i_db st1) = bookmark_tags (i_db st) /\
               tags (i_db st1) = tags (i_db st) ++ new_tags /\
               uuid_draws (i_db st) <= uuid_draws (i_db st1) /\
               (forall t, In t new_tags -> ~ drawn uuid4 (i_db st) (t_id t)) /\
               Forall2 (fun id name =>
                          exists t, In t (tags (i_db st1)) /\ t_id t = id /\
                                    t_name t = name)
                 ids []).
    { exists st, [], []. rewrite app_nil_r.
      split; [reflexivity|]. split; [assumption|].
      do 4 (split; [reflexivity|]). split; [lia|].
      split; [intros t []|constructor]. }
    unfold leaf_tag_names. destruct n_tags as [tags_str|]; [|exact Hnone].
    destruct (tags_truthy tags_str); [|exact Hnone].
    apply (import_tags_ok _ [] st Hok). }
  destruct Htag as (st1 & ids & new_tags & Hr & Hok1 & Hf1 & Hb1 & Hbt1 & Ht1
                    & Hd1 & Hfresh & Hall).
  rewrite Hr.
  pose proof Hok1 as (I1 & I2 & I3 & I4 & I5 & I6 & I7).
  assert (Hids : NoDup ids)
    by exact (ids_of_distinct_names (tags (i_db st1)) ids
                (leaf_tag_names n_tags) I6 Hnd Hall).
  unfold create_bookmark.
  set (bid := uuid4 (uuid_draws (i_db st1))).
  assert (Hbid : forall x, drawn uuid4 (i_db st1) x -> x <> bid).
  { intros x Hx ->. now apply (fresh_not_drawn (i_db st1)). }
  destruct (mem bid (map b_id (bookmarks (tick_uuid (i_db st1))))) eqn:Em.
  { exfalso. apply mem_In in Em. simpl in Em.
    apply in_map_iff in Em as (b & Eb & Hb). apply (Hbid (b_id b)); auto. }
  assert (Hins : insert_bookmark_tags bid ids
                   (bookmark_tags (tick_uuid (i_db st1)))
                 = Ok (bookmark_tags (i_db st1) ++ map (pair bid) ids)).
  { pose proof (insert_bookmark_tags_ok bid ids [] (bookmark_tags (i_db st1)))
      as H. simpl in H. rewrite app_nil_r in H. apply H; [|assumption].
    intros x Hx. apply Hbid. now apply I4. }
  rewrite Hins.
  eexists. eexists. split; [reflexivity|]. cbn [i_db].
  split; [|split; [|split; [|split]]].
  - (* the invariant *)
    assert (Hm : forall x, drawn uuid4 (i_db st1) x ->
                           drawn uuid4 (tick_uuid (i_db st1)) x).
    { intros x. apply drawn_mono. simpl. lia. }
    unfold import_ok. simpl.
    split; [intros r Hr'; apply Hm; now apply I1|].
    split.
    { intros b Hb. apply in_app_or in Hb as [Hb|[<-|[]]].
      - apply Hm. now apply I2.
      - apply (drawn_tick (i_db st1)). }
    split; [intros t Ht; apply Hm; now apply I3|].
    split.
    { intros bt Hbt. apply in_app_or in Hbt as [Hbt|Hbt].
      - split; apply Hm; now apply I4.
      - apply in_map_iff in Hbt as (id & <- & Hid). simpl. split.
        + apply (drawn_tick (i_db st1)).
        + destruct (Forall2_In_l _ _ _ _ Hall Hid) as (nm & _ & t & Ht & <- & _).
          apply Hm. now apply I3. }
    split; [exact I5|]. split; [exact I6 | exact I7].
  - simpl. exact Hf1.
  - simpl. rewrite Hb1. reflexivity.
  - (* the shape of the new row *)
    unfold bookmark_shape. cbn [b_url b_title b_description text_of].
    f_equal. apply sort_names_perm.
    rewrite <- (names_of_ids (tags (i_db st1)) ids (leaf_tag_names n_tags)
                  I6 Hall).
    apply Permutation_map. unfold joined_tags.
    cbn [bookmark_tags tags b_id set_bookmark_tags set_bookmarks tick_uuid].
    apply Permutation_flat_map.
    rewrite bookmark_tag_ids_perm.
    cbn [bookmark_tags set_bookmark_tags set_bookmarks tick_uuid].
    rewrite filter_app.
    rewrite (filter_none _ (bookmark_tags (i_db st1))).
    + cbn [app].
      replace (filter (fun bt => fst bt =? bid) (map (pair bid) ids))
        with (map (pair bid) ids).
      * rewrite map_map. cbn [snd]. now rewrite map_id.
      * clear. induction ids as [|i ids IH]; [reflexivity|].
        cbn [map filter fst]. rewrite String.eqb_refl. now f_equal.
    + intros x Hx. apply String.eqb_neq. apply Hbid. now apply I4.
  - (* the bookmarks that were there *)
    intros b Hb. unfold bookmark_shape. do 3 f_equal.
    apply joined_tags_stable with (new_bt := map (pair bid) ids)
                                  (new_tags := new_tags).
    + simpl. now rewrite Hbt1.
    + simpl. exact Ht1.
    + intros x Hx. apply in_map_iff in Hx as (id & <- & _). simpl.
      intros E. apply (Hbid (b_id b)); [|now symmetry].
      destruct Hok as (_ & H2 & _).
      eapply drawn_mono; [exact Hd1 | now apply H2].
    + intros x Hx. destruct Hok as (_ & _ & _ & H4 & _). now apply H4.
    + exact Hfresh.
Qed.

Lemma row_follows_mono ctx ctx' encl scope p :
  incl ctx ctx' -> row_follows ctx encl scope p ->
  row_follows ctx' encl scope p.
Proof.
  intros Hincl (Hname & [H|(q & Hq & H)]); split; auto.
  right. exists q. split; [now apply Hincl | assumption].
Qed.

Lemma import_effect_nil encl scope st :
  import_ok uuid4 (i_db st) -> import_effect uuid4 [] [] encl scope st st.
Proof.
  intros Hok. split; [assumption|]. exists [], []. simpl.
  rewrite !app_nil_r. do 2 (split; [reflexivity|]).
  split; [intros p []|]. do 2 (split; [reflexivity|]). reflexivity.
Qed.

Lemma import_effect_seq F1 B1 F2 B2 encl scope st st1 st2 :
  import_effect uuid4 F1 B1 encl scope st st1 ->
  import_effect uuid4 F2 B2 encl scope st1 st2 ->
  import_effect uuid4 (F1 ++ F2) (B1 ++ B2) encl scope st st2.
Proof.
  intros (_ & L1 & BR1 & HL1 & Hf1 & Hrow1 & Hb1 & Hsh1 & Hold1)
         (Hok & L2 & BR2 & HL2 & Hf2 & Hrow2 & Hb2 & Hsh2 & Hold2).
  split; [assumption|]. exists (L1 ++ L2), (BR1 ++ BR2).
  split; [now rewrite map_app, HL1, HL2|].
  split; [now rewrite Hf2, Hf1, map_app, app_assoc|].
  split.
  { intros p Hp. apply in_app_or in Hp as [Hp|Hp].
    - eapply row_follows_mono; [|now apply Hrow1]. now apply incl_appl.
    - eapply row_follows_mono; [|now apply Hrow2]. now apply incl_appr. }
  split; [now rewrite Hb2, Hb1, app_assoc|].
  split.
  { rewrite !map_app, Hsh2, <- Hsh1. f_equal.
    apply map_ext_in. intros b Hb. apply Hold2. rewrite Hb1.
    apply in_or_app. now right. }
  intros b Hb. rewrite Hold2; [now apply Hold1|].
  rewrite Hb1. apply in_or_app. now left.
Qed.

Lemma folder_created_ok n_guid title parent st :
  import_ok uuid4 (i_db st) ->
  import_ok uuid4
    (i_db (folder_created n_guid (uuid4 (uuid_draws (i_db st))) title parent
             st)).
Proof.
  intros (H1 & H2 & H3 & H4 & H5 & H6 & H7).
  assert (Hm : forall x, drawn uuid4 (i_db st) x ->
                         drawn uuid4 (tick_uuid (i_db st)) x).
  { intros x. apply drawn_mono. simpl. lia. }
  unfold import_ok, folder_created. simpl.
  split.
  { intros r Hr. apply in_app_or in Hr as [Hr|[<-|[]]].
    - apply Hm. now apply H1.
    - apply (drawn_tick (i_db st)). }
  split; [intros b Hb; apply Hm; now apply H2|].
  split; [intros t Ht; apply Hm; now apply H3|].
  split; [intros bt Hbt; split; apply Hm; now apply H4|].
  split; [|split; assumption].
  unfold folder_ids. simpl. rewrite map_app. simpl.
  apply NoDup_app; [exact H5 | repeat constructor; intros [] |].
  intros a Ha [<-|[]]. apply in_map_iff in Ha as (r & Er & Hr).
  apply (fresh_not_drawn (i_db st)). rewrite <- Er. now apply H1.
Qed.

Lemma import_effect_folder g t F B encl scope st st' :
  import_ok uuid4 (i_db st) ->
  import_effect uuid4 F B (Some g) (Some (uuid4 (uuid_draws (i_db st))))
    (folder_created (Some g) (uuid4 (uuid_draws (i_db st))) t scope st) st' ->
  import_effect uuid4 ((g, t, encl) :: F) B encl scope st st'.
Proof.
  intros Hok0 (Hok & L & BR & HL & Hf & Hrow & Hb & Hsh & Hold).
  split; [assumption|].
  set (row := mk_folder (uuid4 (uuid_draws (i_db st))) t scope
                (current_timestamp (i_db st))).
  exists (((g, t, encl), row) :: L), BR.
  split; [simpl; now rewrite HL|].
  split; [rewrite Hf; simpl; now rewrite <- app_assoc|].
  split.
  { intros p [<-|Hp].
    - split; [reflexivity|]. left. split; reflexivity.
    - destruct (Hrow p Hp) as (Hname & [(He & Hpar)|(q & Hq & He & Hpar)]).
      + split; [assumption|]. right. exists ((g, t, encl), row).
        split; [now left|]. split; assumption.
      + split; [assumption|]. right. exists q.
        split; [now right|]. split; assumption. }
  split; [exact Hb|]. split; [exact Hsh | exact Hold].
Qed.

(** Induction on documents. *)
Lemma node_ind_children (P : node -> Prop) :
  (forall n_type n_guid n_title n_uri n_annos n_tags children,
      Forall P children ->
      P (mk_node n_type n_guid n_title n_uri n_annos n_tags children)) ->
  forall n, P n.
Proof.
  intros H. fix IH 1. intros [n_type n_guid n_title n_uri n_annos n_tags children].
  apply H. induction children as [|c cs IHcs]; constructor; [apply IH | exact IHcs].
Qed.

Lemma process_each_ok fuel children :
  Forall (fun c =>
            forall encl scope st,
              import_ok uuid4 (i_db st) ->
              exists st',
                process_container uuid4 fav fuel c scope st = (Ok tt, st') /\
                import_effect uuid4 (doc_folders c encl) (doc_leaves c)
                  encl scope st st') children ->
  forall encl scope st,
    import_ok uuid4 (i_db st) ->
    exists st',
      process_each uuid4 fav fuel children scope st = (Ok tt, st') /\
      import_effect uuid4 (flat_map (fun c => doc_folders c encl) children)
        (flat_map doc_leaves children) encl scope st st'.
Proof.
  unfold process_each.
  induction 1 as [|c cs Hc _ IH]; intros encl scope st Hok.
  - exists st. split; [reflexivity | now apply import_effect_nil].
  - destruct (Hc encl scope st Hok) as (st1 & Hr1 & He1).
    destruct (IH encl scope st1 (proj1 He1)) as (st2 & Hr2 & He2).
    exists st2. cbn [process_children flat_map]. rewrite Hr1.
    split; [exact Hr2 | eapply import_effect_seq; eassumption].
Qed.

(** The children of a node are less deep than the node. *)
Lemma doc_depth_children n_type n_guid n_title n_uri n_annos n_tags children
  fuel c :
  doc_depth (mk_node n_type n_guid n_title n_uri n_annos n_tags children)
  <= S fuel ->
  In c children -> doc_depth c <= fuel.
Proof.
  cbn [doc_depth]. intros H Hc. apply le_S_n in H.
  apply list_max_le in H. rewrite Forall_forall in H.
  apply H. now apply in_map.
Qed.

(** Importing a well-formed document with a recursion budget of at least
    its height succeeds and has the effect its folders and leaves
    describe. *)
Lemma process_container_ok :
  forall n, wf_doc n ->
  forall fuel encl scope st,
    doc_depth n <= fuel ->
    import_ok uuid4 (i_db st) ->
    exists st',
      process_container uuid4 fav fuel n scope st = (Ok tt, st') /\
      import_effect uuid4 (doc_folders n encl) (doc_leaves n) encl scope st st'.
Proof.
  induction n as [n_type n_guid n_title n_uri n_annos n_tags children IH]
    using node_ind_children.
  intros Hwf fuel encl scope st Hdepth Hok.
  destruct fuel as [|fuel]; [cbn [doc_depth] in Hdepth; lia|].
  assert (Hchildren : Forall wf_doc children ->
            Forall (fun c =>
              forall encl scope st,
                import_ok uuid4 (i_db st) ->
                exists st',
                  process_container uuid4 fav fuel c scope st = (Ok tt, st') /\
                  import_effect uuid4 (doc_folders c encl) (doc_leaves c)
                    encl scope st st') children).
  { intros Hcs. rewrite Forall_forall in *. intros c Hc e sc s0 Hs0.
    apply IH; auto. eapply doc_depth_children; eassumption. }
  inversion Hwf as [g t0 u0 a0 tg0 cs Hg Hcs
                   | g t u0 a0 tg0 cs Hg Ht Hcs
                   | g0 t0 url a0 tg0 cs Htitle Hurl Hnd]; subst.
  - (* a special container *)
    destruct (process_each_ok fuel children (Hchildren Hcs) encl scope st Hok)
      as (st' & Hr & He).
    exists st'. rewrite process_container_special by exact Hg.
    split; [exact Hr|].
    cbn [doc_folders doc_leaves].
    change (opt_eqb (Some place_container) place_container) with true.
    cbv iota. apply mem_In in Hg. rewrite Hg. exact He.
  - (* a folder *)
    set (new := uuid4 (uuid_draws (i_db st))).
    assert (Hfresh : ~ In new (folder_ids (i_db st))).
    { intros Hin. apply in_map_iff in Hin as (r & Er & Hr).
      apply (fresh_not_drawn (i_db st)). fold new. rewrite <- Er.
      destruct Hok as (H1 & _). now apply H1. }
    pose proof (folder_created_ok (Some g) t scope st Hok) as Hok1.
    destruct (process_each_ok fuel children (Hchildren Hcs) (Some g)
                (Some new) _ Hok1)
      as (st' & Hr & He).
    exists st'.
    rewrite (process_container_folder uuid4 fav fuel (Some g) (Text t) n_uri
               n_annos n_tags children scope st t)
      by (assumption || reflexivity).
    split; [exact Hr|].
    cbn [doc_folders doc_leaves get_text opt_truthy].
    change (opt_eqb (Some place_container) place_container) with true.
    cbv iota.
    destruct (mem g special_guids) eqn:Em; [apply mem_In in Em; contradiction|].
    unfold str_truthy. apply String.eqb_neq in Ht. rewrite Ht. cbn [negb].
    apply import_effect_folder; assumption.
  - (* a bookmark leaf *)
    destruct (import_bookmark_ok n_title url n_annos n_tags scope st Htitle
                Hurl Hnd Hok)
      as (st' & row & Hr & Hok' & Hf & Hb & Hsh & Hold).
    exists st'. cbn [process_container].
    change (opt_eqb (Some place) place_container) with false.
    change (opt_eqb (Some place) place) with true. cbv iota.
    split; [exact Hr|].
    cbn [doc_folders doc_leaves].
    change (opt_eqb (Some place) place_container) with false.
    change (opt_eqb (Some place) place) with true. cbv iota.
    unfold opt_truthy, str_truthy. pose proof Hurl as Hurl'.
    apply String.eqb_neq in Hurl'. rewrite Hurl'. cbn [negb].
    split; [assumption|]. exists [], [row]. simpl.
    split; [reflexivity|]. split; [now rewrite Hf, app_nil_r|].
    split; [intros p []|]. split; [assumption|].
    split; [now rewrite Hsh | assumption].
Qed.

End ImportCorrect.

(** *** The document the export writes *)

Lemma child_ids_app l1 l2 id :
  child_ids (l1 ++ l2) id = child_ids l1 id ++ child_ids l2 id.
Proof. unfold child_ids. now rewrite filter_app, map_app. Qed.

Lemma row_of_id (l : list folder_row) (k : string) :
  In k (map f_id l) -> exists r, In r l /\ f_id r = k.
Proof. intros H. apply in_map_iff in H as (r & E & Hr). eauto. Qed.

Lemma rows_same_id (l : list folder_row) r r' :
  NoDup (map f_id l) -> In r l -> In r' l -> f_id r = f_id r' -> r = r'.
Proof.
  induction l as [|x l IH]; simpl; [contradiction|].
  intros Hnd Hr Hr' E. inversion Hnd as [|? ? Hx Hl]; subst.
  destruct Hr as [->|Hr]; destruct Hr' as [->|Hr'].
  - reflexivity.
  - exfalso. apply Hx. rewrite E. now apply in_map.
  - exfalso. apply Hx. rewrite <- E. now apply in_map.
  - now apply IH.
Qed.

(** One round of the folder loop. *)
Lemma export_folder_step_read l r st :
  NoDup (map f_id (l ++ [r])) ->
  match f_parent_id r with
  | None => True
  | Some p => p <> "" /\ In p (map f_id l)
  end ->
  folders_read l st -> folders_read (l ++ [r]) (export_folder_step st r).
Proof.
  intros Hnd Hpar (Hget & Hnone & Hparents & Hroots).
  destruct st as [fm roots]. simpl in Hget, Hnone, Hroots.
  assert (Hnew : ~ In (f_id r) (map f_id l)).
  { rewrite map_app in Hnd. apply NoDup_remove_2 in Hnd.
    rewrite app_nil_r in Hnd. exact Hnd. }
  assert (Hnd_l : NoDup (map f_id l)).
  { rewrite map_app in Hnd. now apply NoDup_app_remove_r in Hnd. }
  assert (Hnochild : child_ids l (f_id r) = []).
  { unfold child_ids. rewrite filter_none; [reflexivity|].
    intros c Hc. destruct (opt_eqb (f_parent_id c) (f_id r)) eqn:E; [|reflexivity].
    apply opt_eqb_Some in E. destruct (Hparents c _ Hc E) as [_ Hin]. contradiction. }
  assert (Hparents' : forall r0 p, In r0 (l ++ [r]) -> f_parent_id r0 = Some p ->
                                   p <> "" /\ In p (map f_id (l ++ [r]))).
  { intros r0 p Hr0 Hp. rewrite map_app. apply in_app_or in Hr0 as [Hr0|[<-|[]]].
    - destruct (Hparents r0 p Hr0 Hp) as [Hne Hin]. split; [assumption|].
      apply in_or_app. now left.
    - rewrite Hp in Hpar. destruct Hpar as [Hne Hin]. split; [assumption|].
      apply in_or_app. now left. }
  unfold export_folder_step.
  destruct (f_parent_id r) as [p|] eqn:Hp.
  - destruct Hpar as [Hpne Hpin].
    assert (Htr : opt_truthy (Some p) = true).
    { simpl. unfold str_truthy. apply String.eqb_neq in Hpne. now rewrite Hpne. }
    rewrite Htr.
    destruct (row_of_id l p Hpin) as (rp & Hrp & Erp).
    assert (Hpr : p <> f_id r) by (intros ->; contradiction).
    rewrite dict_get_set_other by (intros E; apply Hpr; now symmetry).
    rewrite <- Erp, (Hget rp Hrp), Erp.
    split; [|split; [|split]]; cbn [fst snd].
    + intros r0 Hr0. rewrite child_ids_app.
      destruct (string_dec p (f_id r0)) as [E|Hne].
      * (* the parent *)
        rewrite <- E, dict_get_set_same.
        assert (r0 = rp).
        { apply in_app_or in Hr0 as [Hr0|[<-|[]]].
          - eapply rows_same_id; try eassumption. congruence.
          - congruence. }
        subst r0. unfold append_child. cbn [fn_guid fn_title fn_children].
        rewrite ?Erp. f_equal. f_equal. rewrite map_app. f_equal.
        unfold child_ids. simpl. rewrite Hp. simpl.
        now rewrite String.eqb_refl.
      * rewrite dict_get_set_other by assumption.
        assert (Hlast : child_ids [r] (f_id r0) = []).
        { unfold child_ids. simpl. rewrite Hp. simpl.
          apply String.eqb_neq in Hne. now rewrite Hne. }
        rewrite Hlast, app_nil_r.
        apply in_app_or in Hr0 as [Hr0|[<-|[]]].
        -- rewrite dict_get_set_other.
           ++ now apply Hget.
           ++ intros E. apply Hnew. rewrite E. now apply in_map.
        -- rewrite dict_get_set_same, Hnochild. reflexivity.
    + intros k Hk. rewrite map_app in Hk.
      assert (k <> p) by (intros ->; apply Hk; apply in_or_app; now left).
      assert (k <> f_id r)
        by (intros ->; apply Hk; apply in_or_app; right; now left).
      rewrite !dict_get_set_other by congruence.
      apply Hnone. intros Hin. apply Hk. apply in_or_app. now left.
    + exact Hparents'.
    + rewrite Hroots, filter_app. cbn [filter]. unfold is_root.
      rewrite Hp, Htr. cbn [negb]. now rewrite app_nil_r.
  - cbn [opt_truthy].
    split; [|split; [|split]]; cbn [fst snd].
    + intros r0 Hr0. rewrite child_ids_app.
      assert (Hlast : child_ids [r] (f_id r0) = []).
      { unfold child_ids. simpl. now rewrite Hp. }
      rewrite Hlast, app_nil_r.
      apply in_app_or in Hr0 as [Hr0|[<-|[]]].
      * rewrite dict_get_set_other.
        -- now apply Hget.
        -- intros E. apply Hnew. rewrite E. now apply in_map.
      * rewrite dict_get_set_same, Hnochild. reflexivity.
    + intros k Hk. rewrite map_app in Hk.
      assert (k <> f_id r)
        by (intros ->; apply Hk; apply in_or_app; right; now left).
      rewrite dict_get_set_other by congruence.
      apply Hnone. intros Hin. apply Hk. apply in_or_app. now left.
    + exact Hparents'.
    + rewrite Hroots, filter_app, !map_app. cbn [filter]. unfold is_root.
      rewrite Hp. reflexivity.
Qed.

Lemma export_folder_loop :
  forall l2 l1 seen st,
    NoDup (map f_id (l1 ++ l2)) ->
    (forall x, In x seen <-> In x (map f_id l1)) ->
    parents_first seen l2 = true ->
    folders_read l1 st ->
    folders_read (l1 ++ l2) (fold_left export_folder_step l2 st).
Proof.
  induction l2 as [|r l2 IH]; intros l1 seen st Hnd Hseen Hpf Hread.
  - now rewrite app_nil_r.
  - cbn [fold_left]. cbn [parents_first] in Hpf.
    apply andb_true_iff in Hpf as [Hr Hpf].
    replace (l1 ++ r :: l2) with ((l1 ++ [r]) ++ l2) in *
      by (now rewrite <- app_assoc).
    apply (IH (l1 ++ [r]) (f_id r :: seen)); try assumption.
    + intros x. rewrite map_app. simpl. rewrite in_app_iff. simpl.
      rewrite Hseen. tauto.
    + apply export_folder_step_read; [| |assumption].
      * rewrite map_app in Hnd. now apply NoDup_app_remove_r in Hnd.
      * destruct (f_parent_id r) as [p|]; [|exact I].
        apply andb_true_iff in Hr as [Hp Hin]. split.
        -- unfold str_truthy in Hp. apply negb_true_iff in Hp.
           now apply String.eqb_neq.
        -- apply Hseen. now apply mem_In.
Qed.

Lemma filed_in_other x fid id :
  b_folder_id (fst x) = Some fid -> id <> fid -> filed_in id x = false.
Proof.
  intros Hf Hne. unfold filed_in. rewrite Hf. simpl.
  apply not_eq_sym in Hne. apply String.eqb_neq in Hne. rewrite Hne.
  apply andb_false_r.
Qed.

Lemma export_leaves_snoc bs x id :
  export_leaves (bs ++ [x]) id
  = export_leaves bs id ++ (if filed_in id x then [leaf_of x] else []).
Proof.
  unfold export_leaves. rewrite filter_app, map_app. simpl.
  now destruct (filed_in id x).
Qed.

Lemma export_unorganized_snoc ids bs x :
  export_unorganized ids (bs ++ [x])
  = export_unorganized ids bs
    ++ (if existsb (fun id => filed_in id x) ids then [] else [leaf_of x]).
Proof.
  unfold export_unorganized. rewrite filter_app, map_app. simpl.
  now destruct (existsb (fun id => filed_in id x) ids).
Qed.

(** One round of the bookmark loop. *)
Lemma export_bookmark_step_read fs bs x st :
  bookmarks_read fs bs st ->
  bookmarks_read fs (bs ++ [x]) (export_bookmark_step st x).
Proof.
  intros (Hget & Hnone & Hun). destruct st as [fm unorg].
  destruct x as [b names]. simpl in Hget, Hnone, Hun.
  unfold export_bookmark_step.
  assert (Hcase :
    (exists fid r, opt_truthy (b_folder_id b) = true /\
                   b_folder_id b = Some fid /\ In r fs /\ f_id r = fid) \/
    ((forall id, In id (map f_id fs) -> filed_in id (b, names) = false) /\
     (if opt_truthy (b_folder_id b) then b_folder_id b else None) = None \/
     (forall id, In id (map f_id fs) -> filed_in id (b, names) = false) /\
     exists fid, (if opt_truthy (b_folder_id b) then b_folder_id b else None)
                 = Some fid /\ dict_get fid fm = None)).
  { destruct (opt_truthy (b_folder_id b)) eqn:Htr.
    - destruct (b_folder_id b) as [fid|] eqn:Hf; [|discriminate].
      destruct (in_dec string_dec fid (map f_id fs)) as [Hin|Hnin].
      + left. destruct (row_of_id fs fid Hin) as (r & Hr & Er). eauto 8.
      + right. right. split.
        * intros id Hid. apply filed_in_other with fid; [exact Hf|].
          intros ->. contradiction.
        * exists fid. split; [reflexivity | now apply Hnone].
    - right. left. split; [|reflexivity].
      intros id _. unfold filed_in. simpl. now rewrite Htr. }
  destruct Hcase as [(fid & rf & Htr & Hf & Hrf & Erf)
                    | [(Hno & Htgt) | (Hno & fid & Htgt & Hnf)]].
  - (* filed in a folder that exists *)
    rewrite Htr, Hf. rewrite <- Erf, (Hget rf Hrf), Erf.
    assert (Hfiled : filed_in fid (b, names) = true).
    { unfold filed_in. simpl. rewrite Htr, Hf. simpl. now rewrite String.eqb_refl. }
    split; [|split]; cbn [fst snd].
    + intros r Hr. rewrite export_leaves_snoc.
      destruct (string_dec fid (f_id r)) as [E|Hne].
      * pose proof (Hget r Hr) as H1.
        rewrite <- E, <- Erf, (Hget rf Hrf) in H1.
        injection H1 as Hname.
        rewrite <- E, dict_get_set_same, Hfiled. unfold append_child.
        cbn [fn_guid fn_title fn_children].
        rewrite Hname, ?Erf. now rewrite map_app, app_assoc.
      * rewrite dict_get_set_other by assumption.
        rewrite (filed_in_other (b, names) fid (f_id r)) by (auto; simpl; auto).
        rewrite app_nil_r. now apply Hget.
    + intros k Hk. rewrite dict_get_set_other; [now apply Hnone|].
      intros ->. apply Hk. rewrite <- Erf. now apply in_map.
    + rewrite export_unorganized_snoc.
      assert (Hex : existsb (fun id => filed_in id (b, names)) (map f_id fs) = true).
      { apply existsb_exists. exists fid. split; [|assumption].
        rewrite <- Erf. now apply in_map. }
      now rewrite Hex, app_nil_r.
  - rewrite Htgt.
    split; [|split]; cbn [fst snd].
    + intros r Hr. rewrite export_leaves_snoc, Hno, app_nil_r;
        [now apply Hget | now apply in_map].
    + exact Hnone.
    + rewrite export_unorganized_snoc, Hun.
      assert (Hex : existsb (fun id => filed_in id (b, names)) (map f_id fs) = false).
      { destruct (existsb _ _) eqn:E; [|reflexivity].
        apply existsb_exists in E as (id & Hid & Hfi).
        rewrite (Hno id Hid) in Hfi. discriminate. }
      rewrite Hex, map_app. reflexivity.
  - rewrite Htgt, Hnf.
    split; [|split]; cbn [fst snd].
    + intros r Hr. rewrite export_leaves_snoc, Hno, app_nil_r;
        [now apply Hget | now apply in_map].
    + exact Hnone.
    + rewrite export_unorganized_snoc, Hun.
      assert (Hex : existsb (fun id => filed_in id (b, names)) (map f_id fs) = false).
      { destruct (existsb _ _) eqn:E; [|reflexivity].
        apply existsb_exists in E as (id & Hid & Hfi).
        rewrite (Hno id Hid) in Hfi. discriminate. }
      rewrite Hex, map_app. reflexivity.
Qed.

Lemma export_bookmark_loop fs :
  forall bs2 bs1 st,
    bookmarks_read fs bs1 st ->
    bookmarks_read fs (bs1 ++ bs2) (fold_left export_bookmark_step bs2 st).
Proof.
  induction bs2 as [|x bs2 IH]; intros bs1 st Hread.
  - now rewrite app_nil_r.
  - cbn [fold_left].
    replace (bs1 ++ x :: bs2) with ((bs1 ++ [x]) ++ bs2)
      by (now rewrite <- app_assoc).
    apply IH. now apply export_bookmark_step_read.
Qed.

Lemma parents_first_split :
  forall l1 seen r rest p,
    parents_first seen (l1 ++ r :: rest) = true ->
    f_parent_id r = Some p ->
    p <> "" /\ (In p seen \/ In p (map f_id l1)).
Proof.
  induction l1 as [|c l1 IH]; intros seen r rest p Hpf Hp.
  - cbn [app parents_first] in Hpf. rewrite Hp in Hpf.
    apply andb_true_iff in Hpf as [Hr _].
    apply andb_true_iff in Hr as [Hne Hin]. split.
    + unfold str_truthy in Hne. apply negb_true_iff in Hne.
      now apply String.eqb_neq.
    + left. now apply mem_In.
  - cbn [app parents_first] in Hpf. apply andb_true_iff in Hpf as [_ Hpf].
    destruct (IH _ _ _ _ Hpf Hp) as [Hne [[<-|Hin]|Hin]]; split; auto.
    + right. now left.
    + right. now right.
Qed.

(** A folder has no subfolder among the rows read up to it. *)
Lemma child_ids_suffix l1 r rest :
  NoDup (map f_id (l1 ++ r :: rest)) ->
  parents_first [] (l1 ++ r :: rest) = true ->
  child_ids (l1 ++ r :: rest) (f_id r) = child_ids rest (f_id r).
Proof.
  intros Hnd Hpf.
  assert (Hnot : ~ In (f_id r) (map f_id l1)).
  { rewrite map_app in Hnd. simpl in Hnd.
    apply NoDup_remove_2 in Hnd. intros Hin. apply Hnd.
    apply in_or_app. now left. }
  change (l1 ++ r :: rest) with (l1 ++ [r] ++ rest).
  rewrite !child_ids_app.
  assert (H1 : child_ids l1 (f_id r) = []).
  { unfold child_ids. rewrite filter_none; [reflexivity|].
    intros c Hc. destruct (opt_eqb (f_parent_id c) (f_id r)) eqn:E; [|reflexivity].
    apply opt_eqb_Some in E. apply in_split in Hc as (a & b & ->).
    rewrite <- app_assoc in Hpf. simpl in Hpf.
    destruct (parents_first_split _ _ _ _ _ Hpf E) as [_ [[]|Hin]].
    exfalso. apply Hnot. rewrite map_app. apply in_or_app. now left. }
  assert (H2 : child_ids [r] (f_id r) = []).
  { unfold child_ids. simpl.
    destruct (opt_eqb (f_parent_id r) (f_id r)) eqn:E; [|reflexivity].
    apply opt_eqb_Some in E.
    destruct (parents_first_split _ _ _ _ _ Hpf E) as [_ [[]|Hin]].
    contradiction. }
  now rewrite H1, H2.
Qed.

Lemma map_result_app {A B} (f : A -> result B) l1 l2 r1 r2 :
  map_result f l1 = Ok r1 -> map_result f l2 = Ok r2 ->
  map_result f (l1 ++ l2) = Ok (r1 ++ r2).
Proof.
  revert r1. induction l1 as [|x l1 IH]; intros r1 H1 H2; simpl in *.
  - injection H1 as <-. exact H2.
  - destruct (f x) as [y|e]; simpl in *; [|discriminate].
    destruct (map_result f l1) as [ys|e]; simpl in *; [|discriminate].
    injection H1 as <-. now rewrite (IH ys eq_refl H2).
Qed.

Lemma map_result_leaves fuel fm ns :
  map_result (read_ref (S fuel) fm) (map BookmarkLeaf ns) = Ok ns.
Proof.
  induction ns as [|n ns IH]; [reflexivity|].
  cbn [map map_result]. rewrite IH. reflexivity.
Qed.

Lemma map_result_trees fuel fm (tree : string -> list node) cs :
  (forall c, In c cs ->
             exists n, tree c = [n] /\ read_ref fuel fm (FolderRef c) = Ok n) ->
  map_result (read_ref fuel fm) (map FolderRef cs) = Ok (flat_map tree cs).
Proof.
  induction cs as [|c cs IH]; intros H; [reflexivity|].
  cbn [map map_result flat_map].
  destruct (H c (or_introl eq_refl)) as (n & Ht & Hr).
  rewrite Hr, Ht, IH; [reflexivity|]. intros c' Hc'. apply H. now right.
Qed.

(** Reading a folder of the export graph gives its tree. *)
Lemma read_ref_tree fs bs st :
  NoDup (map f_id fs) -> parents_first [] fs = true ->
  bookmarks_read fs bs st ->
  forall l2 l1, fs = l1 ++ l2 ->
  forall r, In r l2 ->
  forall fuel, length l2 < fuel ->
  exists n,
    export_tree (export_leaves bs) l2 (f_id r) = [n] /\
    read_ref fuel (fst st) (FolderRef (f_id r)) = Ok n.
Proof.
  intros Hnd Hpf (Hget & _ & _).
  induction l2 as [|r0 rest IH]; intros l1 Hfs r Hr fuel Hfuel; [destruct Hr|].
  assert (Hin0 : In r0 fs) by (rewrite Hfs; apply in_or_app; right; now left).
  assert (Hrest : forall c, In c rest -> In c fs).
  { intros c Hc. rewrite Hfs. apply in_or_app. right. now right. }
  cbn [export_tree].
  destruct (f_id r0 =? f_id r) eqn:E.
  - apply String.eqb_eq in E. rewrite <- E.
    destruct fuel as [|fuel]; [lia|]. simpl in Hfuel.
    eexists. split; [reflexivity|].
    cbn [read_ref]. rewrite (Hget r0 Hin0). cbn [fn_children fn_guid fn_title].
    assert (Hch : child_ids fs (f_id r0) = child_ids rest (f_id r0)).
    { rewrite Hfs. rewrite Hfs in Hnd, Hpf. now apply child_ids_suffix. }
    rewrite Hch.
    destruct fuel as [|fuel]; [lia|].
    erewrite map_result_app;
      [| apply map_result_trees with (tree := export_tree (export_leaves bs) rest)
       | apply map_result_leaves].
    + reflexivity.
    + intros c Hc. unfold child_ids in Hc.
      apply in_map_iff in Hc as (rc & <- & Hrc). apply filter_In in Hrc as [Hrc _].
      apply (IH (l1 ++ [r0])); [now rewrite <- app_assoc | assumption | lia].
  - destruct Hr as [->|Hr]; [rewrite String.eqb_refl in E; discriminate|].
    apply (IH (l1 ++ [r0])); [now rewrite <- app_assoc | assumption|].
    simpl in Hfuel. lia.
Qed.

Lemma export_folders_perm db : Permutation (export_folders db) (folders db).
Proof. apply stable_sort_perm. Qed.

Lemma export_folders_NoDup db :
  NoDup (folder_ids db) -> NoDup (map f_id (export_folders db)).
Proof.
  intros H. eapply Permutation_NoDup; [|exact H].
  apply Permutation_map, Permutation_sym, export_folders_perm.
Qed.

(** The export of a store whose folders come parents first reads as
    [export_document]. *)
Lemma read_export_document db fuel :
  NoDup (folder_ids db) ->
  parents_first [] (export_folders db) = true ->
  length (folders db) < fuel ->
  read_export fuel (export_to_firefox_json db) = Ok (export_document db).
Proof.
  intros Hnd Hpf Hfuel.
  pose proof (export_folders_NoDup db Hnd) as Hnd'.
  set (fs := export_folders db) in *. set (bs := export_bookmarks db).
  assert (Hlen : length fs = length (folders db))
    by (apply Permutation_length, export_folders_perm).
  unfold export_to_firefox_json. fold fs. fold bs.
  (* the folder loop *)
  assert (H1 : folders_read fs (fold_left export_folder_step fs ([], []))).
  { apply (export_folder_loop fs [] [] ([], []) Hnd'); [tauto | assumption |].
    split; [intros r []|]. split; [reflexivity|].
    split; [intros r p []|reflexivity]. }
  destruct (fold_left export_folder_step fs ([], [])) as [fm1 roots].
  destruct H1 as (Hget1 & Hnone1 & _ & Hroots). cbn [fst snd] in *.
  (* the bookmark loop *)
  assert (H2 : bookmarks_read fs bs
                 (fold_left export_bookmark_step bs (fm1, []))).
  { apply (export_bookmark_loop fs bs [] (fm1, [])).
    split; [|split]; cbn [fst snd].
    - intros r Hr. rewrite (Hget1 r Hr). unfold export_leaves. simpl.
      now rewrite app_nil_r.
    - exact Hnone1.
    - reflexivity. }
  destruct (fold_left export_bookmark_step bs (fm1, [])) as [fm2 unorg] eqn:Eloop.
  pose proof H2 as (_ & _ & Hun). cbn [fst snd] in Hun.
  unfold read_export. cbn [e_folder_map e_toolbar_children].
  destruct fuel as [|fuel]; [lia|].
  erewrite map_result_app;
    [| rewrite Hroots;
       apply map_result_trees with (tree := export_tree (export_leaves bs) fs)
     | rewrite Hun; apply map_result_leaves].
  - reflexivity.
  - intros c Hc. apply in_map_iff in Hc as (rc & <- & Hrc).
    apply filter_In in Hrc as [Hrc _].
    apply (read_ref_tree fs bs (fm2, unorg) Hnd' Hpf H2 fs [] eq_refl rc Hrc).
    lia.
Qed.

(** *** The folders and leaves of the exported document *)

Lemma filter_split_perm {A} (f g h : A -> bool) (l : list A) :
  (forall x, In x l -> f x = orb (g x) (h x)) ->
  (forall x, In x l -> andb (g x) (h x) = false) ->
  Permutation (filter f l) (filter g l ++ filter h l).
Proof.
  induction l as [|x l IH]; intros Hor Hex; [reflexivity|].
  assert (IH' : Permutation (filter f l) (filter g l ++ filter h l)).
  { apply IH; intros y Hy; [apply Hor | apply Hex]; now right. }
  specialize (Hor x (or_introl eq_refl)). specialize (Hex x (or_introl eq_refl)).
  simpl. rewrite Hor.
  destruct (g x), (h x); simpl in *; try discriminate.
  - now constructor.
  - rewrite IH'. apply Permutation_middle.
  - exact IH'.
Qed.

Lemma Permutation_flat_map_l {A B} (f : A -> list B) l l' :
  Permutation l l' -> Permutation (flat_map f l) (flat_map f l').
Proof.
  induction 1 as [|x l l' _ IH|x y l|l l' l'' _ IH1 _ IH2]; simpl.
  - reflexivity.
  - now apply Permutation_app_head.
  - rewrite !app_assoc. apply Permutation_app_tail, Permutation_app_comm.
  - now rewrite IH1.
Qed.

Lemma collect_skip {X} (pre post : folder_row -> list X) r rest id :
  f_id r <> id -> collect pre post (r :: rest) id = collect pre post rest id.
Proof. intros H. simpl. apply String.eqb_neq in H. now rewrite H. Qed.

(** The walk from the top folders visits every folder once. *)
Lemma collect_forest {X} (pre post : folder_row -> list X) :
  forall l,
    NoDup (map f_id l) -> no_later_parent l ->
    Permutation
      (flat_map (collect pre post l) (map f_id (filter (is_top l) l)))
      (flat_map (fun r => pre r ++ post r) l).
Proof.
  induction l as [|r rest IH]; intros Hnd Hnl; [reflexivity|].
  destruct Hnl as [Htop Hnl]. simpl in Hnd.
  inversion Hnd as [|? ? Hr Hnd']; subst.
  cbn [filter]. rewrite Htop. cbn [map flat_map].
  (* the other tops are tops of the rest *)
  assert (Hskip : flat_map (collect pre post (r :: rest))
                    (map f_id (filter (is_top (r :: rest)) rest))
                  = flat_map (collect pre post rest)
                      (map f_id (filter (is_top (r :: rest)) rest))).
  { apply flat_map_ext_in. intros id Hid. apply collect_skip.
    intros <-. apply Hr. apply in_map_iff in Hid as (x & E & Hx).
    apply filter_In in Hx as [Hx _]. rewrite <- E. now apply in_map. }
  rewrite Hskip. cbn [collect]. rewrite String.eqb_refl.
  assert (Hsplit : Permutation (filter (is_top rest) rest)
                     (filter (fun c => opt_eqb (f_parent_id c) (f_id r)) rest
                      ++ filter (is_top (r :: rest)) rest)).
  { apply filter_split_perm.
    - intros x Hx. unfold is_top. destruct (f_parent_id x) as [p|]; simpl;
        [|reflexivity].
      destruct (p =? f_id r) eqn:E; simpl; [|reflexivity].
      apply String.eqb_eq in E. subst p.
      destruct (mem (f_id r) (map f_id rest)) eqn:Em; [|reflexivity].
      apply mem_In in Em. contradiction.
    - intros x Hx. unfold is_top. destruct (f_parent_id x) as [p|]; simpl;
        [|reflexivity].
      destruct (p =? f_id r) eqn:E; simpl; reflexivity. }
  specialize (IH Hnd' Hnl).
  assert (Hmid : Permutation
            (flat_map (collect pre post rest) (child_ids rest (f_id r))
             ++ flat_map (collect pre post rest)
                  (map f_id (filter (is_top (r :: rest)) rest)))
            (flat_map (fun r => pre r ++ post r) rest)).
  { rewrite <- IH. unfold child_ids. rewrite <- flat_map_app, <- map_app.
    apply Permutation_flat_map_l, Permutation_map, Permutation_sym, Hsplit. }
  rewrite <- Hmid. rewrite <- !app_assoc. apply Permutation_app_head.
  rewrite !app_assoc. apply Permutation_app_tail.
  apply Permutation_app_comm.
Qed.

(** *** Tag names through the comma-separated text *)

Lemma split_on_no_comma n : no_comma n = true -> split_on "," n = [n].
Proof.
  induction n as [|c n IH]; intros H; [reflexivity|].
  simpl in H. apply andb_true_iff in H as [Hc Hn].
  apply negb_true_iff in Hc. cbn [split_on]. rewrite Hc, (IH Hn). reflexivity.
Qed.

Lemma split_on_app n s :
  no_comma n = true ->
  split_on "," (n ++ String "," s) = n :: split_on "," s.
Proof.
  induction n as [|c n IH]; intros H.
  - reflexivity.
  - simpl in H. apply andb_true_iff in H as [Hc Hn].
    apply negb_true_iff in Hc. cbn [append split_on]. rewrite Hc, (IH Hn).
    reflexivity.
Qed.

Lemma split_concat names :
  names <> [] -> Forall (fun n => no_comma n = true) names ->
  split_on "," (String.concat "," names) = names.
Proof.
  induction names as [|n names IH]; intros Hne Hall; [contradiction|].
  inversion Hall as [|? ? Hn Hns]; subst.
  destruct names as [|n' names].
  - simpl. now apply split_on_no_comma.
  - change (String.concat "," (n :: n' :: names))
      with (n ++ String "," (String.concat "," (n' :: names)))%string.
    rewrite split_on_app by assumption. f_equal. apply IH; [discriminate | assumption].
Qed.

Lemma concat_not_empty n names : n <> "" -> String.concat "," (n :: names) <> "".
Proof.
  intros Hn. destruct names as [|n' names]; [exact Hn|].
  change (String.concat "," (n :: n' :: names))
    with (n ++ String "," (String.concat "," (n' :: names)))%string.
  destruct n; [contradiction | discriminate].
Qed.

Lemma clean_names_strip names :
  Forall clean_tag_name names -> filter str_truthy (map strip names) = names.
Proof.
  induction 1 as [|m ms (Hs & Hm & _) _ IH]; [reflexivity|].
  cbn [map filter]. rewrite Hs. unfold str_truthy at 1.
  apply String.eqb_neq in Hm. rewrite Hm. cbn [negb]. now f_equal.
Qed.

Lemma clean_names_survive names :
  Forall clean_tag_name names ->
  leaf_tag_names
    (if opt_truthy (group_concat names)
     then option_map TagsStr (group_concat names)
     else None)
  = names.
Proof.
  intros Hall. destruct names as [|n names]; [reflexivity|].
  assert (Hne : String.concat "," (n :: names) <> "").
  { apply concat_not_empty. inversion Hall as [|? ? (_ & Hn & _) _]. assumption. }
  apply String.eqb_neq in Hne.
  cbn [group_concat opt_truthy]. unfold str_truthy at 1. rewrite Hne.
  cbn [negb option_map leaf_tag_names tags_truthy]. unfold str_truthy at 1.
  rewrite Hne. cbn [negb].
  rewrite split_concat; [|discriminate|].
  - now apply clean_names_strip.
  - eapply Forall_impl; [|exact Hall]. intros a (_ & _ & Ha). exact Ha.
Qed.

Lemma bookmark_tag_ids_NoDup db bid :
  NoDup (bookmark_tags db) -> NoDup (bookmark_tag_ids db bid).
Proof.
  intros H.
  eapply Permutation_NoDup; [apply Permutation_sym, bookmark_tag_ids_perm|].
  induction (bookmark_tags db) as [|[a c] l IH]; simpl; [constructor|].
  inversion H as [|? ? Hnew Hrest]; subst.
  destruct (a =? bid) eqn:E; simpl; [|auto].
  constructor; [|auto]. intros Hin.
  apply in_map_iff in Hin as ([a' c'] & Ec & Hin). simpl in Ec. subst c'.
  apply filter_In in Hin as [Hin E']. simpl in E'.
  apply String.eqb_eq in E, E'. subst. contradiction.
Qed.

Lemma joined_tags_ids_NoDup db b :
  NoDup (bookmark_tags db) -> NoDup (map t_id (tags db)) ->
  NoDup (map t_id (joined_tags db b)).
Proof.
  intros Hbt Hts. unfold joined_tags.
  pose proof (bookmark_tag_ids_NoDup db (b_id b) Hbt) as Hids.
  induction (bookmark_tag_ids db (b_id b)) as [|tid ids IH]; [constructor|].
  inversion Hids as [|? ? Hnew Hrest]; subst. cbn [flat_map].
  rewrite map_app. apply NoDup_app.
  - clear - Hts. induction (tags db) as [|t ts IH]; [constructor|].
    simpl in Hts. inversion Hts as [|? ? Ht Hts']; subst. simpl.
    destruct (t_id t =? tid); [|now apply IH]. simpl.
    constructor; [|now apply IH].
    intros Hin. apply Ht. apply in_map_iff in Hin as (t' & E & Ht').
    apply filter_In in Ht' as [Ht' _]. rewrite <- E. now apply in_map.
  - now apply IH.
  - intros id H1 H2.
    apply in_map_iff in H1 as (t & <- & Ht). apply filter_In in Ht as [_ Ht].
    apply String.eqb_eq in Ht.
    apply in_map_iff in H2 as (t' & E' & Ht').
    apply in_flat_map in Ht' as (tid' & Htid' & Ht').
    apply filter_In in Ht' as [_ Ht']. apply String.eqb_eq in Ht'.
    apply Hnew. replace tid with tid' by congruence. assumption.
Qed.

Lemma joined_tags_names_NoDup db b :
  NoDup (bookmark_tags db) -> NoDup (map t_id (tags db)) ->
  NoDup (map t_name (tags db)) ->
  NoDup (map t_name (joined_tags db b)).
Proof.
  intros Hbt Hids Hnames.
  pose proof (joined_tags_ids_NoDup db b Hbt Hids) as Hj.
  apply NoDup_map_inv in Hj.
  assert (Hin : forall t, In t (joined_tags db b) -> In t (tags db))
    by (intros t; apply joined_tags_in).
  revert Hj Hin. generalize (joined_tags db b) as l.
  induction l as [|t l IH]; intros Hj Hin; [constructor|].
  inversion Hj as [|? ? Ht Hl]; subst. simpl.
  constructor; [|apply IH; [assumption | intros; apply Hin; now right]].
  intros H. apply in_map_iff in H as (t' & E & Ht'). apply Ht.
  replace t with t'; [assumption|].
  assert (Ht1 : In t (tags db)) by (apply Hin; now left).
  assert (Ht2 : In t' (tags db)) by (apply Hin; now right).
  clear - Hnames Ht1 Ht2 E.
  induction (tags db) as [|x ts IH]; [destruct Ht1|].
  simpl in Hnames. inversion Hnames as [|? ? Hx Hts]; subst.
  destruct Ht1 as [->|Ht1]; destruct Ht2 as [->|Ht2].
  - reflexivity.
  - exfalso. apply Hx. rewrite <- E. now apply in_map.
  - exfalso. apply Hx. rewrite E. now apply in_map.
  - now apply IH.
Qed.

(** The leaf the export writes for a bookmark. *)
Lemma leaf_of_shape db b :
  (forall t, In t (tags db) -> clean_tag_name (t_name t)) ->
  leaf_shape (leaf_of (b, group_concat (map t_name (joined_tags db b))))
  = bookmark_shape db b.
Proof.
  intros Hclean. unfold leaf_of, bookmark_node, leaf_shape, bookmark_shape.
  cbn [fst snd text_of get_text]. f_equal; [f_equal|f_equal].
  - destruct (b_description b) as [d|]; [|reflexivity].
    cbn [opt_truthy]. unfold str_truthy.
    destruct (d =? "") eqn:E; cbn [negb].
    + apply String.eqb_eq in E. now subst.
    + reflexivity.
  - apply clean_names_survive. apply Forall_forall. intros n Hn.
    apply in_map_iff in Hn as (t & <- & Ht). apply Hclean.
    eapply joined_tags_in; eassumption.
Qed.

Lemma leaf_of_wf db b :
  exportable db -> In b (bookmarks db) ->
  wf_doc (leaf_of (b, group_concat (map t_name (joined_tags db b)))).
Proof.
  intros (_ & _ & _ & Hurl & Hids & Hnames & Hbt & Hclean) Hb.
  unfold leaf_of, bookmark_node. cbn [fst snd].
  apply wf_leaf; [discriminate | now apply Hurl |].
  rewrite clean_names_survive.
  - now apply joined_tags_names_NoDup.
  - apply Forall_forall. intros n Hn.
    apply in_map_iff in Hn as (t & <- & Ht). apply Hclean.
    eapply joined_tags_in; eassumption.
Qed.

Lemma leaf_of_folders x encl : doc_folders (leaf_of x) encl = [].
Proof. reflexivity. Qed.

Lemma leaf_of_leaves x :
  b_url (fst x) <> "" -> doc_leaves (leaf_of x) = [leaf_of x].
Proof.
  intros H. unfold leaf_of, bookmark_node. cbn [doc_leaves].
  change (opt_eqb (Some place) place_container) with false.
  change (opt_eqb (Some place) place) with true. cbv iota.
  unfold opt_truthy, str_truthy. apply String.eqb_neq in H. now rewrite H.
Qed.

Lemma export_bookmarks_in db x :
  In x (export_bookmarks db) ->
  In (fst x) (bookmarks db) /\
  snd x = group_concat (map t_name (joined_tags db (fst x))).
Proof.
  unfold export_bookmarks. intros H. apply in_map_iff in H as (b & <- & Hb).
  split; [|reflexivity]. simpl.
  eapply Permutation_in; [apply bookmarks_by_id_perm|].
  eapply Permutation_in; [apply stable_sort_perm | exact Hb].
Qed.

Lemma flat_map_flat_map {A B C} (f : B -> list C) (g : A -> list B) l :
  flat_map f (flat_map g l) = flat_map (fun x => flat_map f (g x)) l.
Proof.
  induction l as [|x l IH]; [reflexivity|].
  simpl. now rewrite flat_map_app, IH.
Qed.

Lemma child_row rest id c :
  NoDup (map f_id rest) -> In c (child_ids rest id) ->
  forall r, In r rest -> f_id r = c -> f_parent_id r = Some id.
Proof.
  intros Hnd Hc r Hr E. unfold child_ids in Hc.
  apply in_map_iff in Hc as (rc & Erc & Hrc).
  apply filter_In in Hrc as [Hrc Hp]. apply opt_eqb_Some in Hp.
  assert (r = rc) by (eapply rows_same_id; try eassumption; congruence).
  now subst.
Qed.

Section ExportTree.

Variable leaves : string -> list node.
Hypothesis leaves_no_folders :
  forall id n e, In n (leaves id) -> doc_folders n e = [].
Hypothesis leaves_are_leaves :
  forall id n, In n (leaves id) -> doc_leaves n = [n].
Hypothesis leaves_wf : forall id n, In n (leaves id) -> wf_doc n.

Lemma container_folders id name children encl :
  ~ In id special_guids -> name <> "" ->
  doc_folders (container (Some id) (Some name) children) encl
  = (id, name, encl) :: flat_map (fun c => doc_folders c (Some id)) children.
Proof.
  intros Hid Hname. unfold container. cbn [doc_folders text_field get_text].
  change (opt_eqb (Some place_container) place_container) with true.
  cbv iota.
  destruct (mem id special_guids) eqn:E; [apply mem_In in E; contradiction|].
  unfold str_truthy. apply String.eqb_neq in Hname. now rewrite Hname.
Qed.

Lemma container_leaves id name children :
  ~ In id special_guids -> name <> "" ->
  doc_leaves (container (Some id) (Some name) children)
  = flat_map doc_leaves children.
Proof.
  intros Hid Hname. unfold container.
  cbn [doc_leaves text_field get_text opt_truthy].
  change (opt_eqb (Some place_container) place_container) with true.
  cbv iota.
  destruct (mem id special_guids) eqn:E; [apply mem_In in E; contradiction|].
  unfold str_truthy. apply String.eqb_neq in Hname. now rewrite Hname.
Qed.

Lemma export_tree_folders :
  forall l,
    NoDup (map f_id l) ->
    (forall r, In r l -> f_name r <> "" /\ ~ In (f_id r) special_guids) ->
    forall id encl,
      (forall r, In r l -> f_id r = id -> f_parent_id r = encl) ->
      flat_map (fun n => doc_folders n encl) (export_tree leaves l id)
      = collect (fun r => [folder_triple r]) (fun _ => []) l id.
Proof.
  induction l as [|r rest IH]; intros Hnd Hok id encl Henc; [reflexivity|].
  simpl in Hnd. inversion Hnd as [|? ? Hr Hnd']; subst.
  assert (Hok' : forall r, In r rest ->
                           f_name r <> "" /\ ~ In (f_id r) special_guids)
    by (intros x Hx; apply Hok; now right).
  cbn [export_tree collect]. destruct (f_id r =? id) eqn:E.
  - apply String.eqb_eq in E.
    destruct (Hok r (or_introl eq_refl)) as [Hname Hid]. rewrite E in Hid.
    cbn [flat_map]. rewrite app_nil_r, container_folders by assumption.
    unfold folder_triple. rewrite E, (Henc r (or_introl eq_refl) E).
    cbn [app]. f_equal. rewrite app_nil_r, flat_map_app.
    rewrite (flat_map_none _ (leaves id))
      by (intros n Hn; eapply leaves_no_folders; eassumption).
    rewrite app_nil_r, flat_map_flat_map. apply flat_map_ext_in.
    intros c Hc. apply IH; try assumption.
    intros r' Hr' Er'. eapply child_row; eassumption.
  - apply IH; try assumption. intros x Hx. apply Henc. now right.
Qed.

Lemma export_tree_leaves :
  forall l,
    (forall r, In r l -> f_name r <> "" /\ ~ In (f_id r) special_guids) ->
    forall id,
      flat_map doc_leaves (export_tree leaves l id)
      = collect (fun _ => []) (fun r => leaves (f_id r)) l id.
Proof.
  induction l as [|r rest IH]; intros Hok id; [reflexivity|].
  assert (Hok' : forall r, In r rest ->
                           f_name r <> "" /\ ~ In (f_id r) special_guids)
    by (intros x Hx; apply Hok; now right).
  cbn [export_tree collect]. destruct (f_id r =? id) eqn:E.
  - apply String.eqb_eq in E.
    destruct (Hok r (or_introl eq_refl)) as [Hname Hid]. rewrite E in Hid.
    cbn [flat_map app]. rewrite app_nil_r, container_leaves by assumption.
    rewrite flat_map_app, flat_map_flat_map, E. f_equal.
    + apply flat_map_ext_in. intros c _. now apply IH.
    + clear - leaves_are_leaves. specialize (leaves_are_leaves id).
      induction (leaves id) as [|n ns IHn]; [reflexivity|].
      cbn [flat_map]. rewrite (leaves_are_leaves n (or_introl eq_refl)).
      simpl. f_equal. apply IHn. intros m Hm. apply leaves_are_leaves. now right.
  - now apply IH.
Qed.

Lemma export_tree_wf :
  forall l,
    (forall r, In r l -> f_name r <> "" /\ ~ In (f_id r) special_guids) ->
    forall id, Forall wf_doc (export_tree leaves l id).
Proof.
  induction l as [|r rest IH]; intros Hok id; [constructor|].
  assert (Hok' : forall r, In r rest ->
                           f_name r <> "" /\ ~ In (f_id r) special_guids)
    by (intros x Hx; apply Hok; now right).
  cbn [export_tree]. destruct (f_id r =? id) eqn:E; [|now apply IH].
  apply String.eqb_eq in E.
  destruct (Hok r (or_introl eq_refl)) as [Hname Hid]. rewrite E in Hid.
  constructor; [|constructor]. apply wf_folder; try assumption.
  apply Forall_app. split.
  - apply Forall_forall. intros n Hn. apply in_flat_map in Hn as (c & _ & Hn).
    specialize (IH Hok' c). rewrite Forall_forall in IH. now apply IH.
  - apply Forall_forall. intros n Hn. eapply leaves_wf; eassumption.
Qed.

(** The tree of a folder is no higher than the number of rows it is
    built from, and one more for the leaves. *)
Lemma export_tree_depth :
  (forall id n, In n (leaves id) -> doc_depth n <= 1) ->
  forall l id n, In n (export_tree leaves l id) -> doc_depth n <= S (length l).
Proof.
  intros Hleaves. induction l as [|r rest IH]; intros id n Hn; [destruct Hn|].
  cbn [export_tree] in Hn. destruct (f_id r =? id).
  - destruct Hn as [<-|[]]. unfold container. cbn [doc_depth length].
    apply le_n_S. apply list_max_le. apply Forall_forall.
    intros k Hk. apply in_map_iff in Hk as (c & <- & Hc).
    apply in_app_or in Hc as [Hc|Hc].
    + apply in_flat_map in Hc as (i & _ & Hc). eapply IH; exact Hc.
    + apply Hleaves in Hc. lia.
  - apply IH in Hn. cbn [length]. lia.
Qed.

End ExportTree.

Lemma special_container_folders g t children encl :
  In g special_guids ->
  doc_folders (container (Some g) t children) encl
  = flat_map (fun c => doc_folders c encl) children.
Proof.
  intros Hg. unfold container. cbn [doc_folders].
  change (opt_eqb (Some place_container) place_container) with true.
  cbv iota. apply mem_In in Hg. now rewrite Hg.
Qed.

Lemma special_container_leaves g t children :
  In g special_guids ->
  doc_leaves (container (Some g) t children) = flat_map doc_leaves children.
Proof.
  intros Hg. unfold container. cbn [doc_leaves].
  change (opt_eqb (Some place_container) place_container) with true.
  cbv iota. apply mem_In in Hg. now rewrite Hg.
Qed.

Lemma parents_first_no_later :
  forall l2 l1,
    NoDup (map f_id (l1 ++ l2)) -> parents_first [] (l1 ++ l2) = true ->
    no_later_parent l2.
Proof.
  induction l2 as [|r rest IH]; intros l1 Hnd Hpf; [exact I|].
  split.
  - unfold is_top. destruct (f_parent_id r) as [p|] eqn:Hp; [|reflexivity].
    destruct (parents_first_split _ _ _ _ _ Hpf Hp) as [_ [[]|Hin]].
    apply negb_true_iff. destruct (mem p (map f_id (r :: rest))) eqn:E;
      [|reflexivity].
    apply mem_In in E. exfalso. rewrite map_app in Hnd.
    clear - Hnd Hin E. induction (map f_id l1) as [|x xs IHx]; [destruct Hin|].
    simpl in Hnd. inversion Hnd as [|? ? Hx Hxs]; subst.
    destruct Hin as [->|Hin].
    + apply Hx. apply in_or_app. now right.
    + now apply IHx.
  - apply (IH (l1 ++ [r])); now rewrite <- app_assoc.
Qed.

Lemma is_top_is_root fs r :
  parents_first [] fs = true -> In r fs -> is_top fs r = is_root r.
Proof.
  intros Hpf Hr. apply in_split in Hr as (a & b & ->).
  unfold is_top, is_root. destruct (f_parent_id r) as [p|] eqn:Hp; [|reflexivity].
  destruct (parents_first_split _ _ _ _ _ Hpf Hp) as [Hne [[]|Hin]].
  cbn [opt_truthy]. unfold str_truthy. apply String.eqb_neq in Hne.
  rewrite Hne. cbn [negb]. apply negb_false_iff. apply mem_In.
  rewrite map_app. apply in_or_app. now left.
Qed.

Lemma root_has_no_parent fs r :
  parents_first [] fs = true -> In r fs -> is_root r = true ->
  f_parent_id r = None.
Proof.
  intros Hpf Hr Hroot. apply in_split in Hr as (a & b & ->).
  destruct (f_parent_id r) as [p|] eqn:Hp; [|reflexivity].
  destruct (parents_first_split _ _ _ _ _ Hpf Hp) as [Hne _].
  unfold is_root in Hroot. rewrite Hp in Hroot. cbn [opt_truthy] in Hroot.
  unfold str_truthy in Hroot. apply String.eqb_neq in Hne.
  rewrite Hne in Hroot. discriminate.
Qed.

Lemma flat_map_singleton {A B} (f : A -> B) l :
  flat_map (fun x => [f x] ++ []) l = map f l.
Proof. induction l as [|x l IH]; [reflexivity|]. simpl. now f_equal. Qed.

Section ExportedDocument.

Variable db : database.
Hypothesis Hexp : exportable db.

Lemma exportable_leaves id n :
  In n (export_leaves (export_bookmarks db) id) ->
  (forall e, doc_folders n e = []) /\ doc_leaves n = [n] /\ wf_doc n.
Proof.
  unfold export_leaves. intros H. apply in_map_iff in H as (x & <- & Hx).
  apply filter_In in Hx as [Hx _].
  destruct (export_bookmarks_in db x Hx) as [Hb Hnames].
  pose proof Hexp as (_ & _ & _ & Hurl & _).
  split; [intros e; apply leaf_of_folders|].
  split; [apply leaf_of_leaves; now apply Hurl|].
  destruct x as [b names]. simpl in *. subst names. now apply leaf_of_wf.
Qed.

Lemma exportable_unorganized n :
  In n (export_unorganized (map f_id (export_folders db)) (export_bookmarks db)) ->
  (forall e, doc_folders n e = []) /\ doc_leaves n = [n] /\ wf_doc n.
Proof.
  unfold export_unorganized. intros H. apply in_map_iff in H as (x & <- & Hx).
  apply filter_In in Hx as [Hx _].
  destruct (export_bookmarks_in db x Hx) as [Hb Hnames].
  pose proof Hexp as (_ & _ & _ & Hurl & _).
  split; [intros e; apply leaf_of_folders|].
  split; [apply leaf_of_leaves; now apply Hurl|].
  destruct x as [b names]. simpl in *. subst names. now apply leaf_of_wf.
Qed.

Lemma exportable_rows r :
  In r (export_folders db) -> f_name r <> "" /\ ~ In (f_id r) special_guids.
Proof.
  intros Hr. pose proof Hexp as (_ & _ & Hrows & _). apply Hrows.
  eapply Permutation_in; [apply export_folders_perm | exact Hr].
Qed.

(** The folders of the exported document are the stored folders. *)
Lemma export_document_folders :
  Permutation (doc_folders (export_document db) None)
    (map folder_triple (folders db)).
Proof.
  pose proof Hexp as (Hnd & Hpf & _).
  pose proof (export_folders_NoDup db Hnd) as Hnd'.
  unfold export_document.
  set (fs := export_folders db) in *. set (bs := export_bookmarks db).
  rewrite special_container_folders by (simpl; auto).
  cbn [flat_map]. rewrite app_nil_r.
  rewrite special_container_folders by (simpl; auto 6).
  rewrite flat_map_app.
  rewrite (flat_map_none _ (export_unorganized (map f_id fs) bs))
    by (intros n Hn; now apply exportable_unorganized).
  rewrite app_nil_r, flat_map_flat_map.
  rewrite (flat_map_ext_in _
             (collect (fun r => [folder_triple r]) (fun _ => []) fs)).
  - rewrite <- (filter_ext_in (is_top fs) is_root fs)
      by (intros r Hr; now apply is_top_is_root).
    rewrite collect_forest;
      [| assumption | now apply (parents_first_no_later fs [])].
    rewrite flat_map_singleton.
    apply Permutation_map, export_folders_perm.
  - intros id Hid. apply in_map_iff in Hid as (r0 & <- & Hr0).
    apply filter_In in Hr0 as [Hr0 Hroot].
    apply export_tree_folders.
    + intros id n e Hn. now apply (exportable_leaves id n).
    + assumption.
    + apply exportable_rows.
    + intros r Hr E.
      assert (r = r0) by (eapply rows_same_id; eassumption). subst.
      eapply root_has_no_parent; eassumption.
Qed.

End ExportedDocument.

Lemma filed_in_two ids i x :
  ~ In i ids -> filed_in i x = true ->
  existsb (fun id => filed_in id x) ids = false.
Proof.
  intros Hi Hf. destruct (existsb _ ids) eqn:E; [|reflexivity].
  apply existsb_exists in E as (id & Hid & Hf').
  unfold filed_in in Hf, Hf'.
  apply andb_true_iff in Hf as [_ Hf], Hf' as [_ Hf'].
  apply opt_eqb_Some in Hf, Hf'. exfalso. apply Hi.
  replace i with id by congruence. assumption.
Qed.

(** Every leaf is filed under one folder or under the toolbar. *)
Lemma leaves_partition bs :
  forall ids,
    NoDup ids ->
    Permutation (flat_map (export_leaves bs) ids ++ export_unorganized ids bs)
      (map leaf_of bs).
Proof.
  induction ids as [|i ids IH]; intros Hnd.
  - simpl. unfold export_unorganized. simpl.
    replace (filter (fun _ => true) bs) with bs; [reflexivity|].
    clear. induction bs as [|x bs IH]; [reflexivity|]. simpl. now f_equal.
  - inversion Hnd as [|? ? Hi Hnd']; subst.
    rewrite <- (IH Hnd'). cbn [flat_map]. rewrite <- app_assoc.
    rewrite Permutation_app_comm, <- app_assoc.
    apply Permutation_app_head.
    unfold export_unorganized, export_leaves. rewrite <- map_app.
    apply Permutation_map. rewrite Permutation_app_comm.
    apply Permutation_sym. apply filter_split_perm.
    + intros x _. cbn [existsb].
      destruct (filed_in i x) eqn:E; simpl; [|reflexivity].
      now rewrite (filed_in_two ids i x Hi E).
    + intros x _. cbn [existsb]. destruct (filed_in i x); reflexivity.
Qed.

Lemma flat_map_self {A} (f : A -> list A) l :
  (forall x, In x l -> f x = [x]) -> flat_map f l = l.
Proof.
  induction l as [|x l IH]; intros H; [reflexivity|]. simpl.
  rewrite (H x (or_introl eq_refl)). simpl. f_equal. apply IH.
  intros y Hy. apply H. now right.
Qed.

Section ExportedLeaves.

Variable db : database.
Hypothesis Hexp : exportable db.

(** The leaves of the exported document are the stored bookmarks. *)
Lemma export_document_leaves :
  Permutation (doc_leaves (export_document db))
    (map leaf_of (export_bookmarks db)).
Proof.
  pose proof Hexp as (Hnd & Hpf & _).
  pose proof (export_folders_NoDup db Hnd) as Hnd'.
  unfold export_document.
  set (fs := export_folders db) in *. set (bs := export_bookmarks db).
  rewrite special_container_leaves by (simpl; auto).
  cbn [flat_map]. rewrite app_nil_r.
  rewrite special_container_leaves by (simpl; auto 6).
  rewrite flat_map_app.
  rewrite (flat_map_self doc_leaves (export_unorganized (map f_id fs) bs))
    by (intros n Hn; now apply (exportable_unorganized db Hexp n)).
  rewrite flat_map_flat_map.
  rewrite (flat_map_ext_in _
             (collect (fun _ => []) (fun r => export_leaves bs (f_id r)) fs)).
  - rewrite <- (filter_ext_in (is_top fs) is_root fs)
      by (intros r Hr; now apply is_top_is_root).
    rewrite collect_forest;
      [| assumption | now apply (parents_first_no_later fs [])].
    cbn [app]. rewrite <- (leaves_partition bs (map f_id fs) Hnd').
    apply Permutation_app_tail.
    rewrite flat_map_concat_map, <- map_map, <- flat_map_concat_map.
    reflexivity.
  - intros id Hid. apply export_tree_leaves.
    + intros id' n Hn. now apply (exportable_leaves db Hexp id' n).
    + now apply exportable_rows.
Qed.

Lemma export_document_wf : wf_doc (export_document db).
Proof.
  unfold export_document. unfold container at 1.
  apply wf_special; [simpl; auto|]. constructor; [|constructor].
  unfold container at 1. apply wf_special; [simpl; auto 6|].
  apply Forall_app. split.
  - apply Forall_forall. intros n Hn. apply in_flat_map in Hn as (id & _ & Hn).
    pose proof (export_tree_wf (export_leaves (export_bookmarks db))) as H.
    specialize (H (fun id n Hn => proj2 (proj2 (exportable_leaves db Hexp id n Hn)))
                  (export_folders db) (exportable_rows db Hexp) id).
    rewrite Forall_forall in H. now apply H.
  - apply Forall_forall. intros n Hn.
    now apply (exportable_unorganized db Hexp n).
Qed.

(** The leaves have the shapes of the stored bookmarks. *)
Lemma export_bookmarks_shapes :
  Permutation (map leaf_shape (map leaf_of (export_bookmarks db)))
    (map (bookmark_shape db) (bookmarks db)).
Proof.
  pose proof Hexp as (_ & _ & _ & _ & _ & _ & _ & Hclean).
  unfold export_bookmarks. rewrite !map_map.
  rewrite (map_ext _ (bookmark_shape db))
    by (intros b; now apply leaf_of_shape).
  apply Permutation_map. rewrite stable_sort_perm.
  apply bookmarks_by_id_perm.
Qed.

End ExportedLeaves.

(** *** The round trip *)

Lemma renaming_unique L p :
  NoDup (map (fun q => fst (fst (fst q))) L) -> In p L ->
  renaming L (fst (fst (fst p))) = f_id (snd p).
Proof.
  unfold renaming. induction L as [|q L IH]; intros Hnd Hp; [destruct Hp|].
  simpl in Hnd. inversion Hnd as [|? ? Hq HL]; subst. cbn [find].
  destruct Hp as [->|Hp].
  - now rewrite String.eqb_refl.
  - destruct (fst (fst (fst q)) =? fst (fst (fst p))) eqn:E.
    + apply String.eqb_eq in E. exfalso. apply Hq. rewrite E.
      apply in_map_iff. eauto.
    + now apply IH.
Qed.

Lemma init_db_import_ok uuid4 now : import_ok uuid4 (init_db now).
Proof.
  unfold import_ok, init_db, folder_ids. simpl.
  split; [intros r []|]. split; [intros b []|]. split; [intros t []|].
  split; [intros bt []|]. split; [constructor|]. split; constructor.
Qed.

Lemma container_depth g t children k :
  (forall c, In c children -> doc_depth c <= k) ->
  doc_depth (container g t children) <= S k.
Proof.
  intros H. unfold container. cbn [doc_depth].
  apply le_n_S, list_max_le, Forall_forall. intros x Hx.
  apply in_map_iff in Hx as (c & <- & Hc). now apply H.
Qed.

(** The exported document is no higher than the number of folders, and
    three more for the root, the toolbar and the leaves. *)
Lemma export_document_depth db :
  doc_depth (export_document db) <= length (folders db) + 3.
Proof.
  assert (Hlen : length (export_folders db) = length (folders db))
    by (apply Permutation_length, export_folders_perm).
  unfold export_document.
  replace (length (folders db) + 3) with (S (S (S (length (folders db)))))
    by lia.
  apply container_depth. intros toolbar [<-|[]].
  apply container_depth. intros c Hc. apply in_app_or in Hc as [Hc|Hc].
  - apply in_flat_map in Hc as (id & _ & Hc). rewrite <- Hlen.
    eapply export_tree_depth; [|exact Hc].
    intros i n Hn. unfold export_leaves in Hn.
    apply in_map_iff in Hn as (x & <- & _). apply le_n.
  - unfold export_unorganized in Hc.
    apply in_map_iff in Hc as (x & <- & _). cbn. lia.
Qed.

(** C2, as amended. For a store whose folder rows, read in name order,
    come parents first (every parent reference is null or the id of a
    folder read earlier), whose folders have names that are not empty,
    whose bookmarks have URLs that are not empty and whose tag names are
    not empty, contain no comma and no space at either end: exporting and
    importing the document into an empty store, with a recursion budget
    above the number of folders plus two, succeeds and gives the same
    folders (names and parent relation, up to a renaming of the
    identifiers), and the same bookmarks (URL, title, description with
    null read as empty, and set of tag names). *)
Theorem export_import_round_trip
  (uuid4 : nat -> string) (fav : string -> option string)
  (db : database) (fuel : nat) (now : string) :
  (forall i j, uuid4 i = uuid4 j -> i = j) ->
  exportable db -> length (folders db) + 2 < fuel ->
  exists doc stats db' rho,
    read_export fuel (export_to_firefox_json db) = Ok doc /\
    import_from_firefox_json uuid4 fav fuel doc (init_db now)
    = (Ok stats, db') /\
    NoDup (folder_ids db') /\
    Permutation (map folder_triple (folders db'))
      (map (rename_folder rho) (folders db)) /\
    Permutation (map (bookmark_shape db') (bookmarks db'))
      (map (bookmark_shape db) (bookmarks db)).
Proof.
  intros Hinj Hexp Hfuel.
  pose proof Hexp as (Hnd & Hpf & _).
  exists (export_document db).
  assert (Hdepth : doc_depth (export_document db) <= fuel)
    by (pose proof (export_document_depth db); lia).
  destruct (process_container_ok uuid4 fav Hinj (export_document db)
              (export_document_wf db Hexp) fuel None None
              (mk_import (init_db now) (mk_stats 0 0 0) []) Hdepth
              (init_db_import_ok uuid4 now))
    as (st' & Hr & Hok' & L & BR & HL & Hf & Hrow & Hb & Hsh & _).
  cbn [i_db init_db folders bookmarks app] in Hf, Hb.
  exists (i_stats st'), (i_db st'), (renaming L).
  split; [apply read_export_document; [assumption | assumption | lia]|].
  split; [unfold import_from_firefox_json; rewrite Hr; reflexivity|].
  split; [apply Hok'|].
  assert (Hguids : NoDup (map (fun q => fst (fst (fst q))) L)).
  { assert (Hperm : Permutation (map (fun q => fst (fst (fst q))) L)
                      (folder_ids db)).
    { replace (map (fun q => fst (fst (fst q))) L)
        with (map (fun tr : string * string * option string => fst (fst tr))
                (map fst L)) by (now rewrite map_map).
      rewrite HL, (export_document_folders db Hexp), map_map. reflexivity. }
    eapply Permutation_NoDup; [apply Permutation_sym; exact Hperm | exact Hnd]. }
  split.
  - set (F := fun tr : string * string * option string =>
                (renaming L (fst (fst tr)), snd (fst tr),
                 option_map (renaming L) (snd tr))).
    assert (Hrows : map folder_triple (map snd L) = map F (map fst L)).
    { rewrite !map_map. apply map_ext_in. intros p Hp.
      destruct (Hrow p Hp) as (Hname & Hpar).
      unfold folder_triple, F.
      rewrite (renaming_unique L p Hguids Hp), Hname.
      f_equal. destruct Hpar as [(He & Hpar) | (q & Hq & He & Hpar)].
      - rewrite He, Hpar. reflexivity.
      - rewrite He, Hpar. cbn [option_map].
        now rewrite (renaming_unique L q Hguids Hq). }
    rewrite Hf, Hrows, HL.
    rewrite (export_document_folders db Hexp), map_map. reflexivity.
  - rewrite Hb, Hsh.
    rewrite (Permutation_map leaf_shape (export_document_leaves db Hexp)).
    now apply export_bookmarks_shapes.
Qed.

Lemma tally_uuid4_inj i j : tally_uuid4 i = tally_uuid4 j -> i = j.
Proof.
  unfold tally_uuid4. intros [= H]. revert j H.
  induction i as [|i IH]; intros [|j] H; try discriminate; [reflexivity|].
  injection H as H. f_equal. now apply IH.
Qed.

Lemma tidy_db_exportable : exportable tidy_db.
Proof.
  unfold exportable, folder_ids. simpl.
  split; [repeat constructor; simpl; intuition discriminate|].
  split; [reflexivity|].
  split.
  { intros r [<-|[<-|[<-|[<-|[]]]]]; simpl;
      (split; [discriminate | intuition discriminate]). }
  split.
  { intros b [<-|[<-|[<-|[]]]]; simpl; discriminate. }
  split; [repeat constructor; simpl; intuition discriminate|].
  split; [repeat constructor; simpl; intuition discriminate|].
  split; [repeat constructor; simpl; intuition discriminate|].
  intros t [<-|[<-|[]]]; simpl; (split; [reflexivity|]; split;
                                 [discriminate | reflexivity]).
Qed.

Lemma export_import_round_trip_witness :
  exists doc stats db' rho,
    read_export 7 (export_to_firefox_json tidy_db) = Ok doc /\
    import_from_firefox_json tally_uuid4 no_favicon 7 doc
      (init_db "2024-02-01 00:00:00") = (Ok stats, db') /\
    NoDup (folder_ids db') /\
    Permutation (map folder_triple (folders db'))
      (map (rename_folder rho) (folders tidy_db)) /\
    Permutation (map (bookmark_shape db') (bookmarks db'))
      (map (bookmark_shape tidy_db) (bookmarks tidy_db)).
Proof.
  apply (export_import_round_trip tally_uuid4 no_favicon tidy_db 7
           "2024-02-01 00:00:00").
  - exact tally_uuid4_inj.
  - exact tidy_db_exportable.
  - simpl. lia.
Defined.

(** The round trip of [tidy_db], evaluated: the export lists the tags of
    "xkcd" by tag id, "dev,fun stuff", and the import attaches them in
    that order. *)
Example round_trip_of_tidy_db :
  exists doc db',
    read_export 7 (export_to_firefox_json tidy_db) = Ok doc /\
    import_from_firefox_json tally_uuid4 no_favicon 7 doc
      (init_db "2024-02-01 00:00:00") = (Ok (mk_stats 3 4 2), db') /\
    map snd (export_bookmarks tidy_db)
    = [None; Some "dev,fun stuff"; Some "dev"] /\
    map folder_triple (folders db')
    = [("u", "Archive", None); ("ux", "Books", Some "u");
       ("uxx", "Comics", Some "ux"); ("uxxxxxx", "Work", None)] /\
    map (bookmark_shape db') (bookmarks db')
    = [("https://xkcd.com", "xkcd", "", ["dev"; "fun stuff"]);
       ("https://python.org", "Python", "language", ["dev"]);
       ("https://example.org", "Example", "", [])].
Proof.
  eexists. eexists.
  split; [vm_compute; reflexivity|]. split; [vm_compute; reflexivity|].
  split; [vm_compute; reflexivity|].
  split; vm_compute; reflexivity.
Qed.

(** C2, as stated, fails: a tag whose name contains a comma comes back as
    two tags. *)
Lemma round_trip_splits_tag_with_comma :
  exists doc db',
    read_export 1000 (export_to_firefox_json comma_db) = Ok doc /\
    import_from_firefox_json tally_uuid4 no_favicon 1000 doc
      (init_db "2024-02-01 00:00:00") = (Ok (mk_stats 1 0 2), db') /\
    map (bookmark_shape comma_db) (bookmarks comma_db)
    = [("https://io.example", "IO", "", ["read,write"])] /\
    map (bookmark_shape db') (bookmarks db')
    = [("https://io.example", "IO", "", ["read"; "write"])] /\
    ~ Permutation (map (bookmark_shape db') (bookmarks db'))
        (map (bookmark_shape comma_db) (bookmarks comma_db)).
Proof.
  eexists. eexists.
  split; [vm_compute; reflexivity|]. split; [vm_compute; reflexivity|].
  split; [vm_compute; reflexivity|]. split; [vm_compute; reflexivity|].
  intros H. vm_compute in H. apply Permutation_length_1_inv in H.
  discriminate.
Qed.

(** * Properties of the other operations *)

(** ** Folder lookup and listing *)

Lemma select_folder_Some db id r :
  select_folder db id = Some r -> In r (folders db) /\ f_id r = id.
Proof.
  unfold select_folder.
  destruct (filter _ (folders db)) as [|x l] eqn:E; [discriminate|].
  intros [= <-].
  assert (H : In x (filter (fun r => f_id r =? id) (folders db)))
    by (rewrite E; now left).
  apply filter_In in H as [H1 H2]. apply String.eqb_eq in H2. auto.
Qed.

Lemma select_folder_None db id :
  select_folder db id = None -> ~ In id (folder_ids db).
Proof.
  unfold select_folder.
  destruct (filter _ (folders db)) as [|x l] eqn:E; [|discriminate].
  intros _ Hin. unfold folder_ids in Hin.
  apply in_map_iff in Hin as (r & Hid & Hr).
  assert (H : In r (filter (fun r => f_id r =? id) (folders db))).
  { apply filter_In. split; [assumption|]. now apply String.eqb_eq. }
  rewrite E in H. destruct H.
Qed.

Lemma select_folder_stored db r :
  NoDup (folder_ids db) -> In r (folders db) ->
  select_folder db (f_id r) = Some r.
Proof.
  intros Hnd Hr. destruct (select_folder db (f_id r)) as [x|] eqn:E.
  - apply select_folder_Some in E as [Hx Hid]. f_equal.
    eapply row_unique; eassumption.
  - apply select_folder_None in E. exfalso. apply E.
    unfold folder_ids. now apply in_map.
Qed.

Lemma parent_chain_loop_finishes db (Hac : acyclic db) :
  forall rounds cur chain seen,
    NoDup seen -> incl seen (folder_ids db) ->
    (forall s p, In s seen -> cur = Some p ->
                 clos_trans string (parent_edge db) s p) ->
    length (folders db) < rounds + length seen ->
    exists up,
      parent_chain_loop rounds db cur chain = Finished (rev up ++ chain) /\
      climbs db cur up.
Proof.
  induction rounds as [|rounds IH]; intros cur chain seen Hnd Hincl Hpath Hlen.
  - exfalso. apply NoDup_incl_length in Hincl; [|assumption].
    unfold folder_ids in Hincl. rewrite length_map in Hincl. simpl in Hlen. lia.
  - cbn [parent_chain_loop].
    destruct (opt_truthy cur) eqn:Ht.
    2:{ exists []. split; [reflexivity|]. now left. }
    destruct cur as [p|]; [|discriminate].
    destruct (select_folder db p) as [parent|] eqn:Hsel.
    2:{ exists []. split; [reflexivity|]. right. exists p.
        split; [reflexivity | now apply select_folder_None]. }
    apply select_folder_Some in Hsel as [Hin Hid].
    assert (Hfresh : ~ In p seen).
    { intros Hs. apply (Hac p). now apply Hpath. }
    destruct (IH (f_parent_id parent) (parent :: chain) (p :: seen))
      as (up & Hrun & Hup).
    + now constructor.
    + intros x [<-|Hx]; [|now apply Hincl].
      rewrite <- Hid. unfold folder_ids. now apply in_map.
    + intros s q Hs Hq.
      assert (Hedge : parent_edge db p q) by (exists parent; auto).
      destruct Hs as [<-|Hs]; [now apply t_step|].
      eapply t_trans; [apply Hpath; [exact Hs | reflexivity] | now apply t_step].
    + simpl. lia.
    + exists (parent :: up). split.
      * rewrite Hrun. simpl. now rewrite <- app_assoc.
      * simpl. split; [now rewrite Hid|]. split; [|split; assumption].
        rewrite Hid. intros ->. discriminate.
Qed.

(** X1. [get_folder] on a store with unique folder ids and no parent
    cycle, given as many rounds as there are folders: an id that is not
    stored yields [None]; a stored folder is returned with a
    [parent_chain] that lists, outermost first, the stored folders met
    when following parent references upwards, ending where the reference
    is null or empty or matches no stored folder. *)
Theorem get_folder_parent_chain (db : database) (rounds : nat) :
  NoDup (folder_ids db) -> acyclic db -> length (folders db) <= rounds ->
  (forall folder_id, ~ In folder_id (folder_ids db) ->
                     get_folder rounds db folder_id = Finished None) /\
  (forall r, In r (folders db) ->
     exists chain,
       get_folder rounds db (f_id r) = Finished (Some (r, chain)) /\
       climbs db (f_parent_id r) (rev chain)).
Proof.
  intros Hnd Hac Hlen. split.
  - intros id Hid. unfold get_folder.
    destruct (select_folder db id) as [x|] eqn:E; [|reflexivity].
    apply select_folder_Some in E as [Hx <-]. exfalso. apply Hid.
    unfold folder_ids. now apply in_map.
  - intros r Hr. unfold get_folder. rewrite select_folder_stored by assumption.
    destruct (parent_chain_loop_finishes db Hac rounds (f_parent_id r) []
                [f_id r]) as (up & Hrun & Hup).
    + repeat constructor. intros [].
    + intros x [<-|[]]. unfold folder_ids. now apply in_map.
    + intros s p [<-|[]] Hp. apply t_step. exists r. auto.
    + simpl. lia.
    + rewrite Hrun. rewrite app_nil_r. exists (rev up).
      split; [reflexivity|]. now rewrite rev_involutive.
Qed.

Lemma string_compare_refl (s : string) : String.compare s s = Eq.
Proof.
  pose proof (proj2 (String_as_OT.cmp_eq s s) eq_refl) as H.
  exact H.
Qed.

Lemma string_compare_lt_trans (a b c : string) :
  String.compare a b = Lt -> String.compare b c = Lt -> String.compare a c = Lt.
Proof.
  intros Hab Hbc. apply String_as_OT.cmp_lt in Hab, Hbc.
  apply String_as_OT.cmp_lt. eapply String_as_OT.lt_trans; eassumption.
Qed.

Lemma parent_id_compare_eq a b : parent_id_compare a b = Eq -> a = b.
Proof.
  destruct a, b; simpl; try discriminate; [|reflexivity].
  intros H. apply String.compare_eq_iff in H. now subst.
Qed.

Lemma parent_id_compare_antisym a b :
  parent_id_compare a b = CompOpp (parent_id_compare b a).
Proof.
  destruct a, b; simpl; try reflexivity. apply String.compare_antisym.
Qed.

Lemma parent_id_compare_lt_trans a b c :
  parent_id_compare a b = Lt -> parent_id_compare b c = Lt ->
  parent_id_compare a c = Lt.
Proof.
  destruct a, b, c; simpl; try discriminate; try reflexivity.
  apply string_compare_lt_trans.
Qed.

Lemma folder_list_le_total a b :
  folder_list_le a b = false -> folder_list_le b a = true.
Proof.
  unfold folder_list_le.
  rewrite (parent_id_compare_antisym (f_parent_id (h_row b))).
  destruct (parent_id_compare (f_parent_id (h_row a)) (f_parent_id (h_row b)));
    simpl; try discriminate; [|reflexivity].
  apply string_leb_total.
Qed.

Lemma folder_list_le_trans a b c :
  folder_list_le a b = true -> folder_list_le b c = true ->
  folder_list_le a c = true.
Proof.
  unfold folder_list_le.
  destruct (parent_id_compare (f_parent_id (h_row a)) (f_parent_id (h_row b)))
    eqn:Eab; try discriminate;
    destruct (parent_id_compare (f_parent_id (h_row b)) (f_parent_id (h_row c)))
      eqn:Ebc; try discriminate.
  - apply parent_id_compare_eq in Eab. rewrite Eab, Ebc.
    apply string_leb_trans.
  - apply parent_id_compare_eq in Eab. rewrite Eab, Ebc. reflexivity.
  - apply parent_id_compare_eq in Ebc. rewrite <- Ebc, Eab. reflexivity.
  - rewrite (parent_id_compare_lt_trans _ _ _ Eab Ebc). reflexivity.
Qed.

(** X2. [get_all_folders] lists every folder exactly once with the
    number of its immediate subfolders; no folder with a parent stands
    before a folder without one, and folders with the same parent
    reference stand in ascending order of their names. *)
Theorem get_all_folders_lists_every_folder (db : database) :
  Permutation (map h_row (get_all_folders db)) (folders db) /\
  (forall n, In n (get_all_folders db) ->
     h_subfolder_count n = length (select_child_ids db (f_id (h_row n)))) /\
  (forall l1 a l2 b l3,
     map h_row (get_all_folders db) = l1 ++ a :: l2 ++ b :: l3 ->
     (f_parent_id b = None -> f_parent_id a = None) /\
     (f_parent_id a = f_parent_id b ->
      String.leb (f_name a) (f_name b) = true)).
Proof.
  unfold get_all_folders. split; [|split].
  - rewrite stable_sort_perm. unfold hierarchy_rows.
    rewrite map_map. simpl. rewrite map_id. apply folders_by_id_perm.
  - intros n Hn. eapply Permutation_in in Hn; [|apply stable_sort_perm].
    unfold hierarchy_rows in Hn. apply in_map_iff in Hn as (f & <- & _).
    simpl. unfold count_subfolders, select_child_ids. now rewrite length_map.
  - intros l1 a l2 b l3 Hrows.
    assert (Hs : StronglySorted
                   (fun x y => folder_list_le x y = true)
                   (stable_sort folder_list_le (hierarchy_rows db)))
      by (apply stable_sort_sorted;
          [apply folder_list_le_total | apply folder_list_le_trans]).
    revert Hrows Hs. generalize (stable_sort folder_list_le (hierarchy_rows db)).
    intros l Hrows Hs.
    apply map_eq_app in Hrows as (k1 & k2 & -> & <- & Hk2).
    destruct k2 as [|na k2]; [discriminate|]. simpl in Hk2.
    injection Hk2 as <- Hk2.
    apply map_eq_app in Hk2 as (k3 & k4 & -> & <- & Hk4).
    destruct k4 as [|nb k4]; [discriminate|]. simpl in Hk4.
    injection Hk4 as <- _.
    apply StronglySorted_pair in Hs. unfold folder_list_le in Hs.
    destruct (parent_id_compare (f_parent_id (h_row na))
                (f_parent_id (h_row nb))) eqn:E; try discriminate.
    + apply parent_id_compare_eq in E. split; [congruence | intros _; exact Hs].
    + split.
      * intros Hb. rewrite Hb in E. destruct (f_parent_id (h_row na)); [discriminate|reflexivity].
      * intros Heq. rewrite Heq in E.
        destruct (f_parent_id (h_row nb)) as [x|]; simpl in E; [|discriminate].
        rewrite string_compare_refl in E. discriminate.
Qed.


(** ** The folder tree *)

Lemma dict_equiv_refl d : dict_equiv d d.
Proof. intros k. destruct (dict_get k d); auto. Qed.

Lemma dict_equiv_trans d1 d2 d3 :
  dict_equiv d1 d2 -> dict_equiv d2 d3 -> dict_equiv d1 d3.
Proof.
  intros H12 H23 k. specialize (H12 k). specialize (H23 k).
  destruct (dict_get k d1), (dict_get k d2), (dict_get k d3); try tauto.
  destruct H12 as (A1 & A2 & A3 & A4), H23 as (B1 & B2 & B3 & B4).
  repeat split; try congruence. now rewrite A4.
Qed.

Lemma dict_equiv_sym d1 d2 : dict_equiv d1 d2 -> dict_equiv d2 d1.
Proof.
  intros H k. specialize (H k).
  destruct (dict_get k d1), (dict_get k d2); try tauto.
  destruct H as (A1 & A2 & A3 & A4). repeat split; try congruence.
  now apply Permutation_sym.
Qed.

Lemma dict_equiv_name d d' k :
  dict_equiv d d' -> name_of_ref d k = name_of_ref d' k.
Proof.
  intros H. specialize (H k). unfold name_of_ref.
  destruct (dict_get k d), (dict_get k d'); try tauto.
  destruct H as (A1 & _). now rewrite A1.
Qed.

Lemma key_le_equiv d d' a b : dict_equiv d d' -> key_le d a b -> key_le d' a b.
Proof.
  intros H. unfold key_le.
  now rewrite (dict_equiv_name d d' a H), (dict_equiv_name d d' b H).
Qed.

Lemma StronglySorted_impl {A} (R S : A -> A -> Prop) l :
  (forall a b, R a b -> S a b) -> StronglySorted R l -> StronglySorted S l.
Proof.
  intros HRS. induction 1 as [|x l Hl IH Hx]; constructor; [assumption|].
  eapply Forall_impl; [|exact Hx]. intros y. apply HRS.
Qed.

Lemma dict_equiv_set d k n cs :
  dict_get k d = Some n -> Permutation (h_children n) cs ->
  dict_equiv d (dict_set k (with_children n cs) d).
Proof.
  intros Hget Hperm k'. destruct (string_dec k k') as [<-|Hne].
  - rewrite dict_get_set_same, Hget. simpl. auto.
  - rewrite dict_get_set_other by assumption.
    destruct (dict_get k' d); auto.
Qed.

Lemma reachable_ref_equiv d d' l x :
  dict_equiv d d' -> reachable_ref d l x -> reachable_ref d' l x.
Proof.
  intros He. induction 1 as [k Hk | k c n Hk IH Hget Hc].
  - now apply reach_root.
  - specialize (He k). rewrite Hget in He.
    destruct (dict_get k d') as [n'|] eqn:Hget'; [|contradiction].
    destruct He as (_ & _ & _ & Hperm).
    eapply reach_child; [exact IH | exact Hget' |].
    eapply Permutation_in; eassumption.
Qed.

Lemma reachable_ref_roots d l l' x :
  (forall y, In y l -> In y l') -> reachable_ref d l x -> reachable_ref d l' x.
Proof.
  intros Hincl. induction 1 as [k Hk | k c n Hk IH Hget Hc].
  - apply reach_root. now apply Hincl.
  - eapply reach_child; eassumption.
Qed.

Lemma reachable_ref_split d l x :
  reachable_ref d l x -> exists y, In y l /\ reachable_ref d [y] x.
Proof.
  induction 1 as [k Hk | k c n Hk IH Hget Hc].
  - exists k. split; [assumption|]. apply reach_root. now left.
  - destruct IH as (y & Hy & Hr). exists y. split; [assumption|].
    eapply reach_child; eassumption.
Qed.

Lemma reachable_ref_below d key x :
  reachable_ref d [key] x ->
  x = key \/
  exists n, dict_get key d = Some n /\ reachable_ref d (h_children n) x.
Proof.
  induction 1 as [k Hk | k c n Hk IH Hget Hc].
  - destruct Hk as [<-|[]]. now left.
  - right. destruct IH as [->|(n0 & Hget0 & Hr)].
    + exists n. split; [assumption|]. now apply reach_root.
    + exists n0. split; [assumption|]. eapply reach_child; eassumption.
Qed.

Lemma key_le_total d a b :
  (fun a b => String.leb (folder_sort_key (name_of_ref d a))
                (folder_sort_key (name_of_ref d b))) a b = false ->
  (fun a b => String.leb (folder_sort_key (name_of_ref d a))
                (folder_sort_key (name_of_ref d b))) b a = true.
Proof. apply string_leb_total. Qed.

Lemma sort_refs_sorted d l : StronglySorted (key_le d) (sort_refs d l).
Proof.
  unfold sort_refs, key_le.
  apply (stable_sort_sorted
           (fun a b => String.leb (folder_sort_key (name_of_ref d a))
                         (folder_sort_key (name_of_ref d b)))).
  - intros a b. apply string_leb_total.
  - intros a b c. apply string_leb_trans.
Qed.

Lemma sort_refs_perm d l : Permutation l (sort_refs d l).
Proof. apply Permutation_sym, stable_sort_perm. Qed.

(** Giving a folder a sorted permutation of its children keeps what is
    sorted sorted, and sorts the folder. *)
Lemma sorted_at_set d k n cs x :
  dict_get k d = Some n -> Permutation (h_children n) cs ->
  StronglySorted (key_le d) cs ->
  (x = k \/ sorted_at d x) ->
  sorted_at (dict_set k (with_children n cs) d) x.
Proof.
  intros Hget Hperm Hcs Hx n' Hget'.
  pose proof (dict_equiv_set d k n cs Hget Hperm) as He.
  apply StronglySorted_impl with (R := key_le d);
    [intros a b; now apply key_le_equiv|].
  destruct (string_dec k x) as [<-|Hne].
  - rewrite dict_get_set_same in Hget'. injection Hget' as <-. exact Hcs.
  - rewrite dict_get_set_other in Hget' by assumption.
    destruct Hx as [->|Hx]; [congruence|]. now apply Hx.
Qed.

Lemma sort_children_each_post rec :
  (forall d l d' l', rec d l = Ok (d', l') -> sort_post d l d' l') ->
  forall l d dfin,
    sort_children_each rec l d = Ok dfin ->
    dict_equiv d dfin /\
    (forall x, sorted_at d x -> sorted_at dfin x) /\
    (forall y x, In y l -> reachable_ref dfin [y] x -> sorted_at dfin x).
Proof.
  intros Hrec. induction l as [|key rest IH]; intros d dfin Hrun.
  - simpl in Hrun. injection Hrun as <-.
    split; [apply dict_equiv_refl|]. split; [auto|]. intros y x [].
  - cbn [sort_children_each] in Hrun.
    destruct (dict_get key d) as [folder|] eqn:Hget.
    2:{ destruct (IH _ _ Hrun) as (He & Hpres & Hsub).
        split; [assumption|]. split; [assumption|].
        intros y x [<-|Hy] Hr; [|eapply Hsub; eassumption].
        apply reachable_ref_below in Hr as [->|(n & Hn & _)].
        - intros n Hn. specialize (He key). rewrite Hget, Hn in He. contradiction.
        - specialize (He key). rewrite Hget, Hn in He. contradiction. }
    destruct (h_children folder) as [|c0 cs0] eqn:Hch.
    { destruct (IH _ _ Hrun) as (He & Hpres & Hsub).
      split; [assumption|]. split; [assumption|].
      intros y x [<-|Hy] Hr; [|eapply Hsub; eassumption].
      pose proof (He key) as Hy. rewrite Hget in Hy.
      destruct (dict_get key dfin) as [n'|] eqn:Hn'; [|contradiction].
      destruct Hy as (_ & _ & _ & Hperm). rewrite Hch in Hperm.
      apply Permutation_nil in Hperm.
      apply reachable_ref_below in Hr as [->|(n & Hn & Hr)].
      - intros n Hn. assert (n = n') by congruence. subst.
        rewrite Hperm. constructor.
      - assert (n = n') by congruence. subst. rewrite Hperm in Hr.
        apply reachable_ref_split in Hr as (z & [] & _). }
    rewrite <- Hch in Hrun.
    destruct (rec d (h_children folder)) as [[d1 cs]|e] eqn:Hr1;
      [|discriminate].
    simpl in Hrun.
    destruct (Hrec _ _ _ _ Hr1) as (He1 & Hcs & Hpres1 & Hsub1).
    pose proof (He1 key) as Hk. rewrite Hget in Hk.
    destruct (dict_get key d1) as [folder'|] eqn:Hget1; [|contradiction].
    destruct Hk as (Hrow & Hbc & Hsc & Hperm1).
    assert (Hperm2 : Permutation (h_children folder') cs).
    { rewrite <- Hperm1, Hcs. apply sort_refs_perm. }
    assert (Hsorted : StronglySorted (key_le d1) cs).
    { rewrite Hcs. apply StronglySorted_impl with (R := key_le d);
        [intros a b; now apply key_le_equiv | apply sort_refs_sorted]. }
    set (d2 := dict_set key (with_children folder' cs) d1) in *.
    assert (He12 : dict_equiv d1 d2) by now apply dict_equiv_set.
    destruct (IH _ _ Hrun) as (He & Hpres & Hsub).
    assert (Hpres12 : forall x, x = key \/ sorted_at d1 x -> sorted_at d2 x).
    { intros x Hx. now apply sorted_at_set. }
    split; [|split].
    + eapply dict_equiv_trans; [exact He1|].
      eapply dict_equiv_trans; [exact He12 | exact He].
    + intros x Hx. apply Hpres, Hpres12. right. now apply Hpres1.
    + intros y x [<-|Hy] Hr; [|eapply Hsub; eassumption].
      apply Hpres.
      apply (reachable_ref_equiv dfin d2) in Hr; [|now apply dict_equiv_sym].
      apply reachable_ref_below in Hr as [->|(n & Hn & Hr)].
      * apply Hpres12. now left.
      * unfold d2 in Hn. rewrite dict_get_set_same in Hn. injection Hn as <-.
        simpl in Hr. apply Hpres12. right. apply Hsub1.
        eapply reachable_ref_equiv; [apply dict_equiv_sym; exact He12 | exact Hr].
Qed.

Lemma sort_folders_recursive_post :
  forall fuel d l d' l',
    sort_folders_recursive fuel d l = Ok (d', l') -> sort_post d l d' l'.
Proof.
  induction fuel as [|fuel IH]; intros d l d' l' Hrun; [discriminate|].
  cbn [sort_folders_recursive] in Hrun.
  destruct (sort_children_each (sort_folders_recursive fuel) (sort_refs d l) d)
    as [dfin|e] eqn:Heach; [|discriminate].
  simpl in Hrun. injection Hrun as <- <-.
  destruct (sort_children_each_post _ IH _ _ _ Heach) as (He & Hpres & Hsub).
  split; [assumption|]. split; [reflexivity|]. split; [assumption|].
  intros x Hr. apply reachable_ref_split in Hr as (y & Hy & Hr).
  eapply Hsub; eassumption.
Qed.

(** *** The dictionary and the attach loop, as equations *)

Lemma dict_get_None {V} (k : string) (d : list (string * V)) :
  ~ In k (map fst d) -> dict_get k d = None.
Proof.
  induction d as [|[k' v] d IH]; simpl; [reflexivity|].
  intros Hn. destruct (k' =? k) eqn:E.
  - apply String.eqb_eq in E. exfalso. apply Hn. now left.
  - apply IH. intros H. apply Hn. now right.
Qed.

Lemma dict_set_fresh {V} (k : string) (v : V) d :
  ~ In k (map fst d) -> dict_set k v d = d ++ [(k, v)].
Proof.
  induction d as [|[k' v'] d IH]; simpl; [reflexivity|].
  intros Hn. destruct (k' =? k) eqn:E.
  - apply String.eqb_eq in E. exfalso. apply Hn. now left.
  - f_equal. apply IH. intros H. apply Hn. now right.
Qed.

Lemma build_folder_dict_rows db :
  NoDup (folder_ids db) ->
  build_folder_dict (hierarchy_rows db)
  = map (hier_entry db) (folders_by_id db).
Proof.
  intros Hnd0.
  assert (Hnd1 : NoDup (map f_id (folders_by_id db))).
  { eapply Permutation_NoDup; [|exact Hnd0].
    apply Permutation_map, Permutation_sym, folders_by_id_perm. }
  revert Hnd1. clear Hnd0.
  unfold build_folder_dict, hierarchy_rows.
  change (map (hier_entry db) (folders_by_id db))
    with ([] ++ map (hier_entry db) (folders_by_id db)).
  assert (H : forall fs acc,
             NoDup (map fst acc ++ map f_id fs) ->
             fold_left
               (fun d n => dict_set (f_id (h_row n)) (with_children n []) d)
               (map (fun f => mk_hier f (count_bookmarks_in db (f_id f))
                                (count_subfolders db (f_id f)) []) fs) acc
             = acc ++ map (hier_entry db) fs).
  { induction fs as [|f fs IH]; intros acc Hnd; simpl.
    - now rewrite app_nil_r.
    - rewrite dict_set_fresh.
      + rewrite IH.
        * rewrite <- app_assoc. reflexivity.
        * rewrite map_app. simpl. rewrite <- app_assoc. exact Hnd.
      + intros Hin. apply NoDup_remove_2 in Hnd. apply Hnd.
        apply in_or_app. now left. }
  intros Hnd. apply H. exact Hnd.
Qed.

Lemma dict_get_entries db fs k n :
  dict_get k (map (hier_entry db) fs) = Some n ->
  exists f, In f fs /\ f_id f = k /\
            n = mk_hier f (count_bookmarks_in db k) (count_subfolders db k) [].
Proof.
  intros H. apply dict_get_In in H. apply in_map_iff in H as (f & E & Hf).
  unfold hier_entry in E. injection E as <- <-. eauto.
Qed.

Lemma child_ids_single f k :
  child_ids [f] k = if opt_eqb (f_parent_id f) k then [f_id f] else [].
Proof. unfold child_ids. simpl. now destruct (opt_eqb (f_parent_id f) k). Qed.

Lemma attach_folder_step db fd0 pre st f :
  attached fd0 pre st ->
  attached fd0 (pre ++ [f]) (attach_folder st (hier_entry db f)).
Proof.
  destruct st as [fd roots]. intros [Hd Hr]. simpl in Hd, Hr.
  unfold attach_folder, hier_entry. cbn [h_row].
  destruct (f_parent_id f) as [p|] eqn:Hp.
  - assert (Hroots : map f_id (filter is_null_parent (pre ++ [f])) = roots).
    { rewrite filter_app. simpl. unfold is_null_parent at 2. rewrite Hp.
      now rewrite app_nil_r. }
    assert (Hother : forall k, p <> k -> child_ids (pre ++ [f]) k = child_ids pre k).
    { intros k Hne. rewrite child_ids_app, child_ids_single, Hp. simpl.
      apply String.eqb_neq in Hne. rewrite Hne. apply app_nil_r. }
    destruct (dict_get p fd) as [parent|] eqn:Hget.
    + split; [|simpl; now rewrite Hroots].
      simpl. intros k. destruct (string_dec p k) as [<-|Hne].
      * rewrite dict_get_set_same. rewrite Hd in Hget.
        destruct (dict_get p fd0) as [n0|]; [|discriminate].
        simpl in Hget. injection Hget as <-. simpl.
        rewrite child_ids_app, child_ids_single, Hp. simpl.
        now rewrite String.eqb_refl.
      * rewrite dict_get_set_other by assumption. rewrite Hd.
        now rewrite Hother.
    + split; [|simpl; now rewrite Hroots].
      simpl. intros k. destruct (string_dec p k) as [<-|Hne].
      * rewrite Hget. rewrite Hd in Hget.
        destruct (dict_get p fd0); [discriminate | reflexivity].
      * rewrite Hd. now rewrite Hother.
  - split; simpl.
    + intros k. rewrite Hd. rewrite child_ids_app, child_ids_single, Hp.
      simpl. now rewrite app_nil_r.
    + rewrite filter_app, map_app. simpl. unfold is_null_parent at 2.
      rewrite Hp. simpl. now rewrite Hr.
Qed.

Lemma attach_folder_loop db fd0 :
  forall post pre st,
    attached fd0 pre st ->
    attached fd0 (pre ++ post)
      (fold_left attach_folder (map (hier_entry db) post) st).
Proof.
  induction post as [|f post IH]; intros pre st Hst; simpl.
  - now rewrite app_nil_r.
  - replace (pre ++ f :: post) with ((pre ++ [f]) ++ post)
      by (rewrite <- app_assoc; reflexivity).
    apply IH. now apply attach_folder_step.
Qed.

Lemma NoDup_map_filter {A B} (f : A -> B) (p : A -> bool) l :
  NoDup (map f l) -> NoDup (map f (filter p l)).
Proof.
  induction l as [|x l IH]; simpl; intros Hnd; [constructor|].
  inversion Hnd as [|? ? Hx Hl]; subst.
  destruct (p x); simpl; [|now apply IH].
  constructor; [|now apply IH].
  intros Hin. apply Hx. apply in_map_iff in Hin as (y & E & Hy).
  apply filter_In in Hy as [Hy _]. apply in_map_iff. eauto.
Qed.

(** The tree [get_folder_hierarchy] returns. *)
Lemma hierarchy_shape db fuel :
  NoDup (folder_ids db) -> length (folders db) < fuel ->
  exists fd roots,
    get_folder_hierarchy fuel db = Ok (fd, roots) /\
    dict_ok db fd /\
    Permutation (map f_id (filter is_null_parent (folders db))) roots /\
    (forall k n, dict_get k fd = Some n ->
       h_bookmark_count n = count_bookmarks_in db k /\
       h_subfolder_count n = count_subfolders db k /\
       Permutation (select_child_ids db k) (h_children n)) /\
    StronglySorted (key_le fd) roots /\
    (forall x, reachable_ref fd roots x -> sorted_at fd x).
Proof.
  intros Hnd Hfuel. unfold get_folder_hierarchy.
  destruct (build_folder_dict_ok db) as (Hd0 & Hent).
  pose proof (build_folder_dict_rows db Hnd) as Hrows.
  set (fd0 := build_folder_dict (hierarchy_rows db)) in *.
  destruct (attach_all_ok db fd0 Hent fd0 [] Hd0) as (Hd1 & Hr1).
  { intros k []. }
  assert (Hatt : attached fd0 (folders_by_id db)
                   (fold_left attach_folder fd0 (fd0, []))).
  { rewrite Hrows at 2.
    apply (attach_folder_loop db fd0 (folders_by_id db) [] (fd0, [])).
    split; [|reflexivity]. simpl. intros k.
    destruct (dict_get k fd0) as [n0|] eqn:Hget; [|reflexivity].
    simpl. f_equal. rewrite Hrows in Hget.
    apply dict_get_entries in Hget as (f & _ & _ & ->). reflexivity. }
  destruct (fold_left attach_folder fd0 (fd0, [])) as [fd1 roots1].
  destruct Hatt as [Hfd1 Hroots1]. simpl in Hd1, Hr1, Hfd1, Hroots1.
  destruct (sort_folders_recursive_ok db Hnd fuel fd1 roots1 Hd1)
    as (fd & roots & Hres & Hd & Hperm); [lia | |].
  { intros x Hx. destruct (Hr1 _ Hx) as (r & Hr & <- & Hp).
    exists 0. split; [now apply up_root | lia]. }
  exists fd, roots. split; [assumption|].
  destruct (sort_folders_recursive_post _ _ _ _ _ Hres)
    as (He & Hsorted & Hpres & Hsub).
  split; [assumption|]. split.
  { transitivity (map f_id (filter is_null_parent (folders_by_id db))).
    - apply Permutation_map, filter_perm, Permutation_sym, folders_by_id_perm.
    - now rewrite <- Hroots1. }
  split; [|split].
  - intros k n Hget. pose proof (He k) as Hk. rewrite Hget in Hk.
    destruct (dict_get k fd1) as [n1|] eqn:Hget1; [|contradiction].
    destruct Hk as (Hrow & Hbc & Hsc & Hch).
    rewrite Hfd1 in Hget1.
    destruct (dict_get k fd0) as [n0|] eqn:Hget0; [|discriminate].
    simpl in Hget1. injection Hget1 as <-. simpl in *.
    rewrite Hrows in Hget0. apply dict_get_entries in Hget0 as (f & _ & _ & ->).
    simpl in *. split; [congruence|]. split; [congruence|].
    transitivity (child_ids (folders_by_id db) k); [|exact Hch].
    apply Permutation_map, filter_perm, Permutation_sym, folders_by_id_perm.
  - rewrite Hsorted. apply StronglySorted_impl with (R := key_le fd1);
      [intros a b; now apply key_le_equiv | apply sort_refs_sorted].
  - exact Hsub.
Qed.

(** X3. In the tree [get_folder_hierarchy] returns for a store with
    unique folder ids: the roots are the folders with a null parent
    reference, each once; the [children] of a folder are the folders that
    name it as parent, each once, and their number is the folder's
    [subfolder_count]; and every folder whose chain of parents ends at a
    root can be reached from the returned roots. *)
Theorem hierarchy_lists_every_rooted_folder (db : database) (fuel : nat) :
  NoDup (folder_ids db) -> length (folders db) < fuel ->
  exists fd roots,
    get_folder_hierarchy fuel db = Ok (fd, roots) /\
    NoDup roots /\
    (forall k, In k roots <->
               exists r, In r (folders db) /\ f_id r = k /\
                         f_parent_id r = None) /\
    (forall k n, dict_get k fd = Some n ->
       NoDup (h_children n) /\
       (forall c, In c (h_children n) <-> parent_edge db c k) /\
       h_subfolder_count n = length (h_children n)) /\
    (forall x m, up_len db x m -> reachable_ref fd roots x).
Proof.
  intros Hnd Hfuel.
  destruct (hierarchy_shape db fuel Hnd Hfuel)
    as (fd & roots & Hres & Hd & Hroots & Hkids & _ & _).
  exists fd, roots. split; [assumption|].
  assert (Hr : forall k, In k roots <->
                 exists r, In r (folders db) /\ f_id r = k /\
                           f_parent_id r = None).
  { intros k. split.
    - intros Hk. eapply Permutation_in in Hk; [|apply Permutation_sym; exact Hroots].
      apply in_map_iff in Hk as (r & Hid & Hr). apply filter_In in Hr as [Hr Hp].
      exists r. split; [assumption|]. split; [assumption|].
      unfold is_null_parent in Hp. now destruct (f_parent_id r).
    - intros (r & Hr & Hid & Hp). eapply Permutation_in; [exact Hroots|].
      apply in_map_iff. exists r. split; [assumption|]. apply filter_In.
      split; [assumption|]. unfold is_null_parent. now rewrite Hp. }
  assert (Hc : forall k n, dict_get k fd = Some n ->
             NoDup (h_children n) /\
             (forall c, In c (h_children n) <-> parent_edge db c k) /\
             h_subfolder_count n = length (h_children n)).
  { intros k n Hget. destruct (Hkids k n Hget) as (_ & Hsc & Hperm).
    split; [|split].
    - eapply Permutation_NoDup; [exact Hperm|].
      unfold select_child_ids. now apply NoDup_map_filter.
    - intros c. rewrite <- select_child_ids_spec. split; intros Hin.
      + eapply Permutation_in; [apply Permutation_sym; exact Hperm | exact Hin].
      + eapply Permutation_in; eassumption.
    - rewrite Hsc. rewrite <- (Permutation_length Hperm).
      unfold count_subfolders, select_child_ids. now rewrite length_map. }
  split; [|split; [exact Hr | split; [exact Hc|]]].
  - eapply Permutation_NoDup; [exact Hroots|]. now apply NoDup_map_filter.
  - intros x m Hup. induction Hup as [r Hr0 Hp | r p m Hr0 Hp Hup IH].
    + apply reach_root. apply Hr. eauto.
    + destruct Hd as (_ & J2 & _).
      destruct (J2 p) as (n & Hget); [eapply up_len_stored; eassumption|].
      eapply reach_child; [exact IH | exact Hget |].
      apply (Hc p n Hget). exists r. auto.
Qed.

(** X4. In the tree [get_folder_hierarchy] returns, the roots and the
    [children] of every folder reachable from them stand in ascending
    order of their names with everything but ASCII letters and digits
    removed and letters in lower case. *)
Theorem hierarchy_sorted_by_name (db : database) (fuel : nat) :
  NoDup (folder_ids db) -> length (folders db) < fuel ->
  exists fd roots,
    get_folder_hierarchy fuel db = Ok (fd, roots) /\
    (forall r, In r (folders db) -> name_of_ref fd (f_id r) = f_name r) /\
    StronglySorted (key_le fd) roots /\
    (forall x n, reachable_ref fd roots x -> dict_get x fd = Some n ->
                 StronglySorted (key_le fd) (h_children n)).
Proof.
  intros Hnd Hfuel.
  destruct (hierarchy_shape db fuel Hnd Hfuel)
    as (fd & roots & Hres & Hd & _ & _ & Hsorted & Hsub).
  exists fd, roots. split; [assumption|]. split; [|split].
  - intros r Hr. destruct Hd as (J1 & J2 & _).
    destruct (J2 (f_id r)) as (n & Hget); [unfold folder_ids; now apply in_map|].
    unfold name_of_ref. rewrite Hget.
    destruct (J1 _ _ Hget) as (Hrow & Hid).
    f_equal. eapply row_unique; eassumption.
  - assumption.
  - intros x n Hx Hget. now apply (Hsub x Hx).
Qed.


(** ** Bookmark lookup, update and removal *)

Lemma pair_exists_In (bid tid : string) (bt : list (string * string)) :
  existsb (fun x => (fst x =? bid) && (snd x =? tid)) bt = true
  <-> In (bid, tid) bt.
Proof.
  rewrite existsb_exists. split.
  - intros ([a b] & Hx & E). apply andb_true_iff in E as [E1 E2].
    apply String.eqb_eq in E1, E2. simpl in *. now subst.
  - intros H. exists (bid, tid). split; [assumption|]. simpl.
    now rewrite !String.eqb_refl.
Qed.

(** The inserts succeed exactly when no pair is there already and no tag
    is listed twice; the only failure is the primary key. *)
Lemma insert_bookmark_tags_Ok bid :
  forall tids bt bt',
    insert_bookmark_tags bid tids bt = Ok bt' ->
    bt' = bt ++ map (pair bid) tids /\ NoDup tids /\
    forall t, In t tids -> ~ In (bid, t) bt.
Proof.
  induction tids as [|t tids IH]; intros bt bt' H.
  - simpl in H. injection H as <-. rewrite app_nil_r.
    split; [reflexivity|]. split; [constructor | intros t []].
  - cbn [insert_bookmark_tags] in H.
    destruct (existsb _ bt) eqn:E; [discriminate|].
    apply IH in H as (-> & Hnd & Hfresh).
    split; [now rewrite <- app_assoc|].
    assert (Ht : ~ In (bid, t) bt).
    { intros Hin. apply pair_exists_In in Hin. congruence. }
    split.
    + constructor; [|assumption]. intros Hin. apply (Hfresh t Hin).
      apply in_or_app. right. now left.
    + intros t' [<-|Hin]; [assumption|].
      intros Hbt. apply (Hfresh t' Hin). apply in_or_app. now left.
Qed.

Lemma insert_bookmark_tags_Raise bid :
  forall tids bt e,
    insert_bookmark_tags bid tids bt = Raise e -> e = IntegrityError.
Proof.
  induction tids as [|t tids IH]; intros bt e H; [discriminate|].
  cbn [insert_bookmark_tags] in H.
  destruct (existsb _ bt); [now injection H as <- | eauto].
Qed.

Lemma insert_bookmark_tags_fresh bid tids bt :
  (forall x, In x bt -> fst x <> bid) -> NoDup tids ->
  insert_bookmark_tags bid tids bt = Ok (bt ++ map (pair bid) tids).
Proof.
  intros Hbt Hnd.
  pose proof (insert_bookmark_tags_ok bid tids [] bt Hbt Hnd) as H.
  simpl in H. now rewrite app_nil_r in H.
Qed.

Lemma filter_first_unique {A} (f : A -> string) (l : list A) (x : A) :
  NoDup (map f l) -> In x l ->
  filter (fun y => f y =? f x) l = [x].
Proof.
  induction l as [|y l IH]; simpl; [contradiction|].
  intros Hnd Hx. inversion Hnd as [|? ? Hy Hl]; subst.
  destruct Hx as [->|Hx].
  - rewrite String.eqb_refl. f_equal.
    apply filter_none. intros z Hz. apply String.eqb_neq. intros E.
    apply Hy. rewrite <- E. now apply in_map.
  - destruct (f y =? f x) eqn:E.
    + apply String.eqb_eq in E. exfalso. apply Hy. rewrite E. now apply in_map.
    + now apply IH.
Qed.

Lemma filter_absent {A} (f : A -> string) (l : list A) (k : string) :
  ~ In k (map f l) -> filter (fun y => f y =? k) l = [].
Proof.
  intros Hn. apply filter_none. intros z Hz. apply String.eqb_neq.
  intros E. apply Hn. rewrite <- E. now apply in_map.
Qed.

Lemma select_bookmark_tags_In db bid tid name :
  In (tid, name) (select_bookmark_tags db bid)
  <-> In (bid, tid) (bookmark_tags db) /\ stored_tag db tid name.
Proof.
  unfold select_bookmark_tags, stored_tag. rewrite in_flat_map. split.
  - intros (i & Hi & Hin). apply in_map_iff in Hin as (t & E & Ht).
    injection E as <- <-. apply filter_In in Ht as [Ht E].
    apply String.eqb_eq in E. subst i.
    split; [now apply bookmark_tag_ids_In | eauto].
  - intros (Hbt & t & Ht & <- & <-). exists (t_id t).
    split; [now apply bookmark_tag_ids_In|].
    apply in_map_iff. exists t. split; [reflexivity|].
    apply filter_In. split; [assumption | apply String.eqb_refl].
Qed.

(** The tags of a bookmark depend only on its own association rows. *)
Lemma select_bookmark_tags_ext tags0 bt bt' bid d1 d2 f1 f2 u1 u2 b1 b2 :
  filter (fun x => fst x =? bid) bt = filter (fun x => fst x =? bid) bt' ->
  select_bookmark_tags (mk_db f1 tags0 b1 bt d1 u1) bid
  = select_bookmark_tags (mk_db f2 tags0 b2 bt' d2 u2) bid.
Proof.
  intros H. unfold select_bookmark_tags, bookmark_tag_ids. simpl.
  now rewrite H.
Qed.

Lemma filter_map_same_id (row : bookmark_row -> bookmark_row) l k :
  (forall x, b_id (row x) = b_id x) ->
  filter (fun x => b_id x =? k) (map row l)
  = map row (filter (fun x => b_id x =? k) l).
Proof.
  intros Hids. induction l as [|x l IH]; [reflexivity|].
  cbn [map filter]. rewrite Hids.
  destruct (b_id x =? k); cbn [map]; now rewrite IH.
Qed.

Lemma filter_other_rows {A} (f : A -> string) (l : list A) (k other : string) :
  other <> k ->
  filter (fun x => f x =? other) (filter (fun x => negb (f x =? k)) l)
  = filter (fun x => f x =? other) l.
Proof.
  intros Hne. induction l as [|x l IH]; simpl; [reflexivity|].
  destruct (f x =? k) eqn:E; simpl.
  - apply String.eqb_eq in E.
    assert (E2 : (f x =? other) = false)
      by (apply String.eqb_neq; congruence).
    now rewrite E2.
  - destruct (f x =? other); now rewrite IH.
Qed.

(** X5. After a successful [create_bookmark], [get_bookmark] on the
    returned id yields the row with the given URL, title, description and
    favicon, the folder (null for an empty one), [pinned] 0 and the
    current timestamp, and with exactly the stored tags among the given
    tag ids, provided no association row carried the new id before. *)
Theorem create_bookmark_then_get
  (uuid4 : nat -> string) (url title description : string)
  (folder_id : option string) (tag_ids : list string)
  (favicon : option string) (db db' : database) (id : string) :
  create_bookmark uuid4 url title description folder_id tag_ids favicon db
  = (Ok id, db') ->
  (forall bt, In bt (bookmark_tags db) -> fst bt <> id) ->
  exists tags,
    get_bookmark db' id
    = Some (mk_bookmark id url title (Some description) favicon
              (if opt_truthy folder_id then folder_id else None) 0
              (current_timestamp db),
            tags) /\
    forall tid name,
      In (tid, name) tags <-> In tid tag_ids /\ stored_tag db tid name.
Proof.
  unfold create_bookmark. intros Hrun Hfresh.
  destruct (mem (uuid4 (uuid_draws db)) (map b_id (bookmarks (tick_uuid db))))
    eqn:Hmem; [discriminate|].
  destruct (insert_bookmark_tags _ tag_ids _) as [bt|e] eqn:Hins; [|discriminate].
  injection Hrun as <- <-.
  apply insert_bookmark_tags_Ok in Hins as (-> & Hnd & _).
  set (id := uuid4 (uuid_draws db)) in *.
  assert (Hid : ~ In id (map b_id (bookmarks db))).
  { intros Hin. apply mem_In in Hin. simpl in Hmem. congruence. }
  eexists. split.
  - unfold get_bookmark. cbn [bookmarks set_bookmark_tags set_bookmarks tick_uuid].
    rewrite filter_app, (filter_absent b_id _ id Hid). simpl.
    rewrite String.eqb_refl. reflexivity.
  - intros tid name. rewrite select_bookmark_tags_In.
    cbn [bookmark_tags set_bookmark_tags set_bookmarks tick_uuid].
    unfold stored_tag. cbn [tags set_bookmark_tags set_bookmarks tick_uuid].
    split; intros [H1 H2]; (split; [|exact H2]).
    + apply in_app_or in H1 as [H1|H1].
      * exfalso. now apply (Hfresh _ H1).
      * apply in_map_iff in H1 as (t & E & Ht). now injection E as ->.
    + apply in_or_app. right. now apply in_map.
Qed.

(** X6. [update_bookmark] succeeds when no tag id is listed twice, and
    raises [IntegrityError] leaving the store as it was when one is. *)
Theorem update_bookmark_needs_distinct_tags
  (bookmark_id url title description : string) (folder_id : option string)
  (tag_ids : list string) (favicon : option string) (db : database) :
  (NoDup tag_ids ->
   fst (update_bookmark bookmark_id url title description folder_id tag_ids
          favicon db) = Ok tt) /\
  (~ NoDup tag_ids ->
   update_bookmark bookmark_id url title description folder_id tag_ids
     favicon db = (Raise IntegrityError, db)).
Proof.
  unfold update_bookmark.
  assert (Hclean : forall x,
             In x (filter (fun x => negb (fst x =? bookmark_id))
                     (bookmark_tags db)) -> fst x <> bookmark_id).
  { intros x Hx. apply filter_In in Hx as [_ Hx].
    apply negb_true_iff in Hx. now apply String.eqb_neq. }
  split.
  - intros Hnd. now rewrite insert_bookmark_tags_fresh.
  - intros Hdup.
    destruct (insert_bookmark_tags bookmark_id tag_ids _) as [bt|e] eqn:Hins.
    + apply insert_bookmark_tags_Ok in Hins as (_ & Hnd & _). contradiction.
    + apply insert_bookmark_tags_Raise in Hins. now subst.
Qed.

(** X7. After [update_bookmark] on a stored bookmark with distinct tag
    ids, [get_bookmark] yields the new URL, title, description and folder,
    the new favicon if one was given and the old one otherwise, the old
    [pinned] value and the current timestamp, with exactly the stored tags
    among the given tag ids; every other bookmark reads as before. *)
Theorem update_bookmark_then_get
  (b : bookmark_row) (url title description : string)
  (folder_id : option string) (tag_ids : list string)
  (favicon : option string) (db : database) :
  NoDup (map b_id (bookmarks db)) -> In b (bookmarks db) -> NoDup tag_ids ->
  exists db' tags,
    update_bookmark (b_id b) url title description folder_id tag_ids favicon
      db = (Ok tt, db') /\
    get_bookmark db' (b_id b)
    = Some (mk_bookmark (b_id b) url title (Some description)
              (if opt_truthy favicon then favicon else b_favicon b)
              (if opt_truthy folder_id then folder_id else None)
              (b_pinned b) (current_timestamp db),
            tags) /\
    (forall tid name,
       In (tid, name) tags <-> In tid tag_ids /\ stored_tag db tid name) /\
    (forall other, other <> b_id b ->
                   get_bookmark db' other = get_bookmark db other).
Proof.
  intros Hnd Hb Htags. unfold update_bookmark.
  assert (Hclean : forall x,
             In x (filter (fun x => negb (fst x =? b_id b))
                     (bookmark_tags db)) -> fst x <> b_id b).
  { intros x Hx. apply filter_In in Hx as [_ Hx].
    apply negb_true_iff in Hx. now apply String.eqb_neq. }
  rewrite insert_bookmark_tags_fresh by assumption.
  eexists. eexists. split; [reflexivity|].
  set (row := fun x : bookmark_row =>
                if b_id x =? b_id b
                then mk_bookmark (b_id x) url title (Some description)
                       (if opt_truthy favicon then favicon else b_favicon x)
                       (if opt_truthy folder_id then folder_id else None)
                       (b_pinned x) (current_timestamp db)
                else x).
  assert (Hids : forall x, b_id (row x) = b_id x).
  { intros x. unfold row. now destruct (b_id x =? b_id b). }
  assert (Hfilter : forall k,
             filter (fun x => b_id x =? k) (map row (bookmarks db))
             = map row (filter (fun x => b_id x =? k) (bookmarks db)))
    by (intros k; now apply filter_map_same_id).
  split; [|split].
  - unfold get_bookmark. cbn [bookmarks set_bookmark_tags set_bookmarks].
    rewrite Hfilter, (filter_first_unique b_id _ b Hnd Hb). simpl.
    unfold row. rewrite String.eqb_refl. reflexivity.
  - intros tid name. rewrite select_bookmark_tags_In.
    cbn [bookmark_tags set_bookmark_tags set_bookmarks].
    unfold stored_tag. cbn [tags set_bookmark_tags set_bookmarks].
    split; intros [H1 H2]; (split; [|exact H2]).
    + apply in_app_or in H1 as [H1|H1].
      * exfalso. now apply (Hclean _ H1).
      * apply in_map_iff in H1 as (t & E & Ht). now injection E as ->.
    + apply in_or_app. right. now apply in_map.
  - intros other Hne. unfold get_bookmark.
    cbn [bookmarks set_bookmark_tags set_bookmarks]. rewrite Hfilter.
    assert (Hsame : map row (filter (fun x => b_id x =? other) (bookmarks db))
                    = filter (fun x => b_id x =? other) (bookmarks db)).
    { rewrite <- (map_id (filter _ (bookmarks db))) at 2.
      apply map_ext_in. intros x Hx. apply filter_In in Hx as [_ Hx].
      apply String.eqb_eq in Hx. unfold row.
      destruct (b_id x =? b_id b) eqn:E; [|reflexivity].
      apply String.eqb_eq in E. congruence. }
    rewrite Hsame.
    destruct (filter (fun x => b_id x =? other) (bookmarks db)); [reflexivity|].
    f_equal. f_equal. destruct db as [f t bs bt now u]. simpl.
    apply select_bookmark_tags_ext.
    rewrite filter_app.
    assert (E1 : filter (fun x => fst x =? other) (map (pair (b_id b)) tag_ids) = []).
    { apply filter_none. intros x Hx. apply in_map_iff in Hx as (t0 & <- & _).
      simpl. apply String.eqb_neq. congruence. }
    rewrite E1, app_nil_r.
    now apply (filter_other_rows fst).
Qed.

(** X8. After [delete_bookmark], [get_bookmark] on the id yields [None]
    and every other bookmark reads as before; the association rows of the
    deleted bookmark stay in [bookmark_tags] (foreign keys are not
    enforced, see [init_db]), so [get_all_tags] reports the same counts
    as before. *)
Theorem delete_bookmark_then_get (bookmark_id : string) (db : database) :
  let db' := snd (delete_bookmark bookmark_id db) in
  get_bookmark db' bookmark_id = None /\
  (forall other, other <> bookmark_id ->
                 get_bookmark db' other = get_bookmark db other) /\
  get_all_tags db' = get_all_tags db /\
  (forall tid, In (bookmark_id, tid) (bookmark_tags db) ->
               In (bookmark_id, tid) (bookmark_tags db')).
Proof.
  simpl. split; [|split; [|split]].
  - unfold get_bookmark. cbn [bookmarks set_bookmarks].
    rewrite filter_none; [reflexivity|].
    intros x Hx. apply filter_In in Hx as [_ Hx].
    apply negb_true_iff in Hx. exact Hx.
  - intros other Hne. unfold get_bookmark. cbn [bookmarks set_bookmarks].
    rewrite (filter_other_rows b_id) by assumption. reflexivity.
  - reflexivity.
  - auto.
Qed.

(** X9. [toggle_pin] on an id that is not stored returns [None] and
    leaves the store as it is.  On a stored bookmark it returns 1 for a
    [pinned] of 0 and 0 otherwise; a second call returns the opposite, and
    after both calls every other row is unchanged and the row itself
    differs from the original only in its timestamp (and in a [pinned]
    other than 0 or 1 having become 1). *)
Theorem toggle_pin_twice (db : database) :
  (forall bookmark_id, ~ In bookmark_id (map b_id (bookmarks db)) ->
                       toggle_pin bookmark_id db = (Ok None, db)) /\
  (forall b, NoDup (map b_id (bookmarks db)) -> In b (bookmarks db) ->
     let db1 := snd (toggle_pin (b_id b) db) in
     let db2 := snd (toggle_pin (b_id b) db1) in
     fst (toggle_pin (b_id b) db) = Ok (Some (flipped (b_pinned b))) /\
     fst (toggle_pin (b_id b) db1) = Ok (Some (flipped (flipped (b_pinned b)))) /\
     bookmarks db2
     = map (fun x => if b_id x =? b_id b
                     then touched (current_timestamp db) x
                            (flipped (flipped (b_pinned x)))
                     else x)
         (bookmarks db)).
Proof.
  split.
  - intros id Hid. unfold toggle_pin. now rewrite (filter_absent b_id _ id Hid).
  - intros b Hnd Hb.
    assert (H1 : toggle_pin (b_id b) db
                 = (Ok (Some (flipped (b_pinned b))),
                    set_bookmarks db
                      (map (fun x => if b_id x =? b_id b
                                     then touched (current_timestamp db) x
                                            (flipped (b_pinned b))
                                     else x)
                         (bookmarks db)))).
    { unfold toggle_pin. now rewrite (filter_first_unique b_id _ b Hnd Hb). }
    rewrite H1. cbn [fst snd].
    set (row1 := fun x => if b_id x =? b_id b
                          then touched (current_timestamp db) x
                                 (flipped (b_pinned b))
                          else x).
    assert (Hids : forall x, b_id (row1 x) = b_id x).
    { intros x. unfold row1. now destruct (b_id x =? b_id b). }
    assert (H2 : toggle_pin (b_id b) (set_bookmarks db (map row1 (bookmarks db)))
                 = (Ok (Some (flipped (flipped (b_pinned b)))),
                    set_bookmarks db
                      (map (fun x => if b_id x =? b_id b
                                     then touched (current_timestamp db) x
                                            (flipped (flipped (b_pinned b)))
                                     else x)
                         (map row1 (bookmarks db))))).
    { unfold toggle_pin. cbn [bookmarks set_bookmarks current_timestamp].
      rewrite (filter_map_same_id row1 _ _ Hids).
      rewrite (filter_first_unique b_id _ b Hnd Hb). cbn [map].
      assert (Hrow : row1 b
                     = touched (current_timestamp db) b (flipped (b_pinned b)))
        by (unfold row1; now rewrite String.eqb_refl).
      rewrite Hrow. reflexivity. }
    rewrite H2. cbn [fst snd]. split; [reflexivity|]. split; [reflexivity|].
    cbn [bookmarks set_bookmarks]. rewrite map_map.
    apply map_ext_in. intros x Hx. rewrite Hids. unfold row1.
    destruct (b_id x =? b_id b) eqn:E; [|reflexivity].
    apply String.eqb_eq in E.
    assert (x = b).
    { clear - Hnd Hb Hx E. induction (bookmarks db) as [|y l IH]; [destruct Hx|].
      simpl in Hnd. inversion Hnd as [|? ? Hy Hl]; subst.
      destruct Hx as [->|Hx]; destruct Hb as [->|Hb]; auto.
      - exfalso. apply Hy. rewrite E. now apply in_map.
      - exfalso. apply Hy. rewrite <- E. now apply in_map. }
    subst x. reflexivity.
Qed.

Lemma combine_map_pair {A B C} (f : A -> B) (g : A -> C) (l : list A) :
  combine (map f l) (map g l) = map (fun x => (f x, g x)) l.
Proof. induction l as [|x l IH]; simpl; [reflexivity | now rewrite IH]. Qed.

Lemma view_of_tags db b :
  listable_tags db ->
  v_tags (view_of db b)
  = map (fun t => (t_id t, t_name t)) (joined_tags db b).
Proof.
  intros Hok. unfold view_of. cbn [v_tags].
  assert (Hin : forall t, In t (joined_tags db b) -> In t (tags db))
    by (intros t; apply joined_tags_in).
  destruct (joined_tags db b) as [|t ts] eqn:E; [reflexivity|].
  cbn [group_concat map].
  assert (Hn : String.concat "," (t_name t :: map t_name ts) <> "").
  { apply concat_not_empty. apply Hok, Hin. now left. }
  unfold opt_truthy, str_truthy.
  apply String.eqb_neq in Hn. rewrite Hn. cbn [negb].
  change (t_name t :: map t_name ts) with (map t_name (t :: ts)).
  change (t_id t :: map t_id ts) with (map t_id (t :: ts)).
  rewrite !split_concat.
  - apply (combine_map_pair t_id t_name (t :: ts)).
  - discriminate.
  - apply Forall_forall. intros n Hn'. apply in_map_iff in Hn' as (x & <- & Hx).
    apply Hok, Hin, Hx.
  - discriminate.
  - apply Forall_forall. intros n Hn'. apply in_map_iff in Hn' as (x & <- & Hx).
    apply Hok, Hin, Hx.
Qed.

(** X10. When every stored tag has a non-empty name and neither tag
    names nor tag ids contain a comma, the [tags] list
    [get_all_bookmarks] attaches to a returned bookmark pairs the id and
    the name of exactly the stored tags the bookmark is associated
    with, in the order of the joined rows (by tag id). *)
Theorem listed_tags_are_the_stored_tags
  (fuel : nat) (db : database) (folder_id tag_id search : option string)
  (sort_by sort_order : string) (include_subfolders : bool)
  (page per_page : Z) (r : page_result) :
  listable_tags db ->
  get_all_bookmarks fuel db folder_id tag_id search sort_by sort_order
    include_subfolders page per_page = Ok r ->
  forall v, In v (r_bookmarks r) ->
    v_tags v = map (fun t => (t_id t, t_name t)) (joined_tags db (v_row v)) /\
    forall tid name, In (tid, name) (v_tags v) <->
                     In (b_id (v_row v), tid) (bookmark_tags db) /\
                     stored_tag db tid name.
Proof.
  intros Hok Hrun v Hv.
  apply get_all_bookmarks_Ok in Hrun as (ids & _ & ->).
  cbn [r_bookmarks] in Hv.
  apply in_map_iff in Hv as (b & <- & _).
  assert (E : v_tags (view_of db b)
              = map (fun t => (t_id t, t_name t)) (joined_tags db b))
    by now apply view_of_tags.
  change (v_row (view_of db b)) with b.
  split; [exact E|]. intros tid name. rewrite E. rewrite in_map_iff.
  unfold stored_tag. split.
  - intros (t & Et & Ht). injection Et as <- <-.
    apply joined_tags_spec in Ht as [Ht Hbt]. split; [assumption | eauto].
  - intros (Hbt & t & Ht & <- & <-). exists t. split; [reflexivity|].
    now apply joined_tags_spec.
Qed.


(** The tags of "xkcd" in [tidy_db], attached as "fun stuff" and then
    "dev", are listed by tag id. *)
Example listed_tags_of_xkcd :
  exists r,
    get_all_bookmarks 5 tidy_db (Some "f-comics") None None "title" "asc"
      false 1 25 = Ok r /\
    map v_tags (r_bookmarks r) = [[("t-dev", "dev"); ("t-fun", "fun stuff")]] /\
    map v_tag_names (r_bookmarks r) = [Some "dev,fun stuff"].
Proof. eexists. repeat split. Qed.

(** ** The store invariant *)

Lemma NoDup_snoc {A} (l : list A) (x : A) :
  NoDup l -> ~ In x l -> NoDup (l ++ [x]).
Proof.
  intros Hl Hx. apply NoDup_app; [assumption | repeat constructor; intros [] |].
  intros a Ha [<-|[]]. contradiction.
Qed.

Lemma NoDup_filter {A} (p : A -> bool) (l : list A) :
  NoDup l -> NoDup (filter p l).
Proof.
  intros H. rewrite <- (map_id (filter p l)). apply NoDup_map_filter.
  now rewrite map_id.
Qed.

Lemma NoDup_map_pair {A B} (a : A) (l : list B) :
  NoDup l -> NoDup (map (pair a) l).
Proof.
  induction 1 as [|x l Hx Hl IH]; simpl; constructor; [|assumption].
  intros Hin. apply in_map_iff in Hin as (y & E & Hy).
  injection E as ->. contradiction.
Qed.

Lemma rename_tag_ids tag_id name now l :
  map t_id (map (fun t => if t_id t =? tag_id
                          then mk_tag (t_id t) name now else t) l)
  = map t_id l.
Proof.
  rewrite map_map. apply map_ext. intros t. now destruct (t_id t =? tag_id).
Qed.

Lemma rename_tag_absent tag_id name now l :
  ~ In tag_id (map t_id l) ->
  map (fun t => if t_id t =? tag_id then mk_tag (t_id t) name now else t) l
  = l.
Proof.
  intros Hn. rewrite <- (map_id l) at 2. apply map_ext_in. intros t Ht.
  destruct (t_id t =? tag_id) eqn:E; [|reflexivity].
  apply String.eqb_eq in E. exfalso. apply Hn. rewrite <- E. now apply in_map.
Qed.

Lemma rename_tag_names tag_id name now l :
  NoDup (map t_id l) -> NoDup (map t_name l) ->
  (forall t, In t l -> t_id t <> tag_id -> t_name t <> name) ->
  NoDup (map t_name
           (map (fun t => if t_id t =? tag_id
                          then mk_tag (t_id t) name now else t) l)).
Proof.
  induction l as [|x l IH]; intros Hids Hnames Hother; [constructor|].
  simpl in Hids, Hnames. inversion Hids as [|? ? Hx Hl]; subst.
  inversion Hnames as [|? ? Hxn Hln]; subst. cbn [map].
  destruct (t_id x =? tag_id) eqn:E.
  - apply String.eqb_eq in E. subst tag_id.
    rewrite rename_tag_absent by assumption. simpl.
    constructor; [|assumption].
    intros Hin. apply in_map_iff in Hin as (y & Hy & Hyl).
    apply (Hother y); [now right | | assumption].
    intros Eid. apply Hx. rewrite <- Eid. now apply in_map.
  - apply String.eqb_neq in E. constructor.
    + intros Hin. apply in_map_iff in Hin as (y' & Hy' & Hin).
      apply in_map_iff in Hin as (y & <- & Hyl).
      destruct (t_id y =? tag_id) eqn:Ey; simpl in Hy'.
      * apply (Hother x); [now left | assumption | now symmetry].
      * apply Hxn. rewrite <- Hy'. now apply in_map.
    + apply IH; try assumption. intros t Ht. apply Hother. now right.
Qed.

Lemma update_tag_effect tag_id name db :
  update_tag tag_id name db = (Raise IntegrityError, db) \/
  (update_tag tag_id name db
   = (Ok tt,
      set_tags db
        (map (fun t => if t_id t =? tag_id
                       then mk_tag (t_id t) name (current_timestamp db)
                       else t) (tags db))) /\
   (~ In tag_id (map t_id (tags db)) \/
    forall t, In t (tags db) -> t_id t <> tag_id -> t_name t <> name)).
Proof.
  unfold update_tag.
  destruct (mem tag_id (map t_id (tags db))) eqn:Hmem; simpl.
  - destruct (existsb _ (tags db)) eqn:Hex; [now left|].
    right. split; [reflexivity|]. right. intros t Ht Hid Hn.
    assert (existsb (fun t => negb (t_id t =? tag_id) && (t_name t =? name))
              (tags db) = true); [|congruence].
    apply existsb_exists. exists t. split; [assumption|].
    apply String.eqb_neq in Hid. rewrite Hid. simpl. now apply String.eqb_eq.
  - right. split; [reflexivity|]. left. intros Hin.
    apply mem_In in Hin. congruence.
Qed.

(** X11. Every writing operation of the folder, tag and bookmark
    services, successful or not, keeps the store well-formed: folder, tag
    and bookmark ids are unique, tag names are unique, no association row
    occurs twice, and [pinned] holds 0 or 1. *)
Theorem service_ops_keep_store_ok
  (uuid4 : nat -> string) (op : service_op) (db : database) :
  store_ok db -> store_ok (run_service_op uuid4 op db).
Proof.
  intros (Hf & Hti & Htn & Hb & Hbt & Hp).
  destruct op as [fop | name | tag_id name | tag_id
                 | url title description folder_id tag_ids favicon
                 | bookmark_id url title description folder_id tag_ids favicon
                 | bookmark_id | bookmark_id]; cbn [run_service_op].
  - (* folders *)
    assert (Hrest : forall db',
               tags db' = tags db -> bookmarks db' = bookmarks db ->
               bookmark_tags db' = bookmark_tags db ->
               NoDup (folder_ids db') -> store_ok db').
    { intros db' E1 E2 E3 Hf'. unfold store_ok, pinned_ok.
      rewrite E1, E2, E3. repeat split; assumption. }
    destruct fop as [name parent_id | fuel folder_id name parent_id | folder_id];
      cbn [run_folder_op].
    + unfold create_folder.
      destruct (mem (uuid4 (uuid_draws db)) (folder_ids (tick_uuid db))) eqn:E;
        cbn [snd].
      * apply Hrest; try reflexivity. exact Hf.
      * apply Hrest; try reflexivity. unfold folder_ids. cbn [folders set_folders tick_uuid].
        rewrite map_app. apply NoDup_snoc; [exact Hf|].
        intros Hin. apply mem_In in Hin. unfold folder_ids in E.
        cbn [folders tick_uuid f_id] in E, Hin. congruence.
    + unfold update_folder.
      destruct (if opt_truthy parent_id then _ else _); cbn [snd].
      * apply Hrest; try reflexivity. now rewrite sql_update_folder_ids.
      * apply Hrest; try reflexivity. exact Hf.
    + unfold delete_folder. cbn [snd]. apply Hrest; try reflexivity.
      unfold folder_ids, sql_delete_folder. cbn [folders set_folders].
      now apply NoDup_map_filter.
  - (* create_tag *)
    unfold create_tag.
    destruct (mem (uuid4 (uuid_draws db)) (map t_id (tags (tick_uuid db)))
              || mem name (map t_name (tags (tick_uuid db)))) eqn:E; cbn [snd].
    + repeat split; assumption.
    + apply orb_false_iff in E as [E1 E2]. cbn [tags tick_uuid] in E1, E2.
      unfold store_ok, pinned_ok, folder_ids.
      cbn [folders tags bookmarks bookmark_tags set_tags tick_uuid].
      rewrite !map_app.
      repeat split; try assumption.
      * apply NoDup_snoc; [assumption|]. intros Hin. apply mem_In in Hin.
        cbn [t_id] in Hin. congruence.
      * apply NoDup_snoc; [assumption|]. intros Hin. apply mem_In in Hin.
        cbn [t_name] in Hin. congruence.
  - (* update_tag *)
    destruct (update_tag_effect tag_id name db) as [->|[-> Hcase]]; cbn [snd].
    + repeat split; assumption.
    + unfold store_ok, pinned_ok, folder_ids.
      cbn [folders tags bookmarks bookmark_tags set_tags].
      rewrite rename_tag_ids.
      repeat split; try assumption.
      destruct Hcase as [Habs|Hother].
      * now rewrite rename_tag_absent.
      * now apply rename_tag_names.
  - (* delete_tag *)
    unfold delete_tag, store_ok, pinned_ok, folder_ids. cbn [snd].
    cbn [folders tags bookmarks bookmark_tags set_tags set_bookmark_tags].
    repeat split; try assumption.
    + now apply NoDup_map_filter.
    + now apply NoDup_map_filter.
    + now apply NoDup_filter.
  - (* create_bookmark *)
    pose proof (create_bookmark_pinned_ok uuid4 url title description folder_id
                  tag_ids favicon db Hp) as Hp'.
    revert Hp'. unfold create_bookmark.
    destruct (mem (uuid4 (uuid_draws db)) (map b_id (bookmarks (tick_uuid db))))
      eqn:E; cbn [snd].
    + intros _. repeat split; assumption.
    + destruct (insert_bookmark_tags _ tag_ids _) as [bt|e] eqn:Hins; cbn [snd].
      * intros Hp'. apply insert_bookmark_tags_Ok in Hins as (-> & Hnd & Hfresh).
        unfold store_ok, folder_ids.
        cbn [folders tags bookmarks bookmark_tags set_bookmarks
               set_bookmark_tags tick_uuid] in *.
        rewrite map_app.
        split; [assumption|]. split; [assumption|]. split; [assumption|].
        split; [|split; [|exact Hp']].
        -- apply NoDup_snoc; [assumption|]. intros Hin. apply mem_In in Hin.
           cbn [b_id] in Hin. congruence.
        -- apply NoDup_app; [assumption | |].
           ++ now apply NoDup_map_pair.
           ++ intros x Hx Hx'. apply in_map_iff in Hx' as (t & <- & Ht).
              now apply (Hfresh t Ht).
      * intros _. repeat split; assumption.
  - (* update_bookmark *)
    unfold update_bookmark.
    destruct (insert_bookmark_tags bookmark_id tag_ids _) as [bt|e] eqn:Hins;
      cbn [snd]; [|repeat split; assumption].
    apply insert_bookmark_tags_Ok in Hins as (-> & Hnd & Hfresh).
    unfold store_ok, folder_ids.
    cbn [folders tags bookmarks bookmark_tags set_bookmarks set_bookmark_tags].
    split; [assumption|]. split; [assumption|]. split; [assumption|].
    split; [|split].
    + rewrite map_map. erewrite map_ext; [exact Hb|].
      intros x. simpl. now destruct (b_id x =? bookmark_id).
    + apply NoDup_app; [now apply NoDup_filter | |].
      * now apply NoDup_map_pair.
      * intros x Hx Hx'. apply in_map_iff in Hx' as (t & <- & Ht).
        now apply (Hfresh t Ht).
    + intros x Hx. cbn [bookmarks set_bookmarks set_bookmark_tags] in Hx.
      apply in_map_iff in Hx as (y & <- & Hy).
      destruct (b_id y =? bookmark_id); [simpl|]; now apply Hp.
  - (* delete_bookmark *)
    unfold delete_bookmark, store_ok, folder_ids. cbn [snd].
    cbn [folders tags bookmarks bookmark_tags set_bookmarks].
    repeat split; try assumption.
    + now apply NoDup_map_filter.
    + intros x Hx. cbn [bookmarks set_bookmarks] in Hx.
      apply filter_In in Hx as [Hx _]. now apply Hp.
  - (* toggle_pin *)
    pose proof (toggle_pin_pinned_ok bookmark_id db Hp) as Hp'.
    revert Hp'. unfold toggle_pin.
    destruct (filter _ (bookmarks db)) as [|bookmark found]; cbn [snd];
      [intros _; repeat split; assumption|].
    intros Hp'. unfold store_ok, folder_ids.
    cbn [folders tags bookmarks bookmark_tags set_bookmarks] in *.
    split; [assumption|]. split; [assumption|]. split; [assumption|].
    split; [|split; [assumption | exact Hp']].
    rewrite map_map. erewrite map_ext; [exact Hb|].
    intros x. simpl. now destruct (b_id x =? bookmark_id).
Qed.


(** ** Tags *)

(** X12. [get_all_tags] lists every tag exactly once, together with
    the number of association rows that refer to it, in ascending order
    of the names. *)
Theorem get_all_tags_lists_every_tag (db : database) :
  Permutation (map fst (get_all_tags db)) (tags db) /\
  (forall t n, In (t, n) (get_all_tags db) -> n = count_tag_uses db (t_id t)) /\
  (forall l1 a l2 b l3,
     map fst (get_all_tags db) = l1 ++ a :: l2 ++ b :: l3 ->
     String.leb (t_name a) (t_name b) = true).
Proof.
  unfold get_all_tags. split; [|split].
  - rewrite stable_sort_perm, map_map. simpl. rewrite map_id.
    apply stable_sort_perm.
  - intros t n Hin. eapply Permutation_in in Hin; [|apply stable_sort_perm].
    apply in_map_iff in Hin as (t' & E & _). now injection E as <- <-.
  - intros l1 a l2 b l3 Hrows.
    assert (Hs : StronglySorted
                   (fun x y : tag_row * nat =>
                      String.leb (t_name (fst x)) (t_name (fst y)) = true)
                   (stable_sort
                      (fun a b => String.leb (t_name (fst a)) (t_name (fst b)))
                      (map (fun t => (t, count_tag_uses db (t_id t)))
                         (tags_by_id db)))).
    { apply (stable_sort_sorted
               (fun a b : tag_row * nat =>
                  String.leb (t_name (fst a)) (t_name (fst b)))).
      - intros x y. apply string_leb_total.
      - intros x y z. apply string_leb_trans. }
    revert Hrows Hs.
    generalize (stable_sort
                  (fun a b : tag_row * nat =>
                     String.leb (t_name (fst a)) (t_name (fst b)))
                  (map (fun t => (t, count_tag_uses db (t_id t)))
                     (tags_by_id db))).
    intros l Hrows Hs.
    apply map_eq_app in Hrows as (k1 & k2 & -> & <- & Hk2).
    destruct k2 as [|na k2]; [discriminate|]. simpl in Hk2.
    injection Hk2 as <- Hk2.
    apply map_eq_app in Hk2 as (k3 & k4 & -> & <- & Hk4).
    destruct k4 as [|nb k4]; [discriminate|]. simpl in Hk4.
    injection Hk4 as <- _.
    now apply StronglySorted_pair in Hs.
Qed.

(** X13. [create_tag] with a name that is already stored raises
    [IntegrityError] and leaves the tags as they are; when it succeeds the
    name was not stored, [get_tag] on the returned id yields the new tag,
    and every other id reads as before. *)
Theorem create_tag_then_get (uuid4 : nat -> string) (name : string)
  (db : database) :
  (In name (map t_name (tags db)) ->
   fst (create_tag uuid4 name db) = Raise IntegrityError /\
   tags (snd (create_tag uuid4 name db)) = tags db) /\
  (forall id db', create_tag uuid4 name db = (Ok id, db') ->
     ~ In name (map t_name (tags db)) /\
     get_tag db' id = Some (mk_tag id name (current_timestamp db)) /\
     forall other, other <> id -> get_tag db' other = get_tag db other).
Proof.
  unfold create_tag. split.
  - intros Hin. apply mem_In in Hin. cbn [tags tick_uuid]. rewrite Hin.
    rewrite orb_true_r. split; reflexivity.
  - intros id db' Hrun.
    destruct (mem (uuid4 (uuid_draws db)) (map t_id (tags (tick_uuid db)))
              || mem name (map t_name (tags (tick_uuid db)))) eqn:E;
      [discriminate|].
    injection Hrun as <- <-.
    apply orb_false_iff in E as [E1 E2]. cbn [tags tick_uuid] in E1, E2.
    assert (Hid : ~ In (uuid4 (uuid_draws db)) (map t_id (tags db))).
    { intros Hin. apply mem_In in Hin. congruence. }
    split; [|split].
    + intros Hin. apply mem_In in Hin. congruence.
    + unfold get_tag. cbn [tags set_tags tick_uuid].
      rewrite filter_app, (filter_absent t_id _ _ Hid). simpl.
      now rewrite String.eqb_refl.
    + intros other Hne. unfold get_tag. cbn [tags set_tags tick_uuid].
      rewrite filter_app. simpl.
      assert (E3 : (uuid4 (uuid_draws db) =? other) = false)
        by (apply String.eqb_neq; congruence).
      rewrite E3. now rewrite app_nil_r.
Qed.

Lemma filter_comm {A} (p q : A -> bool) (l : list A) :
  filter p (filter q l) = filter q (filter p l).
Proof.
  induction l as [|x l IH]; [reflexivity|]. cbn [filter].
  destruct (p x) eqn:Hp, (q x) eqn:Hq; cbn [filter];
    rewrite ?Hp, ?Hq, IH; reflexivity.
Qed.

Lemma insert_sorted_head {A} (le : A -> A -> bool) x l :
  (forall z, In z l -> le x z = true) -> insert_sorted le x l = x :: l.
Proof.
  intros H. destruct l as [|y l]; [reflexivity|]. simpl.
  now rewrite (H y (or_introl eq_refl)).
Qed.

Lemma insert_sorted_filter {A} (le : A -> A -> bool) (p : A -> bool)
  (Htrans : forall a b c, le a b = true -> le b c = true -> le a c = true)
  x l :
  StronglySorted (fun a b => le a b = true) l ->
  filter p (insert_sorted le x l)
  = if p x then insert_sorted le x (filter p l) else filter p l.
Proof.
  induction 1 as [|y l Hl IH Hy]; cbn [insert_sorted filter].
  - destruct (p x); reflexivity.
  - destruct (le x y) eqn:E; cbn [filter].
    + destruct (p x) eqn:Px; [|reflexivity].
      destruct (p y) eqn:Py; cbn [insert_sorted]; [now rewrite E|].
      symmetry. apply insert_sorted_head. intros z Hz.
      apply filter_In in Hz as [Hz _]. rewrite Forall_forall in Hy.
      eapply Htrans; [exact E | now apply Hy].
    + rewrite IH. destruct (p y) eqn:Py; [|reflexivity].
      destruct (p x); cbn [insert_sorted]; [now rewrite E | reflexivity].
Qed.

(** Sorting and selecting commute. *)
Lemma stable_sort_filter {A} (le : A -> A -> bool) (p : A -> bool)
  (Htotal : forall a b, le a b = false -> le b a = true)
  (Htrans : forall a b c, le a b = true -> le b c = true -> le a c = true)
  l :
  filter p (stable_sort le l) = stable_sort le (filter p l).
Proof.
  induction l as [|x l IH]; [reflexivity|].
  cbn [stable_sort fold_right filter].
  rewrite insert_sorted_filter
    by (assumption || now apply stable_sort_sorted).
  fold (stable_sort le l). rewrite IH. now destruct (p x).
Qed.

Lemma bookmark_tag_ids_delete_tag tag_id db bid :
  bookmark_tag_ids (snd (delete_tag tag_id db)) bid
  = filter (fun i => negb (i =? tag_id)) (bookmark_tag_ids db bid).
Proof.
  unfold bookmark_tag_ids, delete_tag.
  cbn [snd tags bookmark_tags set_tags set_bookmark_tags].
  rewrite stable_sort_filter
    by (apply string_leb_total || apply string_leb_trans).
  f_equal. induction (bookmark_tags db) as [|[a c] l IH]; [reflexivity|].
  cbn [filter snd fst].
  destruct (c =? tag_id) eqn:E1; destruct (a =? bid) eqn:E2;
    cbn [negb filter fst snd map]; rewrite ?E1, ?E2; cbn [negb map snd];
    now rewrite IH.
Qed.

Lemma joined_tags_delete_tag tag_id db b :
  joined_tags (snd (delete_tag tag_id db)) b
  = filter (fun t => negb (t_id t =? tag_id)) (joined_tags db b).
Proof.
  unfold joined_tags. rewrite bookmark_tag_ids_delete_tag.
  unfold delete_tag. cbn [snd tags set_tags set_bookmark_tags].
  induction (bookmark_tag_ids db (b_id b)) as [|i ids IH]; [reflexivity|].
  cbn [filter flat_map]. rewrite filter_app, <- IH.
  destruct (i =? tag_id) eqn:E; cbn [negb flat_map].
  - apply String.eqb_eq in E. subst i.
    rewrite (filter_none _ (filter _ (tags db))); [reflexivity|].
    intros t Ht. apply filter_In in Ht as [_ Ht]. now rewrite Ht.
  - f_equal. apply filter_comm.
Qed.

Lemma limit_offset_nil {A} (limit offset : Z) :
  limit_offset limit offset (@nil A) = [].
Proof.
  rewrite limit_offset_eq, skipn_nil.
  destruct (limit <? 0)%Z; [reflexivity | apply firstn_nil].
Qed.

(** X14. [delete_tag] removes the tag and exactly the association rows
    that refer to it and leaves the bookmarks alone: every bookmark keeps
    its other tags, the other tags keep their counts, and
    [get_all_bookmarks] filtered by the deleted tag finds nothing. *)
Theorem delete_tag_detaches_bookmarks (tag_id : string) (db : database) :
  let db' := snd (delete_tag tag_id db) in
  bookmarks db' = bookmarks db /\
  get_tag db' tag_id = None /\
  (forall bt, In bt (bookmark_tags db') <->
              In bt (bookmark_tags db) /\ snd bt <> tag_id) /\
  (forall b, joined_tags db' b
             = filter (fun t => negb (t_id t =? tag_id)) (joined_tags db b)) /\
  (forall other, other <> tag_id ->
                 get_tag db' other = get_tag db other /\
                 count_tag_uses db' other = count_tag_uses db other) /\
  (forall fuel folder_id search sort_by sort_order include_subfolders
          page per_page r,
     tag_id <> "" ->
     get_all_bookmarks fuel db' folder_id (Some tag_id) search sort_by
       sort_order include_subfolders page per_page = Ok r ->
     r_total r = 0%Z /\ r_bookmarks r = []).
Proof.
  cbn zeta. split; [reflexivity|]. split; [|split; [|split; [|split]]].
  - unfold get_tag, delete_tag. cbn [snd tags set_tags].
    rewrite filter_none; [reflexivity|].
    intros t Ht. apply filter_In in Ht as [_ Ht].
    now apply negb_true_iff in Ht.
  - intros bt. unfold delete_tag.
    cbn [snd bookmark_tags set_tags set_bookmark_tags].
    rewrite filter_In, negb_true_iff, String.eqb_neq. reflexivity.
  - intros b. apply joined_tags_delete_tag.
  - intros other Hne. unfold get_tag, count_tag_uses, delete_tag.
    cbn [snd tags bookmark_tags set_tags set_bookmark_tags].
    rewrite (filter_other_rows t_id), (filter_other_rows snd) by assumption.
    split; reflexivity.
  - intros fuel folder_id search sort_by sort_order include_subfolders page
      per_page r Hne Hrun.
    apply get_all_bookmarks_Ok in Hrun as (ids & _ & ->).
    cbn [r_total r_bookmarks].
    assert (Hnone : forall cs1 cs2 l,
               filter (eval_where (snd (delete_tag tag_id db))
                         (cs1 ++ tag_clauses (Some tag_id) ++ cs2)) l = []).
    { intros cs1 cs2 l. apply filter_none. intros b _.
      unfold eval_where. rewrite !forallb_app.
      unfold tag_clauses, str_truthy.
      apply String.eqb_neq in Hne. rewrite Hne. cbn [negb forallb eval_clause].
      assert (Hex : existsb (fun bt => (fst bt =? b_id b) && (snd bt =? tag_id))
                      (bookmark_tags (snd (delete_tag tag_id db))) = false).
      { apply not_true_is_false. intros Hex.
        apply existsb_exists in Hex as (bt & Hbt & Hc).
        apply andb_true_iff in Hc as [_ Hc]. apply String.eqb_eq in Hc.
        unfold delete_tag in Hbt.
        cbn [snd bookmark_tags set_tags set_bookmark_tags] in Hbt.
        apply filter_In in Hbt as [_ Hbt]. apply negb_true_iff in Hbt.
        apply String.eqb_neq in Hbt. contradiction. }
      rewrite Hex. cbn [andb]. now rewrite andb_false_r. }
    unfold sql_count, sql_select, query_clauses. rewrite !Hnone.
    split; [reflexivity|].
    cbn [stable_sort fold_right]. now rewrite limit_offset_nil.
Qed.

Lemma joined_tags_rename tag_id name now db b :
  map t_name
    (joined_tags
       (set_tags db
          (map (fun t => if t_id t =? tag_id
                         then mk_tag (t_id t) name now else t) (tags db))) b)
  = map (fun t => if t_id t =? tag_id then name else t_name t)
      (joined_tags db b).
Proof.
  unfold joined_tags, bookmark_tag_ids. cbn [tags bookmark_tags set_tags].
  induction (stable_sort String.leb
               (map snd (filter (fun bt => fst bt =? b_id b)
                           (bookmark_tags db)))) as [|i l IH];
    [reflexivity|].
  cbn [flat_map]. rewrite !map_app, IH. f_equal.
  clear IH. induction (tags db) as [|t ts IHt]; [reflexivity|].
  cbn [map filter].
  assert (Hid : t_id (if t_id t =? tag_id then mk_tag (t_id t) name now else t)
                = t_id t) by (now destruct (t_id t =? tag_id)).
  rewrite Hid. destruct (t_id t =? i); cbn [map]; rewrite IHt;
    [|reflexivity].
  f_equal. now destruct (t_id t =? tag_id).
Qed.

(** X15. [update_tag] on a stored tag raises [IntegrityError] and
    leaves the store as it was when another tag has the new name;
    otherwise it succeeds, [get_tag] yields the new name with the current
    timestamp, and every bookmark associated with the tag shows the new
    name. *)
Theorem update_tag_renames_everywhere (t : tag_row) (name : string)
  (db : database) :
  NoDup (map t_id (tags db)) -> In t (tags db) ->
  ((exists other, In other (tags db) /\ t_id other <> t_id t /\
                  t_name other = name) ->
   update_tag (t_id t) name db = (Raise IntegrityError, db)) /\
  ((forall other, In other (tags db) -> t_id other <> t_id t ->
                  t_name other <> name) ->
   exists db',
     update_tag (t_id t) name db = (Ok tt, db') /\
     get_tag db' (t_id t)
     = Some (mk_tag (t_id t) name (current_timestamp db)) /\
     bookmark_tags db' = bookmark_tags db /\
     forall b, map t_name (joined_tags db' b)
               = map (fun x => if t_id x =? t_id t then name else t_name x)
                   (joined_tags db b)).
Proof.
  intros Hnd Ht.
  assert (Hmem : mem (t_id t) (map t_id (tags db)) = true)
    by (apply mem_In; now apply in_map).
  split.
  - intros (other & Ho & Hid & Hname). unfold update_tag. rewrite Hmem.
    cbn [andb].
    assert (Hex : existsb
                    (fun x => negb (t_id x =? t_id t) && (t_name x =? name))
                    (tags db) = true).
    { apply existsb_exists. exists other. split; [assumption|].
      apply String.eqb_neq in Hid. rewrite Hid. simpl.
      now apply String.eqb_eq. }
    now rewrite Hex.
  - intros Hfree. unfold update_tag. rewrite Hmem. cbn [andb].
    assert (Hex : existsb
                    (fun x => negb (t_id x =? t_id t) && (t_name x =? name))
                    (tags db) = false).
    { apply not_true_is_false. intros Hex.
      apply existsb_exists in Hex as (o & Ho & Hc).
      apply andb_true_iff in Hc as [H1 H2]. apply negb_true_iff in H1.
      apply String.eqb_neq in H1. apply String.eqb_eq in H2.
      now apply (Hfree o Ho H1). }
    rewrite Hex. eexists. split; [reflexivity|]. split; [|split].
    + unfold get_tag. cbn [tags set_tags].
      set (row := fun x => if t_id x =? t_id t
                           then mk_tag (t_id x) name (current_timestamp db)
                           else x).
      assert (Hf : forall l,
                 filter (fun x => t_id x =? t_id t) (map row l)
                 = map row (filter (fun x => t_id x =? t_id t) l)).
      { induction l as [|x l IH]; [reflexivity|]. cbn [map filter].
        assert (Hid : t_id (row x) = t_id x)
          by (unfold row; now destruct (t_id x =? t_id t)).
        rewrite Hid. destruct (t_id x =? t_id t); cbn [map]; now rewrite IH. }
      rewrite Hf, (filter_first_unique t_id _ t Hnd Ht). cbn [map].
      unfold row. now rewrite String.eqb_refl.
    + reflexivity.
    + intros b. apply joined_tags_rename.
Qed.


(** ** Import *)

Lemma import_grows_refl st : import_grows st st.
Proof.
  exists [], [], [], []. rewrite !app_nil_r. simpl. repeat split; lia.
Qed.

Lemma import_grows_trans st1 st2 st3 :
  import_grows st1 st2 -> import_grows st2 st3 -> import_grows st1 st3.
Proof.
  intros (F & T & B & BT & H1 & H2 & H3 & H4 & H5 & H6 & H7)
         (F' & T' & B' & BT' & K1 & K2 & K3 & K4 & K5 & K6 & K7).
  exists (F ++ F'), (T ++ T'), (B ++ B'), (BT ++ BT').
  rewrite K1, K2, K3, K4, K5, K6, K7, H1, H2, H3, H4, H5, H6, H7.
  rewrite !length_app, <- !app_assoc. repeat split; lia.
Qed.

Lemma import_tags_grows uuid4 :
  forall names acc st r st',
    import_tags uuid4 names acc st = (r, st') -> import_grows st st'.
Proof.
  induction names as [|nm names IH]; intros acc st r st' H.
  - simpl in H. injection H as <- <-. apply import_grows_refl.
  - cbn [import_tags] in H. cbv zeta in H.
    destruct (str_truthy (strip nm)); [|eauto].
    destruct (filter _ (tags (i_db st))) as [|tag found]; [|eauto].
    unfold create_tag in H.
    destruct (mem _ _ || mem _ _) eqn:E.
    + injection H as <- <-.
      exists [], [], [], []. simpl. rewrite !app_nil_r. repeat split; lia.
    + apply IH in H. eapply import_grows_trans; [|exact H].
      exists [], [mk_tag (uuid4 (uuid_draws (i_db st))) (strip nm)
                    (current_timestamp (tick_uuid (i_db st)))], [], [].
      simpl. rewrite !app_nil_r. repeat split; lia.
Qed.

Lemma import_bookmark_grows uuid4 fav n_title n_uri n_annos n_tags scope st
  r st' :
  import_bookmark uuid4 fav n_title n_uri n_annos n_tags scope st = (r, st') ->
  import_grows st st'.
Proof.
  unfold import_bookmark. intros H.
  destruct n_uri as [url|]; [|injection H as <- <-; apply import_grows_refl].
  destruct (negb (str_truthy url));
    [injection H as <- <-; apply import_grows_refl|].
  set (tagged := match n_tags with
                 | Some tags_str =>
                     if tags_truthy tags_str
                     then import_tags uuid4
                            match tags_str with
                            | TagsStr s => split_on "," s
                            | TagsList l => l
                            end [] st
                     else (Ok [], st)
                 | None => (Ok [], st)
                 end) in *.
  assert (Ht : import_grows st (snd tagged)).
  { unfold tagged. destruct n_tags as [t|]; [|apply import_grows_refl].
    destruct (tags_truthy t); [|apply import_grows_refl].
    destruct (import_tags _ _ _ _) as [r0 st0] eqn:E.
    apply import_tags_grows in E. exact E. }
  destruct tagged as [[tag_ids|e] st1]; simpl in Ht;
    [|injection H as <- <-; exact Ht].
  destruct (get_text n_title (Some url)) as [title|];
    cbn [create_bookmark_titled] in H.
  2:{ injection H as <- <-. eapply import_grows_trans; [exact Ht|].
      exists [], [], [], []. simpl. rewrite !app_nil_r. repeat split; lia. }
  unfold create_bookmark in H.
  destruct (mem _ _) eqn:Em.
  { injection H as <- <-. eapply import_grows_trans; [exact Ht|].
    exists [], [], [], []. simpl. rewrite !app_nil_r. repeat split; lia. }
  destruct (insert_bookmark_tags _ tag_ids _) as [bt|e] eqn:Hins.
  - injection H as <- <-. eapply import_grows_trans; [exact Ht|].
    apply insert_bookmark_tags_Ok in Hins as (-> & _ & _).
    eexists [], [], [_], (map _ tag_ids). simpl. rewrite !app_nil_r.
    repeat split; lia.
  - injection H as <- <-. eapply import_grows_trans; [exact Ht|].
    exists [], [], [], []. simpl. rewrite !app_nil_r. repeat split; lia.
Qed.

Lemma process_each_grows uuid4 fav fuel children :
  Forall (fun c => forall scope st r st',
            process_container uuid4 fav fuel c scope st = (r, st') ->
            import_grows st st') children ->
  forall scope st r st',
    process_each uuid4 fav fuel children scope st = (r, st') ->
    import_grows st st'.
Proof.
  unfold process_each.
  induction 1 as [|c cs Hc _ IH]; intros scope st r st' H.
  - simpl in H. injection H as <- <-. apply import_grows_refl.
  - cbn [process_children] in H.
    destruct (process_container uuid4 fav fuel c scope st) as [[u|e] st1] eqn:E.
    + eapply import_grows_trans; [eapply Hc; exact E | eapply IH; exact H].
    + injection H as <- <-. eapply Hc; exact E.
Qed.

Lemma process_container_grows uuid4 fav :
  forall fuel n scope st r st',
    process_container uuid4 fav fuel n scope st = (r, st') ->
    import_grows st st'.
Proof.
  induction fuel as [|fuel IH]; intros n scope st r st' H.
  - simpl in H. injection H as <- <-. apply import_grows_refl.
  - destruct n as [n_type n_guid n_title n_uri n_annos n_tags children].
    assert (Hchildren : Forall (fun c => forall scope st r st',
              process_container uuid4 fav fuel c scope st = (r, st') ->
              import_grows st st') children)
      by (apply Forall_forall; intros c _; apply IH).
    cbn [process_container] in H. fold (process_each uuid4 fav fuel) in H.
    destruct (opt_eqb n_type place_container).
    + destruct (mem _ special_guids);
        [eapply process_each_grows; eassumption|].
      destruct (get_text n_title (Some "Untitled Folder")) as [folder_title|];
        [|injection H as <- <-; apply import_grows_refl].
      destruct (str_truthy folder_title);
        [|injection H as <- <-; apply import_grows_refl].
      unfold create_folder in H. destruct (mem _ _).
      * injection H as <- <-. exists [], [], [], []. simpl.
        rewrite !app_nil_r. repeat split; lia.
      * eapply import_grows_trans;
          [|eapply process_each_grows; [exact Hchildren | exact H]].
        eexists [_], [], [], []. simpl. rewrite !app_nil_r.
        repeat split; lia.
    + destruct (opt_eqb n_type place).
      * eapply import_bookmark_grows; exact H.
      * injection H as <- <-. apply import_grows_refl.
Qed.

(** X16. [import_from_firefox_json], whatever the document and the
    recursion budget and whether or not it raises, only appends: every
    table of the store afterwards is the table before followed by new
    rows.  When it returns, the statistics are the numbers of folder, tag
    and bookmark rows it appended. *)
Theorem import_appends_and_counts (uuid4 : nat -> string)
  (fav : string -> option string) (fuel : nat) (json_data : node)
  (db : database) :
  let db' := snd (import_from_firefox_json uuid4 fav fuel json_data db) in
  exists F T B BT,
    folders db' = folders db ++ F /\
    tags db' = tags db ++ T /\
    bookmarks db' = bookmarks db ++ B /\
    bookmark_tags db' = bookmark_tags db ++ BT /\
    forall stats,
      fst (import_from_firefox_json uuid4 fav fuel json_data db) = Ok stats ->
      s_folders stats = length F /\ s_tags stats = length T /\
      s_bookmarks stats = length B.
Proof.
  unfold import_from_firefox_json.
  destruct (process_container uuid4 fav fuel json_data None
              (mk_import db (mk_stats 0 0 0) [])) as [r st] eqn:E.
  apply process_container_grows in E
    as (F & T & B & BT & H1 & H2 & H3 & H4 & H5 & H6 & H7).
  simpl in *. exists F, T, B, BT. repeat split; try assumption;
    destruct r as [u|e]; simpl in H; try discriminate;
    injection H as <-; assumption.
Qed.


(** ** Repeated tags and the layout of the export *)

(** *** Repeated tags in one leaf *)

Lemma import_tags_Raise uuid4 :
  forall names acc st e st',
    import_tags uuid4 names acc st = (Raise e, st') -> e = IntegrityError.
Proof.
  induction names as [|nm names IH]; intros acc st e st' H; [discriminate|].
  cbn [import_tags] in H. cbv zeta in H.
  destruct (str_truthy (strip nm)); [|eauto].
  destruct (filter _ (tags (i_db st))) as [|tag found]; [|eauto].
  unfold create_tag in H. destruct (mem _ _ || mem _ _); [|eauto].
  now injection H as <- _.
Qed.

Lemma tag_id_of_name_grows db db' T nm id :
  tags db' = tags db ++ T ->
  tag_id_of_name db nm = Some id -> tag_id_of_name db' nm = Some id.
Proof.
  unfold tag_id_of_name. intros -> H. rewrite filter_app.
  destruct (filter _ (tags db)) as [|t l]; [discriminate | exact H].
Qed.

Lemma import_tags_ids uuid4 :
  forall names acc st ids st',
    import_tags uuid4 names acc st = (Ok ids, st') ->
    exists new,
      ids = acc ++ new /\
      map Some new
      = map (tag_id_of_name (i_db st')) (filter str_truthy (map strip names)).
Proof.
  induction names as [|nm names IH]; intros acc st ids st' H.
  - simpl in H. injection H as <- <-. exists []. now rewrite app_nil_r.
  - cbn [import_tags] in H. cbv zeta in H. cbn [map filter].
    destruct (str_truthy (strip nm)) eqn:Hs; [|eauto].
    destruct (filter (fun t => t_name t =? strip nm) (tags (i_db st)))
      as [|tag found] eqn:Hf.
    + unfold create_tag in H.
      destruct (mem _ _ || mem _ _) eqn:E; [discriminate|].
      pose proof H as Hg. apply import_tags_grows in Hg
        as (_ & T & _ & _ & _ & HT & _).
      apply IH in H as (new & -> & Hnew).
      exists (uuid4 (uuid_draws (i_db st)) :: new).
      split; [now rewrite <- app_assoc|]. cbn [map]. f_equal; [|exact Hnew].
      symmetry. eapply tag_id_of_name_grows; [exact HT|].
      unfold tag_id_of_name. cbn [i_db tags set_tags tick_uuid].
      rewrite filter_app, Hf. simpl. now rewrite String.eqb_refl.
    + pose proof H as Hg. apply import_tags_grows in Hg
        as (_ & T & _ & _ & _ & HT & _).
      apply IH in H as (new & -> & Hnew).
      exists (t_id tag :: new).
      split; [now rewrite <- app_assoc|]. cbn [map]. f_equal; [|exact Hnew].
      symmetry. eapply tag_id_of_name_grows; [exact HT|].
      unfold tag_id_of_name. now rewrite Hf.
Qed.

Lemma NoDup_map_Some {A} (l : list A) : NoDup l -> NoDup (map Some l).
Proof.
  induction 1 as [|x l Hx Hl IH]; simpl; constructor; [|assumption].
  intros Hin. apply in_map_iff in Hin as (y & E & Hy).
  injection E as ->. contradiction.
Qed.

(** X17. Importing a bookmark leaf with a URL whose tag names, once
    stripped and the empty ones dropped, contain a name twice raises
    [IntegrityError], whatever its title and the (positive) recursion
    budget. *)
Theorem import_repeated_tag_raises (uuid4 : nat -> string)
  (fav : string -> option string) (fuel : nat) (n_guid : option string)
  (n_title : json_text) (url : string) (n_annos : list anno)
  (n_tags : option tags_value) (n_children : list node)
  (scope : option string) (st : import_state) :
  url <> "" -> ~ NoDup (leaf_tag_names n_tags) ->
  fst (process_container uuid4 fav (S fuel)
         (mk_node (Some place) n_guid n_title (Some url) n_annos n_tags
            n_children) scope st)
  = Raise IntegrityError.
Proof.
  intros Hurl Hdup. cbn [process_container].
  change (opt_eqb (Some place) place_container) with false.
  change (opt_eqb (Some place) place) with true. cbv iota.
  unfold import_bookmark. unfold str_truthy at 1.
  apply String.eqb_neq in Hurl. rewrite Hurl. cbn [negb].
  unfold leaf_tag_names in Hdup.
  destruct n_tags as [t|]; [|exfalso; apply Hdup; constructor].
  destruct (tags_truthy t); [|exfalso; apply Hdup; constructor].
  destruct (import_tags uuid4 _ [] st) as [[ids|e] st1] eqn:Ht.
  2:{ apply import_tags_Raise in Ht. now subst. }
  apply import_tags_ids in Ht as (new & -> & Hnew). simpl in Hnew |- *.
  assert (Hnd : ~ NoDup new).
  { intros Hnd. apply Hdup. apply NoDup_map_Some in Hnd. rewrite Hnew in Hnd.
    eapply NoDup_map_inv. exact Hnd. }
  destruct (get_text n_title (Some url)) as [title|];
    cbn [create_bookmark_titled]; [|reflexivity].
  unfold create_bookmark. destruct (mem _ _); [reflexivity|].
  destruct (insert_bookmark_tags _ new _) as [bt|e] eqn:Hins.
  - apply insert_bookmark_tags_Ok in Hins as (_ & Hok & _). contradiction.
  - apply insert_bookmark_tags_Raise in Hins. now subst.
Qed.

(** *** The layout of the export *)

Lemma dict_set_keys {V} (k k' : string) (v : V) d :
  dict_get k (dict_set k' v d) <> None <-> k = k' \/ dict_get k d <> None.
Proof.
  destruct (string_dec k' k) as [<-|Hne].
  - rewrite dict_get_set_same. split; [now left | discriminate].
  - rewrite dict_get_set_other by assumption. split; [now right|].
    intros [->|H]; [contradiction | assumption].
Qed.

Lemma export_folder_step_keyed l st r :
  folders_keyed l st -> folders_keyed (l ++ [r]) (export_folder_step st r).
Proof.
  destruct st as [fm roots]. intros (Hk & Hc & Hr). simpl in Hk, Hc, Hr.
  unfold export_folder_step.
  set (fm1 := dict_set (f_id r) (mk_folder_node (f_id r) (f_name r) []) fm).
  assert (Hk1 : forall k, In k (map f_id (l ++ [r])) <-> dict_get k fm1 <> None).
  { intros k. unfold fm1. rewrite dict_set_keys, map_app, in_app_iff, Hk.
    simpl. split.
    - intros [H|[H|[]]]; [now right | left; now symmetry].
    - intros [H|H]; [right; left; now symmetry | now left]. }
  assert (Hc1 : forall k fn c, dict_get k fm1 = Some fn -> In c (fn_children fn) ->
                               exists id, c = FolderRef id).
  { intros k fn c Hget Hin. unfold fm1 in Hget.
    destruct (string_dec (f_id r) k) as [<-|Hne].
    - rewrite dict_get_set_same in Hget. injection Hget as <-. destruct Hin.
    - rewrite dict_get_set_other in Hget by assumption. eauto. }
  assert (Hroot : forall b, is_root r = b ->
             map FolderRef (map f_id (filter is_root (l ++ [r])))
             = roots ++ (if b then [FolderRef (f_id r)] else [])).
  { intros b <-. rewrite filter_app, !map_app, <- Hr. simpl.
    now destruct (is_root r). }
  assert (Hir : is_root r = negb (opt_truthy (f_parent_id r))) by reflexivity.
  destruct (opt_truthy (f_parent_id r)) eqn:Ht.
  - assert (Hroots : map FolderRef (map f_id (filter is_root (l ++ [r]))) = roots).
    { rewrite (Hroot false Hir). apply app_nil_r. }
    destruct (f_parent_id r) as [p|]; [|discriminate].
    destruct (dict_get p fm1) as [parent|] eqn:Hp;
      [|split; [|split]; simpl; [assumption | assumption | now symmetry]].
    split; [|split]; simpl; [| |now symmetry].
    + intros k. rewrite dict_set_keys, Hk1. split; [now right|].
      intros [->|H]; [now rewrite Hp | assumption].
    + intros k fn c Hget Hin.
      destruct (string_dec p k) as [<-|Hne].
      * rewrite dict_get_set_same in Hget. injection Hget as <-.
        simpl in Hin. apply in_app_or in Hin as [Hin|[<-|[]]]; eauto.
      * rewrite dict_get_set_other in Hget by assumption. eauto.
  - split; [|split]; simpl; [assumption | assumption |].
    now rewrite (Hroot true Hir).
Qed.

Lemma export_folder_loop_keyed :
  forall post pre st,
    folders_keyed pre st ->
    folders_keyed (pre ++ post) (fold_left export_folder_step post st).
Proof.
  induction post as [|r post IH]; intros pre st Hst; simpl.
  - now rewrite app_nil_r.
  - replace (pre ++ r :: post) with ((pre ++ [r]) ++ post)
      by (rewrite <- app_assoc; reflexivity).
    apply IH. now apply export_folder_step_keyed.
Qed.

Lemma filed_in_true k x :
  filed_in k x = true <->
  b_folder_id (fst x) = Some k /\ k <> "".
Proof.
  unfold filed_in. rewrite andb_true_iff, opt_eqb_Some. split.
  - intros [Ht E]. split; [assumption|]. rewrite E in Ht. simpl in Ht.
    unfold str_truthy in Ht. apply negb_true_iff in Ht.
    now apply String.eqb_neq.
  - intros [E Hk]. split; [|assumption]. rewrite E. simpl.
    unfold str_truthy. apply negb_true_iff. now apply String.eqb_neq.
Qed.

Lemma export_bookmark_step_filed fm0 bs st x :
  bookmarks_filed fm0 bs st ->
  bookmarks_filed fm0 (bs ++ [x]) (export_bookmark_step st x).
Proof.
  destruct st as [fm un]. destruct x as [b tag_names].
  intros (Hd & Hu). simpl in Hd, Hu. unfold export_bookmark_step.
  assert (Hun : forall c, filed_known fm0 (b, tag_names) = c ->
             map BookmarkLeaf
               (map leaf_of
                  (filter (fun x => negb (filed_known fm0 x))
                     (bs ++ [(b, tag_names)])))
             = un ++ (if c then []
                      else [BookmarkLeaf (bookmark_node b tag_names)])).
  { intros c <-. rewrite filter_app, !map_app, <- Hu. simpl.
    now destruct (filed_known fm0 (b, tag_names)). }
  assert (Hsame : (forall k, filed_in k (b, tag_names) = false) ->
             forall k, export_leaves (bs ++ [(b, tag_names)]) k
                       = export_leaves bs k).
  { intros Hno k. rewrite export_leaves_snoc, Hno. apply app_nil_r. }
  assert (Hfk : filed_known fm0 (b, tag_names)
                = match b_folder_id b with
                  | Some fid =>
                      str_truthy fid
                      && match dict_get fid fm0 with
                         | Some _ => true
                         | None => false
                         end
                  | None => false
                  end) by reflexivity.
  destruct (opt_truthy (b_folder_id b)) eqn:Ht.
  - destruct (b_folder_id b) as [fid|] eqn:Hf; [|discriminate].
    simpl in Ht. rewrite Ht in Hfk. cbn [andb] in Hfk.
    pose proof (Hd fid) as Hfid.
    destruct (dict_get fid fm0) as [fn0|] eqn:H0; simpl in Hfid.
    + rewrite Hfid. split; simpl.
      * intros k. destruct (string_dec fid k) as [<-|Hne].
        -- rewrite dict_get_set_same, H0. simpl. f_equal. f_equal.
           rewrite export_leaves_snoc.
           assert (E : filed_in fid (b, tag_names) = true).
           { apply filed_in_true. split; [assumption|].
             unfold str_truthy in Ht. apply negb_true_iff in Ht.
             now apply String.eqb_neq. }
           rewrite E, map_app, app_assoc. reflexivity.
        -- rewrite dict_get_set_other by assumption. rewrite Hd.
           rewrite export_leaves_snoc.
           rewrite (filed_in_other (b, tag_names) fid k Hf)
             by (intros E; now apply Hne).
           now rewrite app_nil_r.
      * rewrite (Hun true Hfk). now rewrite app_nil_r.
    + rewrite Hfid. split; simpl.
      * intros k. rewrite Hd. destruct (string_dec fid k) as [<-|Hne].
        -- now rewrite H0.
        -- rewrite export_leaves_snoc.
           rewrite (filed_in_other (b, tag_names) fid k Hf)
             by (intros E; now apply Hne).
           now rewrite app_nil_r.
      * now rewrite (Hun false Hfk).
  - assert (Hno : forall k, filed_in k (b, tag_names) = false).
    { intros k. unfold filed_in. cbn [fst]. now rewrite Ht. }
    assert (Hc : filed_known fm0 (b, tag_names) = false).
    { rewrite Hfk. destruct (b_folder_id b) as [fid|]; [|reflexivity].
      simpl in Ht. now rewrite Ht. }
    split; simpl.
    + intros k. rewrite Hd. now rewrite Hsame.
    + now rewrite (Hun false Hc).
Qed.

Lemma export_bookmark_loop_filed fm0 :
  forall post pre st,
    bookmarks_filed fm0 pre st ->
    bookmarks_filed fm0 (pre ++ post) (fold_left export_bookmark_step post st).
Proof.
  induction post as [|x post IH]; intros pre st Hst; simpl.
  - now rewrite app_nil_r.
  - replace (pre ++ x :: post) with ((pre ++ [x]) ++ post)
      by (rewrite <- app_assoc; reflexivity).
    apply IH. now apply export_bookmark_step_filed.
Qed.

(** X18. In the graph [export_to_firefox_json] returns, the toolbar
    holds the folders without parent reference in the order of their
    names, followed by the bookmarks that are filed in no stored folder,
    newest first; every stored folder has a node, and the bookmark leaves
    among the children of a node are exactly the bookmarks filed in that
    folder. *)
Theorem export_places_every_bookmark (db : database) :
  let g := export_to_firefox_json db in
  let fs := export_folders db in
  let bs := export_bookmarks db in
  e_toolbar_children g
  = map FolderRef (map f_id (filter is_root fs))
    ++ map BookmarkLeaf (export_unorganized (map f_id fs) bs) /\
  (forall k, In k (folder_ids db) <-> dict_get k (e_folder_map g) <> None) /\
  (forall k fn, dict_get k (e_folder_map g) = Some fn ->
     forall n, In (BookmarkLeaf n) (fn_children fn)
               <-> In n (export_leaves bs k)).
Proof.
  cbv zeta. unfold export_to_firefox_json.
  pose proof (export_folder_loop_keyed (export_folders db) [] ([], [])) as Hf.
  destruct (fold_left export_folder_step (export_folders db) ([], []))
    as [fm0 roots].
  destruct Hf as (Hk & Hc & Hr).
  { split; [|split]; simpl; [|discriminate | reflexivity].
    intros k. split; [intros [] | intros H; now apply H]. }
  simpl in Hk, Hc, Hr.
  pose proof (export_bookmark_loop_filed fm0 (export_bookmarks db) []
                (fm0, [])) as Hb.
  destruct (fold_left export_bookmark_step (export_bookmarks db) (fm0, []))
    as [fm un].
  destruct Hb as (Hd & Hu).
  { split; simpl; [|reflexivity]. intros k.
    destruct (dict_get k fm0) as [fn|]; [|reflexivity].
    simpl. rewrite app_nil_r. now destruct fn. }
  simpl in Hd, Hu. cbn [e_toolbar_children e_folder_map].
  split; [|split].
  - rewrite Hr, Hu. f_equal. f_equal. unfold export_unorganized. f_equal.
    apply filter_ext. intros x. f_equal.
    unfold filed_known.
    destruct (existsb (fun id => filed_in id x) (map f_id (export_folders db)))
      eqn:E.
    + apply existsb_exists in E as (k & Hin & Hfi).
      apply filed_in_true in Hfi as [Hf Hne]. rewrite Hf.
      apply Hk in Hin. unfold str_truthy. apply String.eqb_neq in Hne.
      rewrite Hne. simpl. destruct (dict_get k fm0); [reflexivity | contradiction].
    + destruct (b_folder_id (fst x)) as [fid|] eqn:Hf; [|reflexivity].
      destruct (str_truthy fid) eqn:Ht; [|reflexivity]. simpl.
      destruct (dict_get fid fm0) as [fn|] eqn:Hg; [|reflexivity].
      exfalso. assert (Hin : In fid (map f_id (export_folders db)))
        by (apply Hk; rewrite Hg; discriminate).
      assert (existsb (fun id => filed_in id x)
                (map f_id (export_folders db)) = true); [|congruence].
      apply existsb_exists. exists fid. split; [assumption|].
      apply filed_in_true. split; [assumption|].
      unfold str_truthy in Ht. apply negb_true_iff in Ht.
      now apply String.eqb_neq.
  - intros k. rewrite Hd. unfold folder_ids.
    assert (Hp : In k (map f_id (folders db))
                 <-> In k (map f_id (export_folders db))).
    { split; intros H; eapply Permutation_in; try exact H;
        apply Permutation_map;
        [apply Permutation_sym|]; apply export_folders_perm. }
    rewrite Hp, Hk. destruct (dict_get k fm0); simpl; split; intros H;
      try discriminate; try assumption; now apply H.
  - intros k fn Hget n. rewrite Hd in Hget.
    destruct (dict_get k fm0) as [fn0|] eqn:H0; [|discriminate].
    simpl in Hget. injection Hget as <-. simpl.
    rewrite in_app_iff, in_map_iff. split.
    + intros [Hin|(m & E & Hm)].
      * destruct (Hc _ _ _ H0 Hin) as (id & Hid). discriminate.
      * now injection E as <-.
    + intros Hin. right. eauto.
Qed.


(** ** Live search and page titles *)



(** *** [strip] *)

Lemma lstrip_no_leading_space s : no_leading_space (lstrip s).
Proof.
  induction s as [|c s IH]; simpl; [exact I|].
  destruct (is_space c) eqn:E; [exact IH | exact E].
Qed.

Lemma lstrip_fixed s : no_leading_space s -> lstrip s = s.
Proof. destruct s as [|c s]; simpl; [reflexivity|]. now intros ->. Qed.

Lemma rstrip_no_leading_space s :
  no_leading_space s -> no_leading_space (rstrip s).
Proof.
  destruct s as [|c s]; simpl; [auto|]. intros Hc.
  destruct (rstrip s); [rewrite Hc|]; exact Hc.
Qed.

Lemma rstrip_cons c s :
  rstrip (String c s)
  = match rstrip s with
    | EmptyString => if is_space c then EmptyString else String c EmptyString
    | String a r => String c (String a r)
    end.
Proof. reflexivity. Qed.

Lemma rstrip_idempotent s : rstrip (rstrip s) = rstrip s.
Proof.
  induction s as [|c s IH]; [reflexivity|]. rewrite rstrip_cons.
  destruct (rstrip s) as [|d r] eqn:E.
  - destruct (is_space c) eqn:Ec; [reflexivity|].
    rewrite rstrip_cons. cbn [rstrip]. now rewrite Ec.
  - rewrite rstrip_cons, IH. reflexivity.
Qed.

Lemma strip_idempotent s : strip (strip s) = strip s.
Proof.
  unfold strip.
  rewrite (lstrip_fixed (rstrip (lstrip s)))
    by apply rstrip_no_leading_space, lstrip_no_leading_space.
  apply rstrip_idempotent.
Qed.

(** X20. A title [extract_title] returns has no whitespace at either
    end, and a non-empty [og:title] content decides the result whatever
    else the document holds. *)
Theorem extract_title_is_stripped (soup : list html_tag) :
  (forall t, extract_title soup = Some t -> strip t = t) /\
  (forall og_title content,
     soup_find "meta" (Some ("property", "og:title")) soup = Some og_title ->
     dict_get "content" (tag_attrs og_title) = Some content ->
     content <> "" ->
     extract_title soup = Some (strip content)).
Proof.
  split.
  - intros t. unfold extract_title.
    match goal with
    | |- (if opt_truthy ?x then option_map strip ?x else None) = Some t -> _ =>
        destruct x as [s|]; simpl
    end.
    + destruct (str_truthy s); [|discriminate].
      intros [= <-]. apply strip_idempotent.
    + discriminate.
  - intros og content Hfind Hget Hne. unfold extract_title.
    rewrite Hfind, Hget.
    assert (Ht : opt_truthy (Some content) = true).
    { simpl. unfold str_truthy. apply negb_true_iff. now apply String.eqb_neq. }
    repeat (rewrite Ht; cbn [negb]). reflexivity.
Qed.


(** ** The subtree of a folder and the folder filter *)

(** X21. On a store without parent cycle, with a recursion budget above
    the number of folders, [get_folder_with_descendants] returns a list
    that starts with the folder itself and holds exactly the ids that are
    the folder or lie below it. *)
Theorem descendants_are_the_subtree (db : database) (fuel : nat) (F : string) :
  acyclic db -> length (folders db) < fuel ->
  exists l,
    get_folder_with_descendants fuel db F = Ok l /\
    hd_error l = Some F /\
    forall x, In x l <-> at_or_below db x F.
Proof.
  intros Hac Hfuel. unfold get_folder_with_descendants.
  destruct (get_descendants_terminates db fuel F Hac Hfuel) as (l & Hl).
  exists l. split; [assumption|]. split.
  - destruct fuel as [|fuel]; [discriminate|]. cbn [get_descendants] in Hl.
    apply extend_each_Ok in Hl. destruct Hl as (ls & _ & ->). reflexivity.
  - intros x. split.
    + now apply (get_descendants_sound db fuel F l).
    + now apply (get_descendants_complete fuel db F l).
Qed.

Lemma unlimited_page fuel db folder_id include_subfolders sort_by sort_order
  ids :
  scope_folder_ids fuel db folder_id include_subfolders = Ok ids ->
  exists r,
    get_all_bookmarks fuel db folder_id None None sort_by sort_order
      include_subfolders 1 (-1) = Ok r /\
    forall b, In b (map v_row (r_bookmarks r)) <->
              In b (bookmarks db) /\
              spec_in_scope fuel db folder_id include_subfolders b = true.
Proof.
  intros Hids. eexists. split.
  - apply get_all_bookmarks_unlimited; exact Hids.
  - intros b. cbn [r_bookmarks]. rewrite map_v_row_view.
    rewrite sql_select_In. unfold query_clauses.
    cbn [tag_clauses search_clauses]. rewrite !app_nil_r.
    now rewrite (folder_clauses_spec fuel db folder_id include_subfolders ids).
Qed.

(** X22. The folder filter of [get_all_bookmarks], with no tag and no
    search and without page limit: with [include_subfolders] it selects
    exactly the bookmarks filed in the folder or in a folder below it,
    without it exactly the bookmarks filed in the folder itself, and for
    the folder id "unfiled" exactly the bookmarks with a null folder
    reference. *)
Theorem folder_filter_selects_the_subtree
  (fuel : nat) (db : database) (F sort_by sort_order : string) :
  acyclic db -> length (folders db) < fuel -> F <> "" -> F <> "unfiled" ->
  exists deep flat unfiled,
    get_all_bookmarks fuel db (Some F) None None sort_by sort_order true
      1 (-1) = Ok deep /\
    get_all_bookmarks fuel db (Some F) None None sort_by sort_order false
      1 (-1) = Ok flat /\
    get_all_bookmarks fuel db (Some "unfiled") None None sort_by sort_order
      true 1 (-1) = Ok unfiled /\
    (forall b, In b (map v_row (r_bookmarks deep)) <->
               In b (bookmarks db) /\
               exists f, b_folder_id b = Some f /\ at_or_below db f F) /\
    (forall b, In b (map v_row (r_bookmarks flat)) <->
               In b (bookmarks db) /\ b_folder_id b = Some F) /\
    (forall b, In b (map v_row (r_bookmarks unfiled)) <->
               In b (bookmarks db) /\ b_folder_id b = None).
Proof.
  intros Hac Hfuel Hne Hnu.
  apply String.eqb_neq in Hne, Hnu.
  destruct (get_descendants_terminates db fuel F Hac Hfuel) as (l & Hl).
  assert (Hsub : forall x, In x l <-> at_or_below db x F).
  { intros x. split.
    - now apply (get_descendants_sound db fuel F l).
    - now apply (get_descendants_complete fuel db F l). }
  change (get_descendants fuel db F)
    with (get_folder_with_descendants fuel db F) in Hl.
  destruct (unlimited_page fuel db (Some F) true sort_by sort_order l)
    as (deep & Hdeep & Hd).
  { unfold scope_folder_ids, str_truthy. simpl. now rewrite Hne, Hnu. }
  destruct (unlimited_page fuel db (Some F) false sort_by sort_order [F])
    as (flat & Hflat & Hf).
  { unfold scope_folder_ids, str_truthy. simpl. now rewrite Hne, Hnu. }
  destruct (unlimited_page fuel db (Some "unfiled") true sort_by sort_order [])
    as (unfiled & Hunf & Hu).
  { reflexivity. }
  exists deep, flat, unfiled.
  split; [assumption|]. split; [assumption|]. split; [assumption|].
  split; [|split].
  - intros b. rewrite Hd. unfold spec_in_scope. rewrite Hne, Hnu, Hl.
    rewrite existsb_opt_eqb. unfold in_descendants.
    destruct (b_folder_id b) as [f|].
    + rewrite Hsub. split.
      * intros [Hb Hin]. split; [assumption | eauto].
      * intros [Hb (f' & E & Hin)]. injection E as <-. auto.
    + split; [intros [_ []] | intros [_ (f' & E & _)]; discriminate].
  - intros b. rewrite Hf. unfold spec_in_scope. rewrite Hne, Hnu.
    now rewrite opt_eqb_Some.
  - intros b. rewrite Hu. unfold spec_in_scope.
    change ("unfiled" =? "") with false.
    change ("unfiled" =? "unfiled") with true. cbv iota.
    destruct (b_folder_id b); split; intros [Hb E]; split;
      try assumption; try reflexivity; discriminate.
Qed.

Lemma descendants_are_the_subtree_witness :
  exists l,
    get_folder_with_descendants 5 sample_db "f-work" = Ok l /\
    hd_error l = Some "f-work" /\
    forall x, In x l <-> at_or_below sample_db x "f-work".
Proof.
  apply (descendants_are_the_subtree sample_db 5 "f-work").
  - exact sample_db_acyclic.
  - simpl. lia.
Defined.

Lemma folder_filter_selects_the_subtree_witness :
  exists deep flat unfiled,
    get_all_bookmarks 5 sample_db (Some "f-work") None None "title" "asc" true
      1 (-1) = Ok deep /\
    get_all_bookmarks 5 sample_db (Some "f-work") None None "title" "asc" false
      1 (-1) = Ok flat /\
    get_all_bookmarks 5 sample_db (Some "unfiled") None None "title" "asc"
      true 1 (-1) = Ok unfiled /\
    (forall b, In b (map v_row (r_bookmarks deep)) <->
               In b (bookmarks sample_db) /\
               exists f, b_folder_id b = Some f /\
                         at_or_below sample_db f "f-work") /\
    (forall b, In b (map v_row (r_bookmarks flat)) <->
               In b (bookmarks sample_db) /\ b_folder_id b = Some "f-work") /\
    (forall b, In b (map v_row (r_bookmarks unfiled)) <->
               In b (bookmarks sample_db) /\ b_folder_id b = None).
Proof.
  apply (folder_filter_selects_the_subtree 5 sample_db "f-work" "title" "asc").
  - exact sample_db_acyclic.
  - simpl. lia.
  - discriminate.
  - discriminate.
Defined.


(** ** The properties on the sample store *)

Lemma sample_db_folder_ids : NoDup (folder_ids sample_db).
Proof. repeat constructor; simpl; intuition discriminate. Qed.

Lemma sample_db_store_ok : store_ok sample_db.
Proof.
  split; [exact sample_db_folder_ids|].
  split; [repeat constructor; simpl; intuition discriminate|].
  split; [repeat constructor; simpl; intuition discriminate|].
  split; [repeat constructor; simpl; intuition discriminate|].
  split; [repeat constructor; simpl; intuition discriminate|].
  exact pinned_ok_sample_db.
Qed.

Lemma get_folder_parent_chain_witness :
  (forall folder_id, ~ In folder_id (folder_ids sample_db) ->
                     get_folder 4 sample_db folder_id = Finished None) /\
  (forall r, In r (folders sample_db) ->
     exists chain,
       get_folder 4 sample_db (f_id r) = Finished (Some (r, chain)) /\
       climbs sample_db (f_parent_id r) (rev chain)).
Proof.
  apply (get_folder_parent_chain sample_db 4).
  - exact sample_db_folder_ids.
  - exact sample_db_acyclic.
  - simpl. lia.
Defined.

Lemma hierarchy_lists_every_rooted_folder_witness :
  exists fd roots,
    get_folder_hierarchy 5 sample_db = Ok (fd, roots) /\
    NoDup roots /\
    (forall k, In k roots <->
               exists r, In r (folders sample_db) /\ f_id r = k /\
                         f_parent_id r = None) /\
    (forall k n, dict_get k fd = Some n ->
       NoDup (h_children n) /\
       (forall c, In c (h_children n) <-> parent_edge sample_db c k) /\
       h_subfolder_count n = length (h_children n)) /\
    (forall x m, up_len sample_db x m -> reachable_ref fd roots x).
Proof.
  apply (hierarchy_lists_every_rooted_folder sample_db 5).
  - exact sample_db_folder_ids.
  - simpl. lia.
Defined.

Lemma hierarchy_sorted_by_name_witness :
  exists fd roots,
    get_folder_hierarchy 5 sample_db = Ok (fd, roots) /\
    (forall r, In r (folders sample_db) -> name_of_ref fd (f_id r) = f_name r) /\
    StronglySorted (key_le fd) roots /\
    (forall x n, reachable_ref fd roots x -> dict_get x fd = Some n ->
                 StronglySorted (key_le fd) (h_children n)).
Proof.
  apply (hierarchy_sorted_by_name sample_db 5).
  - exact sample_db_folder_ids.
  - simpl. lia.
Defined.

Lemma create_bookmark_then_get_witness :
  exists tags,
    get_bookmark
      (snd (create_bookmark sample_uuid4 "https://rocq-prover.org" "Rocq"
              "prover" (Some "f-rocq") ["t-dev"] None sample_db))
      "a-uuid"
    = Some (mk_bookmark "a-uuid" "https://rocq-prover.org" "Rocq"
              (Some "prover") None (Some "f-rocq") 0 "2024-01-03 00:00:00",
            tags) /\
    forall tid name,
      In (tid, name) tags <->
      In tid ["t-dev"] /\ stored_tag sample_db tid name.
Proof.
  apply (create_bookmark_then_get sample_uuid4 "https://rocq-prover.org"
           "Rocq" "prover" (Some "f-rocq") ["t-dev"] None sample_db
           (snd (create_bookmark sample_uuid4 "https://rocq-prover.org" "Rocq"
                   "prover" (Some "f-rocq") ["t-dev"] None sample_db))
           "a-uuid").
  - reflexivity.
  - simpl. intros bt [<-|[<-|[<-|[]]]]; discriminate.
Defined.

Lemma update_bookmark_needs_distinct_tags_witness :
  fst (update_bookmark "b-py" "https://python.org" "Python" "language" None
         ["t-dev"] None sample_db) = Ok tt /\
  update_bookmark "b-py" "https://python.org" "Python" "language" None
    ["t-dev"; "t-dev"] None sample_db = (Raise IntegrityError, sample_db).
Proof.
  split.
  - apply (update_bookmark_needs_distinct_tags "b-py" "https://python.org"
             "Python" "language" None ["t-dev"] None sample_db).
    repeat constructor; simpl; intuition discriminate.
  - apply (update_bookmark_needs_distinct_tags "b-py" "https://python.org"
             "Python" "language" None ["t-dev"; "t-dev"] None sample_db).
    intros H. inversion H as [|x l Hx Hl]. apply Hx. now left.
Defined.

Lemma update_bookmark_then_get_witness :
  exists db' tags,
    update_bookmark "b-py" "https://docs.python.org" "Python docs" "manual"
      (Some "f-home") ["t-fun"] None sample_db = (Ok tt, db') /\
    get_bookmark db' "b-py"
    = Some (mk_bookmark "b-py" "https://docs.python.org" "Python docs"
              (Some "manual") None (Some "f-home") 0 "2024-01-03 00:00:00",
            tags) /\
    (forall tid name,
       In (tid, name) tags <->
       In tid ["t-fun"] /\ stored_tag sample_db tid name) /\
    (forall other, other <> "b-py" ->
                   get_bookmark db' other = get_bookmark sample_db other).
Proof.
  apply (update_bookmark_then_get sample_bookmark "https://docs.python.org"
           "Python docs" "manual" (Some "f-home") ["t-fun"] None sample_db).
  - repeat constructor; simpl; intuition discriminate.
  - simpl. now left.
  - repeat constructor; simpl; intuition discriminate.
Defined.

Lemma toggle_pin_twice_witness :
  toggle_pin "b-none" sample_db = (Ok None, sample_db) /\
  fst (toggle_pin "b-py" sample_db) = Ok (Some 1%Z) /\
  fst (toggle_pin "b-py" (snd (toggle_pin "b-py" sample_db))) = Ok (Some 0%Z).
Proof.
  destruct (toggle_pin_twice sample_db) as [Hmissing Hstored]. split.
  - apply Hmissing. simpl. intuition discriminate.
  - destruct (Hstored sample_bookmark) as (H1 & H2 & _).
    + repeat constructor; simpl; intuition discriminate.
    + simpl. now left.
    + split; [exact H1 | exact H2].
Defined.

Lemma tidy_db_listable_tags : listable_tags tidy_db.
Proof.
  intros t Ht. simpl in Ht. destruct Ht as [<-|[<-|[]]]; simpl;
    (split; [discriminate | split; reflexivity]).
Qed.

Lemma listed_tags_are_the_stored_tags_witness :
  v_tags (view_of tidy_db xkcd_bookmark)
  = map (fun t => (t_id t, t_name t))
      (joined_tags tidy_db (v_row (view_of tidy_db xkcd_bookmark))) /\
  forall tid name,
    In (tid, name) (v_tags (view_of tidy_db xkcd_bookmark)) <->
    In (b_id (v_row (view_of tidy_db xkcd_bookmark)), tid)
      (bookmark_tags tidy_db) /\
    stored_tag tidy_db tid name.
Proof.
  apply (listed_tags_are_the_stored_tags 5 tidy_db None None None "title"
           "asc" true 1 25
           (match get_all_bookmarks 5 tidy_db None None None "title" "asc"
                    true 1 25 with
            | Ok r => r
            | Raise _ => mk_page [] 0 0 0 0
            end)).
  - exact tidy_db_listable_tags.
  - vm_compute. reflexivity.
  - vm_compute. left. reflexivity.
Defined.

Lemma service_ops_keep_store_ok_witness :
  store_ok (run_service_op sample_uuid4 (DeleteTag "t-fun") sample_db).
Proof.
  apply (service_ops_keep_store_ok sample_uuid4 (DeleteTag "t-fun") sample_db).
  exact sample_db_store_ok.
Defined.

Lemma create_tag_then_get_witness :
  fst (create_tag sample_uuid4 "dev" sample_db) = Raise IntegrityError /\
  tags (snd (create_tag sample_uuid4 "dev" sample_db)) = tags sample_db.
Proof.
  apply (create_tag_then_get sample_uuid4 "dev" sample_db).
  simpl. now left.
Defined.

Lemma delete_tag_detaches_bookmarks_witness :
  r_total
    (match get_all_bookmarks 5 (snd (delete_tag "t-fun" sample_db)) None
             (Some "t-fun") None "title" "asc" true 1 25 with
     | Ok r => r
     | Raise _ => mk_page [] 1 0 0 0
     end) = 0%Z /\
  r_bookmarks
    (match get_all_bookmarks 5 (snd (delete_tag "t-fun" sample_db)) None
             (Some "t-fun") None "title" "asc" true 1 25 with
     | Ok r => r
     | Raise _ => mk_page [] 1 0 0 0
     end) = [].
Proof.
  apply (proj2 (proj2 (proj2 (proj2 (proj2
           (delete_tag_detaches_bookmarks "t-fun" sample_db)))))
           5 None None "title" "asc" true 1%Z 25%Z).
  - discriminate.
  - vm_compute. reflexivity.
Defined.

Lemma update_tag_renames_everywhere_witness :
  ((exists other, In other (tags sample_db) /\ t_id other <> "t-dev" /\
                  t_name other = "code") ->
   update_tag "t-dev" "code" sample_db = (Raise IntegrityError, sample_db)) /\
  ((forall other, In other (tags sample_db) -> t_id other <> "t-dev" ->
                  t_name other <> "code") ->
   exists db',
     update_tag "t-dev" "code" sample_db = (Ok tt, db') /\
     get_tag db' "t-dev" = Some (mk_tag "t-dev" "code" "2024-01-03 00:00:00") /\
     bookmark_tags db' = bookmark_tags sample_db /\
     forall b, map t_name (joined_tags db' b)
               = map (fun x => if t_id x =? "t-dev" then "code" else t_name x)
                   (joined_tags sample_db b)).
Proof.
  apply (update_tag_renames_everywhere sample_tag "code" sample_db).
  - repeat constructor; simpl; intuition discriminate.
  - simpl. now left.
Defined.

Lemma import_repeated_tag_raises_witness :
  fst (process_container sample_uuid4 no_favicon 1 repeated_tag_leaf None
         (mk_import sample_db (mk_stats 0 0 0) []))
  = Raise IntegrityError.
Proof.
  apply (import_repeated_tag_raises sample_uuid4 no_favicon 0 (Some "g-1")
           (Text "News") "https://news.example" []
           (Some (TagsStr "news, news")) [] None
           (mk_import sample_db (mk_stats 0 0 0) [])).
  - discriminate.
  - vm_compute. intros H. inversion H as [|x l Hx Hl]. apply Hx. now left.
Defined.

Lemma extract_title_is_stripped_witness :
  extract_title sample_soup = Some "Rocq".
Proof.
  apply (proj2 (extract_title_is_stripped sample_soup)
           (mk_html_tag "meta"
              [("property", "og:title"); ("content", "  Rocq  ")] None)
           "  Rocq  ").
  - reflexivity.
  - reflexivity.
  - discriminate.
Defined.
